(** * Fragnauts: orbital movement, thrust, projectiles and replication

    A shallow embedding of [Player] (Player.ts), [Projectile] (Projectile.ts),
    [MultiplayerManager] (MultiplayerManager.ts) and the render loop of
    [Game] (index.ts).

    JavaScript numbers are modelled as real numbers: every statement about a
    length or a height is about exact arithmetic, so rounding error is outside
    the model.  Millisecond clocks ([Date.now()]) are integers.  The
    [@babylonjs/core] math primitives the code calls ([Vector3], [Matrix]) are
    written out as that library computes them; its orientation and collision
    routines are parameters of the development. *)

From Stdlib Require Import Reals Lra Psatz RNsatz ZArith Lia List String Bool Sorted.
Import ListNotations.

Local Open Scope R_scope.

(** ** Vector3 and Matrix (as computed by @babylonjs/core) *)

Record Vector3 : Type := mkVector3 { vx : R; vy : R; vz : R }.

Definition Zero : Vector3 := mkVector3 0 0 0.

Definition add (a b : Vector3) : Vector3 :=
  mkVector3 (vx a + vx b) (vy a + vy b) (vz a + vz b).

Definition subtract (a b : Vector3) : Vector3 :=
  mkVector3 (vx a - vx b) (vy a - vy b) (vz a - vz b).

Definition scale (a : Vector3) (k : R) : Vector3 :=
  mkVector3 (vx a * k) (vy a * k) (vz a * k).

Definition Dot (a b : Vector3) : R :=
  vx a * vx b + vy a * vy b + vz a * vz b.

Definition Cross (a b : Vector3) : Vector3 :=
  mkVector3 (vy a * vz b - vz a * vy b)
            (vz a * vx b - vx a * vz b)
            (vx a * vy b - vy a * vx b).

Definition lengthSquared (a : Vector3) : R :=
  vx a * vx a + vy a * vy a + vz a * vz a.

Definition length (a : Vector3) : R := sqrt (lengthSquared a).

(** [normalize] leaves a vector of length zero as it is and otherwise scales
    by the inverse of the length. *)
Definition normalize (a : Vector3) : Vector3 :=
  if Req_dec_T (length a) 0 then a else scale a (1 / length a).

(** A 4x4 matrix in Babylon's row-major storage order [m0 .. m15]. *)
Record Matrix : Type := mkMatrix {
  m0 : R;  m1 : R;  m2 : R;  m3 : R;
  m4 : R;  m5 : R;  m6 : R;  m7 : R;
  m8 : R;  m9 : R;  m10 : R; m11 : R;
  m12 : R; m13 : R; m14 : R; m15 : R
}.

(** [Matrix.RotationAxis]: the axis is normalised first. *)
Definition RotationAxis (axis0 : Vector3) (angle : R) : Matrix :=
  let s := sin (- angle) in
  let c := cos (- angle) in
  let c1 := 1 - c in
  let axis := normalize axis0 in
  mkMatrix
    (vx axis * vx axis * c1 + c)
    (vx axis * vy axis * c1 - vz axis * s)
    (vx axis * vz axis * c1 + vy axis * s)
    0
    (vy axis * vx axis * c1 + vz axis * s)
    (vy axis * vy axis * c1 + c)
    (vy axis * vz axis * c1 - vx axis * s)
    0
    (vz axis * vx axis * c1 - vy axis * s)
    (vz axis * vy axis * c1 + vx axis * s)
    (vz axis * vz axis * c1 + c)
    0
    0 0 0 1.

(** [Vector3.TransformCoordinates]: row vector times matrix, then the
    perspective divide. *)
Definition TransformCoordinates (v : Vector3) (m : Matrix) : Vector3 :=
  let rx := vx v * m0 m + vy v * m4 m + vz v * m8 m + m12 m in
  let ry := vx v * m1 m + vy v * m5 m + vz v * m9 m + m13 m in
  let rz := vx v * m2 m + vy v * m6 m + vz v * m10 m + m14 m in
  let rw := 1 / (vx v * m3 m + vy v * m7 m + vz v * m11 m + m15 m) in
  mkVector3 (rx * rw) (ry * rw) (rz * rw).

(** [Vector3.TransformNormal]: the 3x3 part only. *)
Definition TransformNormal (v : Vector3) (m : Matrix) : Vector3 :=
  mkVector3 (vx v * m0 m + vy v * m4 m + vz v * m8 m)
            (vx v * m1 m + vy v * m5 m + vz v * m9 m)
            (vx v * m2 m + vy v * m6 m + vz v * m10 m).

(** ** Scene meshes *)

Record Quaternion : Type := mkQuaternion { qx : R; qy : R; qz : R; qw : R }.

Definition Quaternion_Identity : Quaternion := mkQuaternion 0 0 0 1.

(** [mesh.metadata], when set, is an object that may carry [playerUUID]. *)
Record Metadata : Type := mkMetadata { playerUUID : option string }.

(** What the simulation reads of a mesh of the scene.  [mesh_id] stands for
    the identity of the JavaScript object ([===]). *)
Record AbstractMesh : Type := mkMesh {
  mesh_id : nat;
  name : string;
  metadata : option Metadata;
  position : Vector3
}.

Definition set_position (v : Vector3) (m : AbstractMesh) : AbstractMesh :=
  mkMesh (mesh_id m) (name m) (metadata m) v.

(** ** Projectile (Projectile.ts) *)

Record Projectile : Type := mkProjectile {
  proj_mesh : AbstractMesh;
  isActive : bool;
  spawnTime : Z;
  startDirection : Vector3;
  ownerUUID : string
}.

Definition speed : R := 1.
Definition lifespan : Z := 800.

(** [dispose]: the projectile is retired.  Its mesh leaves the scene and its
    particle trail is stopped later by a timer; neither is read again by the
    simulation. *)
Definition Projectile_dispose (p : Projectile) : Projectile :=
  mkProjectile (proj_mesh p) false (spawnTime p) (startDirection p) (ownerUUID p).

(** The orbital step of [update]: the mesh is rotated about the axis that
    the start direction and the inward radial span. *)
Definition Projectile_move (p : Projectile) : Projectile :=
  let pos := position (proj_mesh p) in
  let toPlanetCenter := normalize (subtract Zero pos) in
  let orbitDirection := normalize (Cross (startDirection p) toPlanetCenter) in
  let rotationMatrix := RotationAxis orbitDirection (speed * 0.016) in
  let newPosition := TransformCoordinates pos rotationMatrix in
  mkProjectile (set_position newPosition (proj_mesh p))
               (isActive p) (spawnTime p) (startDirection p) (ownerUUID p).

(** [metadata && metadata.playerUUID === this.ownerUUID] *)
Definition ownedBy (owner : string) (m : AbstractMesh) : bool :=
  match metadata m with
  | Some md =>
      match playerUUID md with
      | Some u => String.eqb u owner
      | None => false
      end
  | None => false
  end.

(** ** Player (Player.ts) *)

(** The state of a [Player].  [mesh_position] and [rotationQuaternion] are
    [mesh.position] and [mesh.rotationQuaternion]; [particlesStarted] is
    [jetpackParticles.isStarted()]; [multiplayerManager] tells whether the
    reference is set. *)
Record Player : Type := mkPlayer {
  mesh_position : Vector3;
  rotationQuaternion : option Quaternion;
  heightAboveSurface : R;
  verticalVelocity : R;
  jetpackActive : bool;
  particlesStarted : bool;
  fuel : R;
  hasFuel : bool;
  projectiles : list Projectile;
  uuid : string;
  multiplayerManager : bool;
  isRemotePlayer : bool;
  targetPosition : option Vector3;
  currentInterpolatedPosition : option Vector3;
  previousTargetPosition : option Vector3;
  targetRotation : option Quaternion;
  currentInterpolatedRotation : option Quaternion;
  lastRemotePositionUpdate : Z;
  estimatedVelocity : option Vector3;
  remoteHeightAboveSurface : R;
  targetHeight : R;
  previousHeight : R;
  estimatedVerticalVelocity : R
}.

(** A player as its constructor leaves it, spawned at [spawn] with the
    orientation [rot] (both are drawn at random by [spawnRandomPosition]). *)
Definition Player_new (id : string) (spawn : Vector3) (rot : Quaternion)
  : Player :=
  mkPlayer spawn (Some rot) 0.60 0 false false 80 true [] id false false
           None None None None None 0%Z None 0.60 0.60 0.60 0.

(** Field assignments. *)
Definition set_mesh_position (x : Vector3) (p : Player) : Player :=
  mkPlayer x (rotationQuaternion p) (heightAboveSurface p)
    (verticalVelocity p) (jetpackActive p) (particlesStarted p) (fuel p)
    (hasFuel p) (projectiles p) (uuid p) (multiplayerManager p)
    (isRemotePlayer p) (targetPosition p) (currentInterpolatedPosition p)
    (previousTargetPosition p) (targetRotation p)
    (currentInterpolatedRotation p) (lastRemotePositionUpdate p)
    (estimatedVelocity p) (remoteHeightAboveSurface p) (targetHeight p)
    (previousHeight p) (estimatedVerticalVelocity p).

Definition set_rotationQuaternion (x : option Quaternion) (p : Player) : Player :=
  mkPlayer (mesh_position p) x (heightAboveSurface p) (verticalVelocity p)
    (jetpackActive p) (particlesStarted p) (fuel p) (hasFuel p)
    (projectiles p) (uuid p) (multiplayerManager p) (isRemotePlayer p)
    (targetPosition p) (currentInterpolatedPosition p)
    (previousTargetPosition p) (targetRotation p)
    (currentInterpolatedRotation p) (lastRemotePositionUpdate p)
    (estimatedVelocity p) (remoteHeightAboveSurface p) (targetHeight p)
    (previousHeight p) (estimatedVerticalVelocity p).

Definition set_heightAboveSurface (x : R) (p : Player) : Player :=
  mkPlayer (mesh_position p) (rotationQuaternion p) x (verticalVelocity p)
    (jetpackActive p) (particlesStarted p) (fuel p) (hasFuel p)
    (projectiles p) (uuid p) (multiplayerManager p) (isRemotePlayer p)
    (targetPosition p) (currentInterpolatedPosition p)
    (previousTargetPosition p) (targetRotation p)
    (currentInterpolatedRotation p) (lastRemotePositionUpdate p)
    (estimatedVelocity p) (remoteHeightAboveSurface p) (targetHeight p)
    (previousHeight p) (estimatedVerticalVelocity p).

Definition set_verticalVelocity (x : R) (p : Player) : Player :=
  mkPlayer (mesh_position p) (rotationQuaternion p) (heightAboveSurface p) x
    (jetpackActive p) (particlesStarted p) (fuel p) (hasFuel p)
    (projectiles p) (uuid p) (multiplayerManager p) (isRemotePlayer p)
    (targetPosition p) (currentInterpolatedPosition p)
    (previousTargetPosition p) (targetRotation p)
    (currentInterpolatedRotation p) (lastRemotePositionUpdate p)
    (estimatedVelocity p) (remoteHeightAboveSurface p) (targetHeight p)
    (previousHeight p) (estimatedVerticalVelocity p).

Definition set_jetpackActive (x : bool) (p : Player) : Player :=
  mkPlayer (mesh_position p) (rotationQuaternion p) (heightAboveSurface p)
    (verticalVelocity p) x (particlesStarted p) (fuel p) (hasFuel p)
    (projectiles p) (uuid p) (multiplayerManager p) (isRemotePlayer p)
    (targetPosition p) (currentInterpolatedPosition p)
    (previousTargetPosition p) (targetRotation p)
    (currentInterpolatedRotation p) (lastRemotePositionUpdate p)
    (estimatedVelocity p) (remoteHeightAboveSurface p) (targetHeight p)
    (previousHeight p) (estimatedVerticalVelocity p).

Definition set_particlesStarted (x : bool) (p : Player) : Player :=
  mkPlayer (mesh_position p) (rotationQuaternion p) (heightAboveSurface p)
    (verticalVelocity p) (jetpackActive p) x (fuel p) (hasFuel p)
    (projectiles p) (uuid p) (multiplayerManager p) (isRemotePlayer p)
    (targetPosition p) (currentInterpolatedPosition p)
    (previousTargetPosition p) (targetRotation p)
    (currentInterpolatedRotation p) (lastRemotePositionUpdate p)
    (estimatedVelocity p) (remoteHeightAboveSurface p) (targetHeight p)
    (previousHeight p) (estimatedVerticalVelocity p).

Definition set_fuel (x : R) (p : Player) : Player :=
  mkPlayer (mesh_position p) (rotationQuaternion p) (heightAboveSurface p)
    (verticalVelocity p) (jetpackActive p) (particlesStarted p) x (hasFuel p)
    (projectiles p) (uuid p) (multiplayerManager p) (isRemotePlayer p)
    (targetPosition p) (currentInterpolatedPosition p)
    (previousTargetPosition p) (targetRotation p)
    (currentInterpolatedRotation p) (lastRemotePositionUpdate p)
    (estimatedVelocity p) (remoteHeightAboveSurface p) (targetHeight p)
    (previousHeight p) (estimatedVerticalVelocity p).

Definition set_hasFuel (x : bool) (p : Player) : Player :=
  mkPlayer (mesh_position p) (rotationQuaternion p) (heightAboveSurface p)
    (verticalVelocity p) (jetpackActive p) (particlesStarted p) (fuel p) x
    (projectiles p) (uuid p) (multiplayerManager p) (isRemotePlayer p)
    (targetPosition p) (currentInterpolatedPosition p)
    (previousTargetPosition p) (targetRotation p)
    (currentInterpolatedRotation p) (lastRemotePositionUpdate p)
    (estimatedVelocity p) (remoteHeightAboveSurface p) (targetHeight p)
    (previousHeight p) (estimatedVerticalVelocity p).

Definition set_projectiles (x : list Projectile) (p : Player) : Player :=
  mkPlayer (mesh_position p) (rotationQuaternion p) (heightAboveSurface p)
    (verticalVelocity p) (jetpackActive p) (particlesStarted p) (fuel p)
    (hasFuel p) x (uuid p) (multiplayerManager p) (isRemotePlayer p)
    (targetPosition p) (currentInterpolatedPosition p)
    (previousTargetPosition p) (targetRotation p)
    (currentInterpolatedRotation p) (lastRemotePositionUpdate p)
    (estimatedVelocity p) (remoteHeightAboveSurface p) (targetHeight p)
    (previousHeight p) (estimatedVerticalVelocity p).

Definition set_isRemotePlayer (x : bool) (p : Player) : Player :=
  mkPlayer (mesh_position p) (rotationQuaternion p) (heightAboveSurface p)
    (verticalVelocity p) (jetpackActive p) (particlesStarted p) (fuel p)
    (hasFuel p) (projectiles p) (uuid p) (multiplayerManager p) x
    (targetPosition p) (currentInterpolatedPosition p)
    (previousTargetPosition p) (targetRotation p)
    (currentInterpolatedRotation p) (lastRemotePositionUpdate p)
    (estimatedVelocity p) (remoteHeightAboveSurface p) (targetHeight p)
    (previousHeight p) (estimatedVerticalVelocity p).

Definition set_targetPosition (x : option Vector3) (p : Player) : Player :=
  mkPlayer (mesh_position p) (rotationQuaternion p) (heightAboveSurface p)
    (verticalVelocity p) (jetpackActive p) (particlesStarted p) (fuel p)
    (hasFuel p) (projectiles p) (uuid p) (multiplayerManager p)
    (isRemotePlayer p) x (currentInterpolatedPosition p)
    (previousTargetPosition p) (targetRotation p)
    (currentInterpolatedRotation p) (lastRemotePositionUpdate p)
    (estimatedVelocity p) (remoteHeightAboveSurface p) (targetHeight p)
    (previousHeight p) (estimatedVerticalVelocity p).

Definition set_currentInterpolatedPosition (x : option Vector3) (p : Player) : Player :=
  mkPlayer (mesh_position p) (rotationQuaternion p) (heightAboveSurface p)
    (verticalVelocity p) (jetpackActive p) (particlesStarted p) (fuel p)
    (hasFuel p) (projectiles p) (uuid p) (multiplayerManager p)
    (isRemotePlayer p) (targetPosition p) x (previousTargetPosition p)
    (targetRotation p) (currentInterpolatedRotation p)
    (lastRemotePositionUpdate p) (estimatedVelocity p)
    (remoteHeightAboveSurface p) (targetHeight p) (previousHeight p)
    (estimatedVerticalVelocity p).

Definition set_previousTargetPosition (x : option Vector3) (p : Player) : Player :=
  mkPlayer (mesh_position p) (rotationQuaternion p) (heightAboveSurface p)
    (verticalVelocity p) (jetpackActive p) (particlesStarted p) (fuel p)
    (hasFuel p) (projectiles p) (uuid p) (multiplayerManager p)
    (isRemotePlayer p) (targetPosition p) (currentInterpolatedPosition p) x
    (targetRotation p) (currentInterpolatedRotation p)
    (lastRemotePositionUpdate p) (estimatedVelocity p)
    (remoteHeightAboveSurface p) (targetHeight p) (previousHeight p)
    (estimatedVerticalVelocity p).

Definition set_targetRotation (x : option Quaternion) (p : Player) : Player :=
  mkPlayer (mesh_position p) (rotationQuaternion p) (heightAboveSurface p)
    (verticalVelocity p) (jetpackActive p) (particlesStarted p) (fuel p)
    (hasFuel p) (projectiles p) (uuid p) (multiplayerManager p)
    (isRemotePlayer p) (targetPosition p) (currentInterpolatedPosition p)
    (previousTargetPosition p) x (currentInterpolatedRotation p)
    (lastRemotePositionUpdate p) (estimatedVelocity p)
    (remoteHeightAboveSurface p) (targetHeight p) (previousHeight p)
    (estimatedVerticalVelocity p).

Definition set_currentInterpolatedRotation (x : option Quaternion) (p : Player) : Player :=
  mkPlayer (mesh_position p) (rotationQuaternion p) (heightAboveSurface p)
    (verticalVelocity p) (jetpackActive p) (particlesStarted p) (fuel p)
    (hasFuel p) (projectiles p) (uuid p) (multiplayerManager p)
    (isRemotePlayer p) (targetPosition p) (currentInterpolatedPosition p)
    (previousTargetPosition p) (targetRotation p) x
    (lastRemotePositionUpdate p) (estimatedVelocity p)
    (remoteHeightAboveSurface p) (targetHeight p) (previousHeight p)
    (estimatedVerticalVelocity p).

Definition set_lastRemotePositionUpdate (x : Z) (p : Player) : Player :=
  mkPlayer (mesh_position p) (rotationQuaternion p) (heightAboveSurface p)
    (verticalVelocity p) (jetpackActive p) (particlesStarted p) (fuel p)
    (hasFuel p) (projectiles p) (uuid p) (multiplayerManager p)
    (isRemotePlayer p) (targetPosition p) (currentInterpolatedPosition p)
    (previousTargetPosition p) (targetRotation p)
    (currentInterpolatedRotation p) x (estimatedVelocity p)
    (remoteHeightAboveSurface p) (targetHeight p) (previousHeight p)
    (estimatedVerticalVelocity p).

Definition set_estimatedVelocity (x : option Vector3) (p : Player) : Player :=
  mkPlayer (mesh_position p) (rotationQuaternion p) (heightAboveSurface p)
    (verticalVelocity p) (jetpackActive p) (particlesStarted p) (fuel p)
    (hasFuel p) (projectiles p) (uuid p) (multiplayerManager p)
    (isRemotePlayer p) (targetPosition p) (currentInterpolatedPosition p)
    (previousTargetPosition p) (targetRotation p)
    (currentInterpolatedRotation p) (lastRemotePositionUpdate p) x
    (remoteHeightAboveSurface p) (targetHeight p) (previousHeight p)
    (estimatedVerticalVelocity p).

Definition set_remoteHeightAboveSurface (x : R) (p : Player) : Player :=
  mkPlayer (mesh_position p) (rotationQuaternion p) (heightAboveSurface p)
    (verticalVelocity p) (jetpackActive p) (particlesStarted p) (fuel p)
    (hasFuel p) (projectiles p) (uuid p) (multiplayerManager p)
    (isRemotePlayer p) (targetPosition p) (currentInterpolatedPosition p)
    (previousTargetPosition p) (targetRotation p)
    (currentInterpolatedRotation p) (lastRemotePositionUpdate p)
    (estimatedVelocity p) x (targetHeight p) (previousHeight p)
    (estimatedVerticalVelocity p).

Definition set_targetHeight (x : R) (p : Player) : Player :=
  mkPlayer (mesh_position p) (rotationQuaternion p) (heightAboveSurface p)
    (verticalVelocity p) (jetpackActive p) (particlesStarted p) (fuel p)
    (hasFuel p) (projectiles p) (uuid p) (multiplayerManager p)
    (isRemotePlayer p) (targetPosition p) (currentInterpolatedPosition p)
    (previousTargetPosition p) (targetRotation p)
    (currentInterpolatedRotation p) (lastRemotePositionUpdate p)
    (estimatedVelocity p) (remoteHeightAboveSurface p) x (previousHeight p)
    (estimatedVerticalVelocity p).

Definition set_previousHeight (x : R) (p : Player) : Player :=
  mkPlayer (mesh_position p) (rotationQuaternion p) (heightAboveSurface p)
    (verticalVelocity p) (jetpackActive p) (particlesStarted p) (fuel p)
    (hasFuel p) (projectiles p) (uuid p) (multiplayerManager p)
    (isRemotePlayer p) (targetPosition p) (currentInterpolatedPosition p)
    (previousTargetPosition p) (targetRotation p)
    (currentInterpolatedRotation p) (lastRemotePositionUpdate p)
    (estimatedVelocity p) (remoteHeightAboveSurface p) (targetHeight p) x
    (estimatedVerticalVelocity p).

Definition set_estimatedVerticalVelocity (x : R) (p : Player) : Player :=
  mkPlayer (mesh_position p) (rotationQuaternion p) (heightAboveSurface p)
    (verticalVelocity p) (jetpackActive p) (particlesStarted p) (fuel p)
    (hasFuel p) (projectiles p) (uuid p) (multiplayerManager p)
    (isRemotePlayer p) (targetPosition p) (currentInterpolatedPosition p)
    (previousTargetPosition p) (targetRotation p)
    (currentInterpolatedRotation p) (lastRemotePositionUpdate p)
    (estimatedVelocity p) (remoteHeightAboveSurface p) (targetHeight p)
    (previousHeight p) x.

(** Reduction of the field projections of [Player] over the field
    assignments, leaving everything else folded. *)
Ltac player_fields :=
  cbn [mesh_position rotationQuaternion heightAboveSurface verticalVelocity
       jetpackActive particlesStarted fuel hasFuel projectiles uuid
       multiplayerManager isRemotePlayer targetPosition
       currentInterpolatedPosition previousTargetPosition targetRotation
       currentInterpolatedRotation lastRemotePositionUpdate estimatedVelocity
       remoteHeightAboveSurface targetHeight previousHeight
       estimatedVerticalVelocity
       set_mesh_position set_rotationQuaternion set_heightAboveSurface
       set_verticalVelocity set_jetpackActive set_particlesStarted set_fuel
       set_hasFuel set_projectiles set_isRemotePlayer set_targetPosition
       set_currentInterpolatedPosition set_previousTargetPosition
       set_targetRotation set_currentInterpolatedRotation
       set_lastRemotePositionUpdate set_estimatedVelocity
       set_remoteHeightAboveSurface set_targetHeight set_previousHeight
       set_estimatedVerticalVelocity] in *.

(** Case analysis on the comparisons of reals that a goal branches on. *)
Ltac split_decisions :=
  repeat (match goal with
          | |- context [Rle_dec ?a ?b] => destruct (Rle_dec a b)
          | |- context [Rgt_dec ?a ?b] => destruct (Rgt_dec a b)
          | |- context [Rge_dec ?a ?b] => destruct (Rge_dec a b)
          end; player_fields).

(** [Planet.getBaseRadius]: the planet's [baseRadius] field. *)
Definition getBaseRadius : R := 4.

Definition movementSpeed : R := 1.
Definition MIN_HEIGHT : R := 0.60. (* the literal [0.60] of [updatePhysics] *)
Definition MAX_HEIGHT : R := 3.
Definition JETPACK_FORCE : R := 6.
Definition GRAVITY_FORCE : R := 3.
Definition MAX_FUEL : R := 100.
Definition FUEL_BURN_RATE : R := 16.67.
Definition FUEL_REFILL_RATE : R := 12.67.
Definition POSITION_INTERPOLATION_SPEED : R := 15.
Definition ROTATION_INTERPOLATION_SPEED : R := 10.
Definition SMOOTHING_FACTOR : R := 0.25.
Definition HEIGHT_SMOOTHING_FACTOR : R := 0.2.

(** The surface-lock property of a player state. *)
Definition onSurface (p : Player) : Prop :=
  length (mesh_position p) = getBaseRadius + heightAboveSurface p.

(** [updateFuel] *)
Definition updateFuel (deltaTime : R) (p : Player) : Player :=
  if jetpackActive p then
    let fuel1 := fuel p - FUEL_BURN_RATE * deltaTime in
    if Rle_dec fuel1 0
    then set_particlesStarted false (set_hasFuel false (set_fuel 0 p))
    else set_fuel fuel1 p
  else
    let fuel1 := fuel p + FUEL_REFILL_RATE * deltaTime in
    let fuel2 := if Rgt_dec fuel1 MAX_FUEL then MAX_FUEL else fuel1 in
    let p1 := set_fuel fuel2 p in
    if hasFuel p1 then p1
    else if Rge_dec (fuel p1) (MAX_FUEL * 0.1) then set_hasFuel true p1
    else p1.

Definition activateJetpack (p : Player) : Player :=
  let p1 := set_jetpackActive true p in
  if hasFuel p1 && negb (particlesStarted p1)
  then set_particlesStarted true p1 else p1.

Definition deactivateJetpack (p : Player) : Player :=
  set_particlesStarted false (set_jetpackActive false p).

(** The height clamp of [updatePhysics], on the pair of the integrated height
    and the vertical velocity. *)
Definition clampHeight (hv : R * R) : R * R :=
  let (h, v) := hv in
  if Rlt_dec h MIN_HEIGHT then (MIN_HEIGHT, 0)
  else if Rgt_dec h MAX_HEIGHT then (MAX_HEIGHT, 0)
  else (h, v).

(** The vertical integration of [updatePhysics], after [updateFuel]: the
    height and the vertical velocity before the clamp. *)
Definition integrateVertical (deltaTime : R) (p : Player) : R * R :=
  let v1 :=
    if jetpackActive p && hasFuel p then
      if Rlt_dec (heightAboveSurface p) MAX_HEIGHT
      then verticalVelocity p + JETPACK_FORCE * deltaTime
      else verticalVelocity p
    else verticalVelocity p in
  let v2 := v1 - GRAVITY_FORCE * deltaTime in
  (heightAboveSurface p + v2 * deltaTime, v2).

(** The hit callback that [shoot] gives its projectiles: a frag is counted
    when the target is a player mesh with metadata naming another player. *)
Definition countsAsFrag (self : string) (target : AbstractMesh) : bool :=
  if String.eqb (name target) "player" then
    match metadata target with
    | Some md =>
        match playerUUID md with
        | Some u => negb (String.eqb u self)
        | None => true
        end
    | None => false
    end
  else false.

(** The vector [updateRemoteInterpolation] adds to the interpolated position
    before re-projecting: the smoothed difference to the target, plus the
    velocity prediction, limited to [maxPositionDelta] in length. *)
Definition moveVector (toTarget : Vector3) (velocity : option Vector3)
           (maxPositionDelta : R) : Vector3 :=
  let smoothingAmount := Rmin 1.0 SMOOTHING_FACTOR in
  let mv0 := scale toTarget smoothingAmount in
  let mv1 :=
    match velocity with
    | Some ev =>
        if Rgt_dec (length ev) 0.001
        then let velocityFactor := 0.2 in add mv0 (scale ev velocityFactor)
        else mv0
    | None => mv0
    end in
  if Rgt_dec (length mv1) maxPositionDelta
  then scale (normalize mv1) maxPositionDelta
  else mv1.

(** The interpolated height after one tick. *)
Definition interpolateHeight (deltaTime : R) (p : Player) : R :=
  let heightDiff := targetHeight p - remoteHeightAboveSurface p in
  if Rgt_dec (Rabs heightDiff) 0.001 then
    let heightDelta := heightDiff * HEIGHT_SMOOTHING_FACTOR in
    let predictedHeight :=
      heightDelta + estimatedVerticalVelocity p * deltaTime * 0.5 in
    Rmax 0.60 (Rmin (remoteHeightAboveSurface p + predictedHeight) 3)
  else remoteHeightAboveSurface p.

(** ** Vocabulary of the statements *)

(** The position from which a tick interpolates. *)
Definition interpolatedFrom (p : Player) : Vector3 :=
  match currentInterpolatedPosition p with
  | Some c => c
  | None => mesh_position p
  end.

(** The position a tick re-projects to, when it moves at all. *)
Definition interpolatedTo (dt : R) (target : Vector3) (p : Player) : Vector3 :=
  let current := interpolatedFrom p in
  let mv := moveVector (subtract target current) (estimatedVelocity p)
                       (POSITION_INTERPOLATION_SPEED * dt) in
  scale (normalize (add current mv))
        (getBaseRadius + interpolateHeight dt p).

(** No velocity prediction enters the step: there is no estimate, or it is
    too short to be used. *)
Definition noVelocityEstimate (p : Player) : Prop :=
  match estimatedVelocity p with
  | Some ev => ~ length ev > 0.001
  | None => True
  end.

(** The interpolated height has reached the target height, and the target
    and the interpolated position lie on the sphere of that height. *)
Definition settledOn (target : Vector3) (p : Player) : Prop :=
  targetPosition p = Some target
  /\ noVelocityEstimate p
  /\ remoteHeightAboveSurface p = targetHeight p
  /\ 0 < getBaseRadius + targetHeight p
  /\ length target = getBaseRadius + targetHeight p
  /\ length (interpolatedFrom p) = getBaseRadius + targetHeight p.

Definition distanceToTarget (target : Vector3) (p : Player) : R :=
  length (subtract target (interpolatedFrom p)).

(** ** Stand-ins and sample states for the closed examples *)

(** A fixed frame in place of the engine's orientation routines: forward is
    [+z], right is [+x], every basis maps to the identity quaternion and
    [Slerp] goes straight to its target. *)
Definition frameForward (_ : option Quaternion) : Vector3 := mkVector3 0 0 1.
Definition frameRight (_ : option Quaternion) : Vector3 := mkVector3 1 0 0.
Definition frameAxes (_ _ _ : Vector3) : Quaternion := Quaternion_Identity.
Definition snapSlerp (_ target : Quaternion) (_ : R) : Quaternion := target.
Definition alwaysIntersects (_ _ : AbstractMesh) : bool := true.
Definition neverIntersects (_ _ : AbstractMesh) : bool := false.

(** A local player standing on the ground at the top of the planet. *)
Definition grounded : Player :=
  Player_new "alice" (mkVector3 0 4.6 0) Quaternion_Identity.

(** A remote player whose interpolation state is given: interpolated position
    [cur] at height [h], last sample [target] at height [th], velocity
    estimates [ev] and [evv]. *)
Definition remoteBody (cur target : Vector3) (h th : R)
           (ev : option Vector3) (evv : R) : Player :=
  mkPlayer cur (Some Quaternion_Identity) 0.60 0 false false 80 true []
           "bob" false true
           (Some target) (Some cur) None None None 0%Z ev h th th evv.

(** ** MultiplayerManager (MultiplayerManager.ts) *)

Record PlayerData : Type := mkPlayerData {
  pd_position : Vector3;
  pd_rotation : Quaternion;
  isJetpackActive : bool;
  lastUpdate : Z
}.

Record ProjectileData : Type := mkProjectileData {
  pr_id : string;
  pr_position : Vector3;
  pr_direction : Vector3;
  pr_ownerUUID : string;
  pr_createdAt : Z
}.

Record DeathEffectData : Type := mkDeathEffectData {
  de_id : string;
  de_position : Vector3;
  de_createdAt : Z
}.

(** The three collections of the shared store.  Each is the list of the
    children of its reference, in the key order in which a snapshot
    enumerates them; a reference with no child does not exist. *)
Record Database : Type := mkDatabase {
  db_players : list (string * PlayerData);
  db_projectiles : list (string * ProjectileData);
  db_deathEffects : list (string * DeathEffectData)
}.

(** [set(ref(database, path/key), value)]: the child is replaced, or added at
    its place in key order. *)
Fixpoint db_set {A : Type} (key : string) (value : A)
         (children : list (string * A)) : list (string * A) :=
  match children with
  | [] => [(key, value)]
  | (k, v) :: rest =>
      if String.eqb k key then (key, value) :: rest
      else if String.ltb key k then (key, value) :: (k, v) :: rest
      else (k, v) :: db_set key value rest
  end.

(** The fields of the manager that its own steps write. *)
Record MultiplayerManager : Type := mkMultiplayerManager {
  mm_playerUUID : string;
  isHost : bool;
  lastUpdateTime : Z
}.

Definition updateInterval : Z := 33.

(** What a call leaves behind: the manager, the store and the lines written
    with [console.error]. *)
Record Outcome : Type := mkOutcome {
  manager : MultiplayerManager;
  database : Database;
  errors : list string
}.

(** How a call ends: it returns, or an exception leaves it. *)
Inductive Completion (A : Type) : Type :=
| Returns (a : A)
| Throws (e : string).
Arguments Returns {A} a.
Arguments Throws {A} e.

Definition bind {A B : Type} (c : Completion A) (k : A -> Completion B)
  : Completion B :=
  match c with
  | Returns a => k a
  | Throws e => Throws e
  end.

Notation "x <- c ;; k" := (bind c (fun x => k))
  (at level 61, c at next level, right associativity).

(** Reading a property of [mesh.rotationQuaternion]: a [TypeError] when the
    quaternion is null. *)
Definition quaternionField (q : option Quaternion) (f : Quaternion -> R)
  : Completion R :=
  match q with
  | Some v => Returns (f v)
  | None => Throws "TypeError"
  end.

(** [updatePlayerData] at clock [now], reading the local player's mesh. *)
Definition updatePlayerData (now : Z) (localPlayer : Player)
           (m : MultiplayerManager) (db : Database) : Completion Outcome :=
  let currentTime := now in
  if (currentTime - lastUpdateTime m <? updateInterval)%Z
  then Returns (mkOutcome m db [])
  else
    let m1 := mkMultiplayerManager (mm_playerUUID m) (isHost m) currentTime in
    let rotation := rotationQuaternion localPlayer in
    match rotation with
    | None =>
        Returns (mkOutcome m1 db ["Player mesh missing rotation quaternion!"%string])
    | Some _ =>
        x <- quaternionField rotation qx ;;
        y <- quaternionField rotation qy ;;
        z <- quaternionField rotation qz ;;
        w <- quaternionField rotation qw ;;
        let playerData :=
          mkPlayerData (mesh_position localPlayer) (mkQuaternion x y z w)
                       (jetpackActive localPlayer) currentTime in
        Returns
          (mkOutcome m1
             (mkDatabase (db_set (mm_playerUUID m1) playerData (db_players db))
                         (db_projectiles db) (db_deathEffects db))
             [])
    end.

(** [addProjectile] at clock [now], under the key [projectileId] that [push]
    generated: the store afterwards and the delay of the timer that removes
    the record. *)
Definition addProjectile (now : Z) (projectileId : string)
           (pos direction : Vector3) (m : MultiplayerManager) (db : Database)
  : Database * Z :=
  let projectileData :=
    mkProjectileData projectileId pos direction (mm_playerUUID m) now in
  (mkDatabase (db_players db)
              (db_set projectileId projectileData (db_projectiles db))
              (db_deathEffects db),
   2000%Z).

(** The two guards of [setupProjectileListeners] on a record of the snapshot:
    whether the listener goes on to mirror it. *)
Definition mirrorsProjectile (now : Z) (m : MultiplayerManager)
           (projData : ProjectileData) : bool :=
  if String.eqb (pr_ownerUUID projData) (mm_playerUUID m) then false
  else if (now - pr_createdAt projData >? 2000)%Z then false
  else true.

(** The first-time check of [cleanupStaleData], on the snapshot of [players]:
    whether the client takes the host role. *)
Definition becomesHost (self : string) (players : list (string * PlayerData))
  : bool :=
  match players with
  | [] => true
  | _ =>
      let playerUUIDs := map fst players in
      Nat.eqb (List.length playerUUIDs) 1
      || match playerUUIDs with
         | first :: _ => String.eqb first self
         | [] => false
         end
  end.

(** The records each sweep marks for removal and then removes. *)
Definition sweep (now : Z) (db : Database) : Database :=
  mkDatabase
    (filter (fun kv => negb (now - lastUpdate (snd kv) >? 10000)%Z) (db_players db))
    (filter (fun kv => negb (now - pr_createdAt (snd kv) >? 2000)%Z) (db_projectiles db))
    (filter (fun kv => negb (now - de_createdAt (snd kv) >? 3000)%Z) (db_deathEffects db)).

(** [cleanupStaleData] at clock [now].  The one-shot reads are served from the
    store as it is when the sweep runs. *)
Definition cleanupStaleData (now : Z) (m : MultiplayerManager) (db : Database)
  : MultiplayerManager * Database :=
  let m1 :=
    if negb (isHost m) then
      if becomesHost (mm_playerUUID m) (db_players db)
      then mkMultiplayerManager (mm_playerUUID m) true (lastUpdateTime m)
      else m
    else m in
  if negb (isHost m1) then (m1, db)
  else (m1, sweep now db).

(** A remote player at rest on the ground whose last sample lies a quarter
    turn away at the same height. *)
Definition starved : Player :=
  remoteBody (mkVector3 4.6 0 0) (mkVector3 0 4.6 0) 0.6 0.6 None 0.

(** A remote player at height 1 whose last sample lies 0.21 ahead on the same
    sphere, with a velocity estimate of length 2.1 left from earlier samples. *)
Definition driftTarget : Vector3 := mkVector3 (47 / 221) 0 (1104 / 221).

Definition drifting : Player :=
  remoteBody (mkVector3 0 0 5) driftTarget 1 1
             (Some (mkVector3 (466.25 / 221) 0 (- 23.75 / 221))) 0.

(** A remote player at height 1 whose last sample lies 0.002 above it, with
    a descent of one unit per second left as vertical velocity estimate. *)
Definition sinking : Player :=
  remoteBody (mkVector3 0 0 5) (mkVector3 0 0 5.002) 1 1.002 None (-1).

(** A remote player at height 1 whose last sample lies 0.00005 above it,
    with no velocity estimate at all. *)
Definition idling : Player :=
  remoteBody (mkVector3 0 0 5) (mkVector3 0 0 5.00005) 1 1.00005 None 0.

(** A remote player at height 1 whose last sample lies diametrically
    opposite, at the same height, with no velocity estimate at all. *)
Definition opposed : Player :=
  remoteBody (mkVector3 0 0 5) (mkVector3 0 0 (-5)) 1 1 None 0.

(** A shot fired by alice at clock 0, and its record in the store. *)
Definition aliceShot : Projectile :=
  mkProjectile (mkMesh 3 "projectile" None (mkVector3 0 4.6 0.5))
               true 0%Z (mkVector3 0 0 1) "alice".

Definition aliceShotRecord : ProjectileData :=
  mkProjectileData "-shot1" (mkVector3 0 4.6 0.5) (mkVector3 0 0 1) "alice" 0%Z.

(** Bob's client, and two states of the store: bob alone at clock 10,000,
    then alice (whose key sorts first) beside bob at clock 20,000, with the
    record of alice's old shot still there. *)
Definition bobManager : MultiplayerManager :=
  mkMultiplayerManager "bob" false 0%Z.

Definition bobAlone : Database :=
  mkDatabase
    [("bob"%string, mkPlayerData (mkVector3 0 4.6 0) Quaternion_Identity false 9990%Z)]
    [] [].

Definition aliceJoined : Database :=
  mkDatabase
    [("alice"%string, mkPlayerData (mkVector3 4.6 0 0) Quaternion_Identity false 19990%Z);
     ("bob"%string, mkPlayerData (mkVector3 0 4.6 0) Quaternion_Identity false 19990%Z)]
    [("-shot1"%string, aliceShotRecord)]
    [].

(** ** More of Player.ts, index.ts and Planet.ts *)

(** [getFuelPercentage] *)
Definition getFuelPercentage (p : Player) : R := fuel p / MAX_FUEL * 100.

(** [Vector3.Forward()] and [Vector3.Right()] of the engine. *)
Definition Forward : Vector3 := mkVector3 0 0 1.
Definition Right : Vector3 := mkVector3 1 0 0.

(** The point [spawnRandomPosition] picks from two draws [u] and [v] of
    [Math.random()], for a player at the given height. *)
Definition spawnPoint (u v : R) (height : R) : Vector3 :=
  let phi := u * PI * 2 in
  let theta := v * PI in
  let planetRadius := getBaseRadius in
  let spawnRadius := planetRadius + height in
  mkVector3 (spawnRadius * sin theta * cos phi)
            (spawnRadius * cos theta)
            (spawnRadius * sin theta * sin phi).

(** The mesh of a player, as [createPlayerMesh] names and tags it. *)
Definition playerMesh (id : nat) (p : Player) : AbstractMesh :=
  mkMesh id "player" (Some (mkMetadata (Some (uuid p)))) (mesh_position p).

(** The keys held and the pointer movement stored when a frame starts. *)
Record Input : Type := mkInput {
  key_space : bool;
  key_a : bool;
  key_d : bool;
  key_w : bool;
  key_s : bool;
  mouseMovement : R
}.

Definition mouseSensitivity : R := 0.005.

(** [Math.sign] and [Math.pow] (on a base that is not negative, with a
    positive exponent). *)
Definition Math_sign (x : R) : R :=
  if Rlt_dec 0 x then 1 else if Rlt_dec x 0 then -1 else 0.

Definition Math_pow (x y : R) : R :=
  if Req_dec_T x 0 then 0 else Rpower x y.

Definition craterDepth : R := 1.6.
Definition craterFrequency : R := 2.0.

(** [Planet.simplexNoise] *)
Definition simplexNoise (noiseSeed x y z : R) : R :=
  let scale := 0.8 in
  let nx := sin ((x + noiseSeed) * scale) in
  let ny := cos ((y + noiseSeed) * scale) in
  let nz := sin ((z + noiseSeed) * scale) in
  let f1 := noiseSeed * 0.01 in
  let f2 := noiseSeed * 0.02 in
  let f3 := noiseSeed * 0.03 in
  sin (nx * 1.0 + f1) * cos (ny * 1.0 + f1) * sin (nz * 1.0 + f1) * 0.5
  + sin (nx * 2.0 + f2) * cos (ny * 2.0 + f2) * sin (nz * 2.0 + f2) * 0.25
  + sin (nx * 4.0 + f3) * cos (ny * 4.0 + f3) * sin (nz * 4.0 + f3) * 0.125.

(** [Planet.craterNoise] *)
Definition craterNoise (noiseSeed x y z : R) : R :=
  let craterSeed := noiseSeed * 1.5 in
  let scale := 1.2 in
  let nx := sin ((x + craterSeed) * scale) in
  let ny := cos ((y + craterSeed) * scale) in
  let nz := sin ((z + craterSeed) * scale) in
  let f1 := craterSeed * 0.03 in
  let f2 := craterSeed * 0.07 in
  let f3 := craterSeed * 0.11 in
  let noise :=
    sin (nx * 3.0 + f1) * cos (ny * 3.0 + f1) * sin (nz * 3.0 + f1) * 0.4
    + sin (nx * 7.0 + f2) * cos (ny * 7.0 + f2) * sin (nz * 7.0 + f2) * 0.4
    + sin (nx * 13.0 + f3) * cos (ny * 13.0 + f3) * sin (nz * 13.0 + f3) * 0.2 in
  let noise := Math_pow (Rabs noise) 1.5 * Math_sign noise in
  let threshold := -0.1 in
  if Rlt_dec noise threshold then noise * 1.5 else 0.

(** The first pass of [Planet.create] on one vertex: the base terrain. *)
Definition terrainPass (noiseSeed : R) (v : Vector3) : Vector3 :=
  let x := vx v in
  let y := vy v in
  let z := vz v in
  let baseNoise := simplexNoise noiseSeed x y z in
  let magnitude := 0.2 in
  mkVector3 (x * (1 + baseNoise * magnitude))
            (y * (1 + baseNoise * magnitude))
            (z * (1 + baseNoise * magnitude)).

(** The second pass of [Planet.create] on one vertex: the craters. *)
Definition craterPass (noiseSeed : R) (v : Vector3) : Vector3 :=
  let x := vx v in
  let y := vy v in
  let z := vz v in
  let len := sqrt (x * x + y * y + z * z) in
  let nx := x / len in
  let ny := y / len in
  let nz := z / len in
  let noise := craterNoise noiseSeed (nx * craterFrequency)
                           (ny * craterFrequency) (nz * craterFrequency) in
  let craterEffect := Rmin 0 noise * craterDepth in
  mkVector3 (x + nx * craterEffect) (y + ny * craterEffect) (z + nz * craterEffect).

(** What [Planet.create] makes of one vertex of the sphere. *)
Definition deformVertex (noiseSeed : R) (v : Vector3) : Vector3 :=
  craterPass noiseSeed (terrainPass noiseSeed v).

(** ** More of MultiplayerManager.ts *)

(** A JavaScript [Map] with string keys, as the list of its entries in
    insertion order. *)
Definition Map_has {V : Type} (key : string) (m : list (string * V)) : bool :=
  existsb (fun kv => String.eqb (fst kv) key) m.

Fixpoint Map_get {V : Type} (key : string) (m : list (string * V)) : option V :=
  match m with
  | [] => None
  | (k, v) :: rest => if String.eqb k key then Some v else Map_get key rest
  end.

Fixpoint Map_set {V : Type} (key : string) (value : V) (m : list (string * V))
  : list (string * V) :=
  match m with
  | [] => [(key, value)]
  | (k, v) :: rest =>
      if String.eqb k key then (key, value) :: rest
      else (k, v) :: Map_set key value rest
  end.

(** The mirrors the manager keeps of the other clients' records. *)
Record Mirrors : Type := mkMirrors {
  otherPlayers : list (string * Player);
  otherProjectiles : list (string * Projectile)
}.

(** The projectile that [setupProjectileListeners] builds for a record at
    clock [now]; [fresh] identifies its mesh. *)
Definition mirrorProjectile (now : Z) (fresh : nat) (projData : ProjectileData)
  : Projectile :=
  mkProjectile (mkMesh fresh "projectile" None (pr_position projData))
               true now (pr_direction projData) (pr_ownerUUID projData).

(** What [setupProjectileListeners] does with one record of the snapshot:
    a record that passes the two guards and is not mirrored yet gets a
    projectile. *)
Definition onProjectileEntry (now : Z) (m : MultiplayerManager)
           (fresh : string -> nat) (others : list (string * Projectile))
           (entry : string * ProjectileData) : list (string * Projectile) :=
  let id := fst entry in
  let projData := snd entry in
  if mirrorsProjectile now m projData then
    if Map_has id others then others
    else Map_set id (mirrorProjectile now (fresh id) projData) others
  else others.

(** The callback of [setupProjectileListeners] on a snapshot of
    [projectiles]: every record is looked at; then mirrored projectiles
    whose record is gone are disposed of and dropped. *)
Definition onProjectilesValue (now : Z) (m : MultiplayerManager)
           (fresh : string -> nat) (projectiles : list (string * ProjectileData))
           (mirrored : list (string * Projectile)) : list (string * Projectile) :=
  match projectiles with
  | [] => mirrored
  | _ =>
      let processed :=
        fold_left (onProjectileEntry now m fresh) projectiles mirrored in
      filter (fun kv => Map_has (fst kv) projectiles) processed
  end.

(** [setMultiplayerManager]: the player is handed its manager. *)
Definition setMultiplayerManager (p : Player) : Player :=
  mkPlayer (mesh_position p) (rotationQuaternion p) (heightAboveSurface p)
           (verticalVelocity p) (jetpackActive p) (particlesStarted p)
           (fuel p) (hasFuel p) (projectiles p) (uuid p) true
           (isRemotePlayer p) (targetPosition p)
           (currentInterpolatedPosition p) (previousTargetPosition p)
           (targetRotation p) (currentInterpolatedRotation p)
           (lastRemotePositionUpdate p) (estimatedVelocity p)
           (remoteHeightAboveSurface p) (targetHeight p) (previousHeight p)
           (estimatedVerticalVelocity p).

(** [createDeathEffect] at clock [now], under the key [effectId] that [push]
    generated: the store afterwards and the delay of the timer that removes
    the record.  The particle system it starts is kept for display only. *)
Definition createDeathEffect (now : Z) (effectId : string) (pos : Vector3)
           (db : Database) : Database * Z :=
  let effectData := mkDeathEffectData effectId pos now in
  (mkDatabase (db_players db) (db_projectiles db)
              (db_set effectId effectData (db_deathEffects db)),
   3000%Z).

(** [mesh.position = v] on the mesh of the scene that [id] identifies. *)
Definition moveMesh (id : nat) (v : Vector3) (scene : list AbstractMesh)
  : list AbstractMesh :=
  map (fun mesh => if Nat.eqb (mesh_id mesh) id then set_position v mesh else mesh)
      scene.

(** What the loop of [updateRemotePlayers] over the mirrored projectiles
    reads and writes besides the projectiles: the meshes of the scene, the
    local player, the store, the calls of the hit callbacks (key of the
    projectile and mesh handed over), the owners handed to
    [onOtherPlayerHit], and the timers set to remove death effects (key and
    delay), each list in the order of the calls. *)
Record Arena : Type := mkArena {
  ar_scene : list AbstractMesh;
  ar_localPlayer : Player;
  ar_database : Database;
  ar_hits : list (string * AbstractMesh);
  ar_reported : list string;
  ar_timers : list (string * Z)
}.

(** What [Game] holds of its manager: the manager's own fields, its mirrors
    and the store it talks to. *)
Record Session : Type := mkSession {
  se_manager : MultiplayerManager;
  se_mirrors : Mirrors;
  se_database : Database
}.

(** What a pass of the render loop leaves behind: the local player, the
    increments of [Game.frags], the owners handed to [onOtherPlayerHit],
    the session, the lines written with [console.error] and the timers
    set. *)
Record PassOutcome : Type := mkPassOutcome {
  po_player : Player;
  po_frags : nat;
  po_reported : list string;
  po_session : option Session;
  po_errors : list string;
  po_timers : list (string * Z)
}.

(** What a pass of the render loop finds: the clock, the mesh of the local
    player, the keys that [push] will generate and the draws of
    [Math.random()] that the respawns will make (the [i]-th hit of the pass
    takes the [i]-th of each), the meshes of the scene, the time step, the
    input, and the session ([null] before [setupMultiplayer]). *)
Record Turn : Type := mkTurn {
  t_now : Z;
  t_localMesh : nat;
  t_pushKey : nat -> string;
  t_draws : nat -> R * R;
  t_scene : list AbstractMesh;
  t_deltaTime : R;
  t_input : Input;
  t_session : option Session
}.

(** Bob's player on the ground at the top of the planet, and a pass of
    bob's render loop at clock [now] with the jetpack key held and no mirror
    beside him. *)
Definition bob : Player :=
  Player_new "bob" (mkVector3 0 4.6 0) Quaternion_Identity.

Definition heldTurn (now : Z) : Turn :=
  mkTurn now 1 (fun _ => "-effect1"%string) (fun _ => (0, 1 / 2))
         [playerMesh 1 bob] 0.016 (mkInput true false false false false 0)
         (Some (mkSession bobManager (mkMirrors [] []) bobAlone)).

(** A pass of bob's render loop at clock [now] with the mirror of alice's
    shot beside him. *)
Definition shotTurn (now : Z) : Turn :=
  mkTurn now 1 (fun _ => "-effect1"%string) (fun _ => (0, 1 / 2))
         [playerMesh 1 bob] 0.016 (mkInput false false false true false 0)
         (Some (mkSession bobManager
                          (mkMirrors [] [("-shot1"%string, aliceShot)])
                          aliceJoined)).

(** ** The simulation over the engine's routines *)

Section Simulation.

(** Collision and orientation routines of @babylonjs/core, taken as given:
    [intersectsMesh target other] is [target.intersectsMesh(other, false)];
    [mesh_forward] and [mesh_right] read the [forward] and [right] axes of a
    mesh from its rotation quaternion; [FromXYZAxes r u f] is
    [Quaternion.FromRotationMatrix] of [Matrix.FromXYZAxesToRef r u f];
    [Slerp] is [Quaternion.SlerpToRef]. *)
Variable intersectsMesh : AbstractMesh -> AbstractMesh -> bool.
Variable mesh_forward : option Quaternion -> Vector3.
Variable mesh_right : option Quaternion -> Vector3.
Variable FromXYZAxes : Vector3 -> Vector3 -> Vector3 -> Quaternion.
Variable Slerp : Quaternion -> Quaternion -> R -> Quaternion.

(** The predicate of [scene.meshes.filter] in [Projectile.update]. *)
Definition collides (p : Projectile) (mesh : AbstractMesh) : bool :=
  if negb (String.eqb (name mesh) "player")
     || Nat.eqb (mesh_id mesh) (mesh_id (proj_mesh p))
  then false
  else if ownedBy (ownerUUID p) mesh then false
  else intersectsMesh mesh (proj_mesh p).

(** [Projectile.update] at clock [now] over the meshes of the scene.  The
    result is the projectile afterwards, the mesh handed to [onHit] (if the
    callback fires) and the returned flag. *)
Definition Projectile_update (now : Z) (scene : list AbstractMesh)
           (p : Projectile) : Projectile * option AbstractMesh * bool :=
  if negb (isActive p) then (p, None, false)
  else if (now - spawnTime p >? lifespan)%Z
  then (Projectile_dispose p, None, false)
  else
    let p1 := Projectile_move p in
    let hits := filter (collides p1) scene in
    match hits with
    | target :: _ => (Projectile_dispose p1, Some target, false)
    | [] => (p1, None, true)
    end.

(** [moveAlongOrbit] *)
Definition moveAlongOrbit (crossAxis : Vector3) (deltaTime : R) (p : Player)
  : Player :=
  let toPlanetCenter := normalize (subtract Zero (mesh_position p)) in
  let orbitDirection := normalize (Cross crossAxis toPlanetCenter) in
  let angle := movementSpeed * deltaTime in
  let rotationMatrix := RotationAxis orbitDirection angle in
  let planetRadius := getBaseRadius in
  let orbitRadius := planetRadius + heightAboveSurface p in
  let newPosition := TransformCoordinates (mesh_position p) rotationMatrix in
  let p1 := set_mesh_position (scale (normalize newPosition) orbitRadius) p in
  let localUp := scale toPlanetCenter (-1) in
  let localForward := mesh_forward (rotationQuaternion p1) in
  let localRight := normalize (Cross localUp localForward) in
  let correctedForward := normalize (Cross localRight localUp) in
  set_rotationQuaternion
    (Some (FromXYZAxes localRight localUp correctedForward)) p1.

Definition strafeLeft (deltaTime : R) (p : Player) : Player :=
  if isRemotePlayer p then p
  else moveAlongOrbit (scale (mesh_right (rotationQuaternion p)) (-1)) deltaTime p.

Definition strafeRight (deltaTime : R) (p : Player) : Player :=
  if isRemotePlayer p then p
  else moveAlongOrbit (mesh_right (rotationQuaternion p)) deltaTime p.

Definition moveForward (deltaTime : R) (p : Player) : Player :=
  if isRemotePlayer p then p
  else moveAlongOrbit (mesh_forward (rotationQuaternion p)) deltaTime p.

Definition moveBackward (deltaTime : R) (p : Player) : Player :=
  if isRemotePlayer p then p
  else moveAlongOrbit (scale (mesh_forward (rotationQuaternion p)) (-1)) deltaTime p.

(** [rotate].  [Matrix.RotationAxis] normalises its axis in place, so the
    [localUp] handed on to the basis is the normalised one. *)
Definition rotate (deltaRadians : R) (p : Player) : Player :=
  if isRemotePlayer p then p
  else
    let toPlanetCenter := normalize (subtract Zero (mesh_position p)) in
    let localUp := scale toPlanetCenter (-1) in
    let rotationMatrix := RotationAxis localUp deltaRadians in
    let localUp := normalize localUp in
    let currentForward := mesh_forward (rotationQuaternion p) in
    let currentRight := mesh_right (rotationQuaternion p) in
    let newForward := TransformNormal currentForward rotationMatrix in
    let newRight := TransformNormal currentRight rotationMatrix in
    set_rotationQuaternion (Some (FromXYZAxes newRight localUp newForward)) p.

(** [this.projectiles.filter(projectile => projectile.update())]: the
    projectiles that stay, each as it is after its update, and the number of
    times [onFragCallback] ran. *)
Fixpoint updateProjectiles (now : Z) (scene : list AbstractMesh)
         (self : string) (ps : list Projectile) : list Projectile * nat :=
  match ps with
  | [] => ([], 0%nat)
  | q :: rest =>
      let '(q1, hit, keep) := Projectile_update now scene q in
      let frag := match hit with
                  | Some target => if countsAsFrag self target then 1%nat else 0%nat
                  | None => 0%nat
                  end in
      let (rest1, n) := updateProjectiles now scene self rest in
      (if keep then q1 :: rest1 else rest1, (frag + n)%nat)
  end.

(** [updateRemoteInterpolation].  The closing [updateParticleSystem] only
    re-aims the particle emitter from the mesh and keeps no state. *)
Definition updateRemoteInterpolation (deltaTime : R) (p : Player) : Player :=
  match targetPosition p with
  | None => p
  | Some target =>
      let p1 :=
        match currentInterpolatedPosition p with
        | Some _ => p
        | None => set_currentInterpolatedPosition (Some (mesh_position p)) p
        end in
      let p2 :=
        match targetRotation p1, currentInterpolatedRotation p1 with
        | Some _, None =>
            set_currentInterpolatedRotation
              (Some (match rotationQuaternion p1 with
                     | Some q => q
                     | None => Quaternion_Identity
                     end)) p1
        | _, _ => p1
        end in
      let p3 := set_remoteHeightAboveSurface (interpolateHeight deltaTime p2) p2 in
      let maxPositionDelta := POSITION_INTERPOLATION_SPEED * deltaTime in
      let current :=
        match currentInterpolatedPosition p3 with
        | Some c => c
        | None => mesh_position p3
        end in
      let toTarget := subtract target current in
      let distanceToTarget := length toTarget in
      let p4 :=
        if Rgt_dec distanceToTarget 0.0001 then
          let mv := moveVector toTarget (estimatedVelocity p3) maxPositionDelta in
          let moved := add current mv in
          let planetRadius := getBaseRadius in
          let targetDistance := planetRadius + remoteHeightAboveSurface p3 in
          let projected := scale (normalize moved) targetDistance in
          set_mesh_position projected
            (set_currentInterpolatedPosition (Some projected) p3)
        else p3 in
      match currentInterpolatedRotation p4, targetRotation p4 with
      | Some cur, Some tgt =>
          let rotationFactor := Rmin (ROTATION_INTERPOLATION_SPEED * deltaTime) 1 in
          let r := Slerp cur tgt rotationFactor in
          set_rotationQuaternion (Some r)
            (set_currentInterpolatedRotation (Some r) p4)
      | _, _ => p4
      end
  end.

(** [updatePhysics] at clock [now] over the meshes of the scene; the second
    component counts the [onFragCallback] calls of the projectile updates. *)
Definition updatePhysics (now : Z) (scene : list AbstractMesh)
           (deltaTime : R) (p : Player) : Player * nat :=
  if isRemotePlayer p then (updateRemoteInterpolation deltaTime p, 0%nat)
  else
    let p1 := updateFuel deltaTime p in
    let (h2, v3) := clampHeight (integrateVertical deltaTime p1) in
    let p2 := set_verticalVelocity v3 (set_heightAboveSurface h2 p1) in
    let planetRadius := getBaseRadius in
    let newDistance := planetRadius + heightAboveSurface p2 in
    let p3 := set_mesh_position
                (scale (normalize (mesh_position p2)) newDistance) p2 in
    let (ps, frags) := updateProjectiles now scene (uuid p3) (projectiles p3) in
    (set_projectiles ps p3, frags).

(** [update]: one tick of a player, local or remote. *)
Definition update (now : Z) (scene : list AbstractMesh)
           (deltaTime : R) (p : Player) : Player * nat :=
  let (p1, n1) :=
    if isRemotePlayer p then (updateRemoteInterpolation deltaTime p, 0%nat)
    else updatePhysics now scene deltaTime p in
  let (ps, n2) := updateProjectiles now scene (uuid p1) (projectiles p1) in
  (set_projectiles ps p1, (n1 + n2)%nat).

(** [shoot] at clock [now]; [fresh] identifies the new projectile mesh.  The
    second component is the [(position, direction)] handed to
    [multiplayerManager.addProjectile], when a manager is set. *)
Definition shoot (now : Z) (fresh : nat) (p : Player)
  : Player * option (Vector3 * Vector3) :=
  if isRemotePlayer p then (p, None)
  else
    let forward := mesh_forward (rotationQuaternion p) in
    let spawnPosition := add (mesh_position p) (scale forward 0.5) in
    let projectile :=
      mkProjectile (mkMesh fresh "projectile" None spawnPosition)
                   true now forward (uuid p) in
    let p1 := set_projectiles (projectiles p ++ [projectile]) p in
    (p1, if multiplayerManager p1 then Some (spawnPosition, forward) else None).

Definition setAsRemotePlayer (p : Player) : Player :=
  set_isRemotePlayer true p.

(** [setRemotePosition] at clock [now]. *)
Definition setRemotePosition (now : Z) (pos : Vector3) (p : Player) : Player :=
  if negb (isRemotePlayer p) then p
  else
    let timeSinceLastUpdate := (now - lastRemotePositionUpdate p)%Z in
    let p1 := set_lastRemotePositionUpdate now p in
    let planetRadius := getBaseRadius in
    let positionMagnitude := length pos in
    let p2 := set_targetHeight (positionMagnitude - planetRadius)
                (set_previousHeight (targetHeight p1) p1) in
    let p3 :=
      if Req_dec_T (previousHeight p2) (targetHeight p2) then p2
      else
        let heightDelta := targetHeight p2 - previousHeight p2 in
        let timeDelta := Rmax 0.016 (IZR timeSinceLastUpdate / 1000) in
        set_estimatedVerticalVelocity (heightDelta / timeDelta) p2 in
    let p4 :=
      match targetPosition p3, previousTargetPosition p3 with
      | Some tp, Some ptp =>
          let velocity := subtract tp ptp in
          if Rgt_dec (length velocity) 0.001 then
            match estimatedVelocity p3 with
            | None => set_estimatedVelocity (Some velocity) p3
            | Some ev =>
                set_estimatedVelocity
                  (Some (add (scale ev 0.7) (scale velocity 0.3))) p3
            end
          else p3
      | _, _ => p3
      end in
    let p5 := set_targetPosition (Some pos)
                (set_previousTargetPosition (targetPosition p4) p4) in
    match currentInterpolatedPosition p5 with
    | Some _ => p5
    | None =>
        set_remoteHeightAboveSurface (targetHeight p5)
          (set_currentInterpolatedPosition (Some (mesh_position p5)) p5)
    end.

(** [setRemoteRotation] *)
Definition setRemoteRotation (rotation : Quaternion) (p : Player) : Player :=
  if negb (isRemotePlayer p) then p
  else
    let newRotation := mkQuaternion (qx rotation) (qy rotation)
                                    (qz rotation) (qw rotation) in
    let p1 := set_targetRotation (Some newRotation) p in
    match currentInterpolatedRotation p1 with
    | Some _ => p1
    | None =>
        set_currentInterpolatedRotation
          (Some (match rotationQuaternion p1 with
                 | Some q => q
                 | None => newRotation
                 end)) p1
    end.

(** A remote player just created at the top of the [z] axis, and the same
    after its first sample, which puts the peer straight above at height 3. *)
Definition freshRemote : Player :=
  setAsRemotePlayer (Player_new "bob" (mkVector3 0 0 4.6) Quaternion_Identity).


(** [spawnRandomPosition] with the two draws [u] and [v] of [Math.random()]. *)
Definition spawnRandomPosition (u v : R) (p : Player) : Player :=
  let p1 := set_mesh_position (spawnPoint u v (heightAboveSurface p)) p in
  let toPlanetCenter := normalize (subtract Zero (mesh_position p1)) in
  let localUp := scale toPlanetCenter (-1) in
  let localForward :=
    normalize (subtract Forward (scale localUp (Dot Forward localUp))) in
  let localForward :=
    if Rlt_dec (length localForward) 0.1
    then normalize (subtract Right (scale localUp (Dot Right localUp)))
    else localForward in
  let localRight := normalize (Cross localUp localForward) in
  set_rotationQuaternion
    (Some (FromXYZAxes localRight localUp localForward)) p1.

(** [respawn] with the two draws of its [spawnRandomPosition]. *)
Definition respawn (u v : R) (p : Player) : Player :=
  let p1 := set_verticalVelocity 0 p in
  let p2 := set_heightAboveSurface 0.60 p1 in
  let p3 := spawnRandomPosition u v p2 in
  let p4 := set_hasFuel true (set_fuel (MAX_FUEL * 0.5) p3) in
  deactivateJetpack p4.

(** The constructor of [Player]: the field initialisers, with the mesh of
    [createPlayerMesh] at the origin, then [spawnRandomPosition]. *)
Definition Player_constructor (id : string) (u v : R) : Player :=
  spawnRandomPosition u v
    (mkPlayer Zero None 0.60 0 false false 80 true [] id false false
              None None None None None 0%Z None 0.60 0.60 0.60 0).

(** The jetpack switch that opens [Game.handlePlayerMovement] (index.ts). *)
Definition processJetpack (input : Input) (p : Player) : Player :=
  if key_space input then activateJetpack p else deactivateJetpack p.

(** The keyboard movement and the mouse rotation that close it. *)
Definition processControls (deltaTime : R) (input : Input) (p : Player) : Player :=
  let p3 := if key_a input then strafeLeft deltaTime p else p in
  let p4 := if key_d input then strafeRight deltaTime p3 else p3 in
  let p5 := if key_w input then moveForward deltaTime p4 else p4 in
  let p6 := if key_s input then moveBackward deltaTime p5 else p5 in
  if Req_dec_T (mouseMovement input) 0 then p6
  else rotate (mouseMovement input * mouseSensitivity) p6.

(** [Game.handlePlayerMovement] on the local player, at clock [now] over the
    meshes of the scene: the jetpack switch, [updatePhysics], the controls. *)
Definition handlePlayerMovement (now : Z) (scene : list AbstractMesh)
           (deltaTime : R) (input : Input) (p : Player) : Player * nat :=
  let p1 := processJetpack input p in
  let (p2, frags) := updatePhysics now scene deltaTime p1 in
  (processControls deltaTime input p2, frags).

(** The local leg of a pass of the render loop: [handlePlayerMovement],
    then [player.update].  The leg of the manager, which follows it, is
    [updateRemotePlayers] below; [renderPass] is the whole pass. *)
Definition renderFrame (now : Z) (scene : list AbstractMesh)
           (deltaTime : R) (input : Input) (p : Player) : Player * nat :=
  let (p1, n1) := handlePlayerMovement now scene deltaTime input p in
  let (p2, n2) := update now scene deltaTime p1 in
  (p2, (n1 + n2)%nat).

(** What happens to the local player between construction and now: local
    legs of the render loop, shots, and respawns (those that a hit in the
    leg of the manager brings included). *)
Inductive Event : Type :=
| Frame (now : Z) (scene : list AbstractMesh) (deltaTime : R) (input : Input)
| Shot (now : Z) (fresh : nat)
| Respawn (u v : R).

Definition applyEvent (p : Player) (e : Event) : Player :=
  match e with
  | Frame now scene deltaTime input => fst (renderFrame now scene deltaTime input p)
  | Shot now fresh => fst (shoot now fresh p)
  | Respawn u v => respawn u v p
  end.

Definition play (events : list Event) (p : Player) : Player :=
  fold_left applyEvent events p.

(** [MultiplayerManager.updateRemotePlayer] at clock [now]. *)
Definition updateRemotePlayer (now : Z) (remotePlayer : Player)
           (playerData : PlayerData) : Player :=
  let p1 := setRemotePosition now (pd_position playerData) remotePlayer in
  let p2 := setRemoteRotation (pd_rotation playerData) p1 in
  if isJetpackActive playerData then activateJetpack p2 else deactivateJetpack p2.

(** What [setupPlayerListeners] does with one record of the snapshot at
    clock [now].  [fresh uuid] is the player that [new Player(scene, planet)]
    yields when the record under [uuid] is first mirrored. *)
Definition onPlayerEntry (now : Z) (self : string) (fresh : string -> Player)
           (others : list (string * Player)) (entry : string * PlayerData)
  : list (string * Player) :=
  let uuid := fst entry in
  let playerData := snd entry in
  if String.eqb uuid self then others
  else if (now - lastUpdate playerData >? 10000)%Z then others
  else
    let others1 :=
      if Map_has uuid others then others
      else Map_set uuid (setAsRemotePlayer (fresh uuid)) others in
    match Map_get uuid others1 with
    | Some remotePlayer =>
        Map_set uuid (updateRemotePlayer now remotePlayer playerData) others1
    | None => others1
    end.

(** The callback of [setupPlayerListeners] on a snapshot of [players]: every
    record is looked at; then the mirrors of players whose record is gone are
    disposed of and dropped. *)
Definition onPlayersValue (now : Z) (self : string) (fresh : string -> Player)
           (players : list (string * PlayerData))
           (mirrored : list (string * Player)) : list (string * Player) :=
  match players with
  | [] => mirrored
  | _ =>
      let processed :=
        fold_left (onPlayerEntry now self fresh) players mirrored in
      filter (fun kv => Map_has (fst kv) players) processed
  end.

(** The hit callback that [setupProjectileListeners] gives the mirror of a
    projectile of [owner], called with [target] on the mirror under [id].
    When [target] is the mesh of the local player, which [localMesh]
    identifies: [createDeathEffect] where the player stands, under the key
    [effectId] that [push] generates; [onOtherPlayerHit]; and [respawn]
    with the draws [u] and [v], which moves the mesh. *)
Definition onMirroredHit (now : Z) (localMesh : nat) (effectId : string)
           (u v : R) (id owner : string) (target : AbstractMesh) (a : Arena)
  : Arena :=
  if Nat.eqb (mesh_id target) localMesh then
    let (db1, delay) :=
      createDeathEffect now effectId (mesh_position (ar_localPlayer a))
                        (ar_database a) in
    let p1 := respawn u v (ar_localPlayer a) in
    mkArena (moveMesh localMesh (mesh_position p1) (ar_scene a)) p1 db1
            (ar_hits a ++ [(id, target)]) (ar_reported a ++ [owner])
            (ar_timers a ++ [(effectId, delay)])
  else
    mkArena (ar_scene a) (ar_localPlayer a) (ar_database a)
            (ar_hits a ++ [(id, target)]) (ar_reported a) (ar_timers a).

(** [remove(ref(database, `projectiles/${id}`))] *)
Definition removeProjectile (id : string) (db : Database) : Database :=
  mkDatabase (db_players db)
             (filter (fun kv => negb (String.eqb (fst kv) id)) (db_projectiles db))
             (db_deathEffects db).

(** The body of the loop of [updateRemotePlayers] over the mirrored
    projectiles, on the mirror under [id]: it is updated over the meshes as
    they stand, its hit callback included; when the update returns [false]
    it is disposed of, and its record is removed from the store when the
    client is host.  The [i]-th hit on the local player takes the key
    [pushKey i] and the draws [draws i]. *)
Definition updateMirroredProjectile (now : Z) (localMesh : nat)
           (pushKey : nat -> string) (draws : nat -> R * R)
           (m : MultiplayerManager) (id : string) (projectile : Projectile)
           (a : Arena) : Projectile * Arena :=
  let '(q1, hit, keep) := Projectile_update now (ar_scene a) projectile in
  let i := List.length (ar_reported a) in
  let a1 :=
    match hit with
    | Some target =>
        onMirroredHit now localMesh (pushKey i) (fst (draws i)) (snd (draws i))
                      id (ownerUUID projectile) target a
    | None => a
    end in
  if keep then (q1, a1)
  else
    (Projectile_dispose q1,
     if isHost m then
       mkArena (ar_scene a1) (ar_localPlayer a1)
               (removeProjectile id (ar_database a1))
               (ar_hits a1) (ar_reported a1) (ar_timers a1)
     else a1).

(** The loop, in the order of the map. *)
Fixpoint updateMirroredProjectiles (now : Z) (localMesh : nat)
         (pushKey : nat -> string) (draws : nat -> R * R)
         (m : MultiplayerManager) (mirrored : list (string * Projectile))
         (a : Arena) : list (string * Projectile) * Arena :=
  match mirrored with
  | [] => ([], a)
  | (id, projectile) :: rest =>
      let (q2, a2) :=
        updateMirroredProjectile now localMesh pushKey draws m id projectile a in
      let (rest1, a3) :=
        updateMirroredProjectiles now localMesh pushKey draws m rest a2 in
      ((id, q2) :: rest1, a3)
  end.

(** [MultiplayerManager.updateRemotePlayers] at clock [now], over the meshes
    of the scene, the local player's among them: every mirrored player is
    updated (the frags its own projectiles report are not counted, the
    callback of a mirror being the empty one); then every mirrored
    projectile is. *)
Definition updateRemotePlayers (now : Z) (localMesh : nat)
           (pushKey : nat -> string) (draws : nat -> R * R)
           (scene : list AbstractMesh) (deltaTime : R)
           (m : MultiplayerManager) (mir : Mirrors)
           (localPlayer : Player) (db : Database) : Mirrors * Arena :=
  let players :=
    map (fun kv => (fst kv, fst (update now scene deltaTime (snd kv))))
        (otherPlayers mir) in
  let (projectiles, a) :=
    updateMirroredProjectiles now localMesh pushKey draws m
                              (otherProjectiles mir)
                              (mkArena scene localPlayer db [] [] []) in
  (mkMirrors players projectiles, a).

(** One pass of the render loop (index.ts) on the local player and the
    session: the local leg; then, when there is a manager,
    [updatePlayerData] and [updateRemotePlayers], over the scene with the
    mesh of the local player where the local leg has left it.
    [onOtherPlayerHit] increments [Game.frags], as the frag callback of the
    local leg does.  The camera and the rendering, which close the pass,
    only read the state. *)
Definition renderPass (t : Turn) (p : Player) : Completion PassOutcome :=
  let now := t_now t in
  let (p2, n) := renderFrame now (t_scene t) (t_deltaTime t) (t_input t) p in
  match t_session t with
  | None => Returns (mkPassOutcome p2 n [] None [] [])
  | Some se =>
      o <- updatePlayerData now p2 (se_manager se) (se_database se) ;;
      let scene1 := moveMesh (t_localMesh t) (mesh_position p2) (t_scene t) in
      let (mir1, a) :=
        updateRemotePlayers now (t_localMesh t) (t_pushKey t) (t_draws t)
                            scene1 (t_deltaTime t) (manager o) (se_mirrors se)
                            p2 (database o) in
      Returns (mkPassOutcome (ar_localPlayer a)
                             (n + List.length (ar_reported a))
                             (ar_reported a)
                             (Some (mkSession (manager o) mir1 (ar_database a)))
                             (errors o) (ar_timers a))
  end.

(** The local player after a pass; when an exception leaves the pass, the
    local leg has been run. *)
Definition applyPass (p : Player) (t : Turn) : Player :=
  match renderPass t p with
  | Returns o => po_player o
  | Throws _ =>
      fst (renderFrame (t_now t) (t_scene t) (t_deltaTime t) (t_input t) p)
  end.

Definition runPasses (turns : list Turn) (p : Player) : Player :=
  fold_left applyPass turns p.

(** What the controls leave alone: everything of a player but where it
    stands and how it is turned. *)
Definition keepsVitals (p q : Player) : Prop :=
  heightAboveSurface q = heightAboveSurface p
  /\ verticalVelocity q = verticalVelocity p
  /\ jetpackActive q = jetpackActive p
  /\ particlesStarted q = particlesStarted p
  /\ fuel q = fuel p
  /\ hasFuel q = hasFuel p
  /\ projectiles q = projectiles p
  /\ uuid q = uuid p
  /\ isRemotePlayer q = isRemotePlayer p.

(** The state in which [respawn] leaves a player: on the ground, at rest,
    the tank half full and thrust available, the jetpack off. *)
Definition respawned (p : Player) : Prop :=
  heightAboveSurface p = 0.60
  /\ verticalVelocity p = 0
  /\ fuel p = MAX_FUEL * 0.5
  /\ hasFuel p = true
  /\ jetpackActive p = false.

(** The state of a local player in play: on the sphere of its height, the
    height and the fuel within their ranges. *)
Definition inPlay (p : Player) : Prop :=
  isRemotePlayer p = false
  /\ mesh_position p <> Zero
  /\ onSurface p
  /\ MIN_HEIGHT <= heightAboveSurface p <= MAX_HEIGHT
  /\ 0 <= fuel p <= MAX_FUEL.

(** A frame whose time step is not negative and does not turn a step by a
    right angle. *)
Definition timed (e : Event) : Prop :=
  match e with
  | Frame _ _ deltaTime _ => 0 <= deltaTime /\ cos (movementSpeed * deltaTime) <> 0
  | Shot _ _ => True
  | Respawn _ _ => True
  end.

(** The life of the mirror that a client keeps of another player: samples
    from the store, handed to [updateRemotePlayer], and ticks of the render
    loop, which [updateRemotePlayers] hands to [update]. *)
Inductive MirrorEvent : Type :=
| Sample (now : Z) (playerData : PlayerData)
| Tick (now : Z) (scene : list AbstractMesh) (deltaTime : R).

Definition applyMirrorEvent (p : Player) (e : MirrorEvent) : Player :=
  match e with
  | Sample now playerData => updateRemotePlayer now p playerData
  | Tick now scene deltaTime => fst (update now scene deltaTime p)
  end.

Definition mirror (events : list MirrorEvent) (p : Player) : Player :=
  fold_left applyMirrorEvent events p.

(** A sample that a player in play can have published, and a tick short
    enough for its largest step to stay clear of the centre. *)
Definition plausible (e : MirrorEvent) : Prop :=
  match e with
  | Sample _ playerData =>
      getBaseRadius + MIN_HEIGHT <= length (pd_position playerData)
                                 <= getBaseRadius + MAX_HEIGHT
  | Tick _ _ deltaTime =>
      0 <= deltaTime
      /\ POSITION_INTERPOLATION_SPEED * deltaTime < getBaseRadius + MIN_HEIGHT
  end.

(** The state of a mirror: its body is where the interpolation stands, in
    the shell between the lowest and the highest orbit, and its interpolated
    height is within range. *)
Definition mirrored (p : Player) : Prop :=
  isRemotePlayer p = true
  /\ MIN_HEIGHT <= remoteHeightAboveSurface p <= MAX_HEIGHT
  /\ mesh_position p = interpolatedFrom p
  /\ getBaseRadius + MIN_HEIGHT <= length (mesh_position p)
                                <= getBaseRadius + MAX_HEIGHT.

(** The children of a node of the store come in key order, each key once. *)
Definition keyOrdered {A : Type} (children : list (string * A)) : Prop :=
  StronglySorted (fun a b => String.ltb a b = true) (map fst children).

(** The mirrors of a client are all remote players. *)
Definition allRemote (mirrored : list (string * Player)) : Prop :=
  Forall (fun kv => isRemotePlayer (snd kv) = true) mirrored.

(** The three axes that an orientation is built from: unit vectors, each
    perpendicular to the others, the first the cross product of the other
    two. *)
Definition orthonormal (right up forward : Vector3) : Prop :=
  length right = 1 /\ length up = 1 /\ length forward = 1
  /\ Dot right up = 0 /\ Dot up forward = 0 /\ Dot right forward = 0
  /\ right = Cross up forward.

(** No mirrored projectile hits the local player during the pass. *)
Definition unscathed (t : Turn) (p : Player) : Prop :=
  match renderPass t p with
  | Returns o => po_reported o = []
  | Throws _ => True
  end.

(** A run of passes with the jetpack key held, the local player hit in none
    of them. *)
Fixpoint heldPasses (turns : list Turn) (p : Player) : Prop :=
  match turns with
  | [] => True
  | t :: rest =>
      0 <= t_deltaTime t /\ key_space (t_input t) = true /\ unscathed t p
      /\ heldPasses rest (applyPass p t)
  end.

(** ** Facts about lengths *)

Lemma lengthSquared_nonneg (a : Vector3) : 0 <= lengthSquared a.
Proof. unfold lengthSquared. nra. Qed.

Lemma length_nonneg (a : Vector3) : 0 <= length a.
Proof. apply sqrt_pos. Qed.

Lemma length_sqr (a : Vector3) : length a * length a = lengthSquared a.
Proof. apply sqrt_sqrt, lengthSquared_nonneg. Qed.

Lemma length_zero_iff (a : Vector3) : length a = 0 <-> a = Zero.
Proof.
  split.
  - intros H. apply sqrt_eq_0 in H; [| apply lengthSquared_nonneg].
    unfold lengthSquared in H. destruct a as [x y z]; simpl in *.
    assert (x = 0) by nra. assert (y = 0) by nra. assert (z = 0) by nra.
    subst. reflexivity.
  - intros ->. unfold length, lengthSquared, Zero. simpl.
    replace (0 * 0 + 0 * 0 + 0 * 0) with 0 by ring. apply sqrt_0.
Qed.

Lemma length_scale (a : Vector3) (k : R) : length (scale a k) = length a * Rabs k.
Proof.
  unfold length.
  replace (lengthSquared (scale a k)) with (lengthSquared a * (k * k))
    by (unfold lengthSquared, scale; simpl; ring).
  rewrite sqrt_mult; [| apply lengthSquared_nonneg | nra].
  f_equal. replace (k * k) with (k ^ 2) by ring.
  rewrite <- Rsqr_pow2. apply sqrt_Rsqr_abs.
Qed.

Lemma length_normalize (a : Vector3) : a <> Zero -> length (normalize a) = 1.
Proof.
  intros Ha. unfold normalize.
  destruct (Req_dec_T (length a) 0) as [E | NE].
  - apply length_zero_iff in E. contradiction.
  - rewrite length_scale.
    pose proof (length_nonneg a) as Hp.
    rewrite Rabs_pos_eq.
    + field. exact NE.
    + apply Rlt_le. apply Rdiv_lt_0_compat; lra.
Qed.

Lemma normalize_Zero : normalize Zero = Zero.
Proof.
  unfold normalize. destruct (Req_dec_T (length Zero) 0) as [E | NE].
  - reflexivity.
  - exfalso. apply NE. apply length_zero_iff. reflexivity.
Qed.

(** Re-projection: a non-zero vector normalised and scaled by a non-negative
    radius has exactly that radius as its length. *)
Lemma length_reproject (a : Vector3) (r : R) :
  a <> Zero -> 0 <= r -> length (scale (normalize a) r) = r.
Proof.
  intros Ha Hr. rewrite length_scale, length_normalize by exact Ha.
  rewrite Rabs_pos_eq by exact Hr. ring.
Qed.

Lemma Cross_Zero_r (a : Vector3) : Cross a Zero = Zero.
Proof. unfold Cross, Zero. simpl. f_equal; ring. Qed.

Lemma Cross_scale_r (a b : Vector3) (k : R) :
  Cross a (scale b k) = scale (Cross a b) k.
Proof. unfold Cross, scale. simpl. f_equal; ring. Qed.

Lemma scale_eq_Zero (a : Vector3) (k : R) :
  scale a k = Zero -> k <> 0 -> a = Zero.
Proof.
  destruct a as [x y z]. unfold scale, Zero. simpl. intros H Hk.
  injection H as Hx Hy Hz.
  apply Rmult_integral in Hx, Hy, Hz.
  f_equal; tauto.
Qed.

Lemma subtract_Zero_l (a : Vector3) : subtract Zero a = scale a (-1).
Proof. unfold subtract, scale, Zero. simpl. f_equal; ring. Qed.

Lemma normalize_neq_Zero (a : Vector3) : a <> Zero -> normalize a <> Zero.
Proof.
  intros Ha E. apply length_normalize in Ha. rewrite E in Ha.
  assert (length Zero = 0) by (apply length_zero_iff; reflexivity). lra.
Qed.

Lemma lengthSquared_normalize (a : Vector3) :
  a <> Zero -> lengthSquared (normalize a) = 1.
Proof.
  intros Ha. rewrite <- length_sqr, length_normalize by exact Ha. ring.
Qed.

(** The matrix of [RotationAxis] about a non-zero axis is a rotation: it
    preserves squared length. *)
Lemma TransformCoordinates_RotationAxis_lengthSquared
      (axis p : Vector3) (angle : R) :
  axis <> Zero ->
  lengthSquared (TransformCoordinates p (RotationAxis axis angle))
  = lengthSquared p.
Proof.
  intros Ha.
  pose proof (lengthSquared_normalize axis Ha) as Hn.
  pose proof (sin2_cos2 (- angle)) as Hsc. unfold Rsqr in Hsc.
  unfold TransformCoordinates, RotationAxis, lengthSquared in *. simpl.
  destruct (normalize axis) as [ax ay az]. destruct p as [px py pz].
  simpl in *.
  replace (1 / (px * 0 + py * 0 + pz * 0 + 1)) with 1 by (field; lra).
  set (s := sin (- angle)) in *. set (c := cos (- angle)) in *.
  nsatz.
Qed.

Lemma TransformCoordinates_RotationAxis_neq_Zero
      (axis p : Vector3) (angle : R) :
  axis <> Zero -> p <> Zero ->
  TransformCoordinates p (RotationAxis axis angle) <> Zero.
Proof.
  intros Ha Hp E.
  pose proof (TransformCoordinates_RotationAxis_lengthSquared axis p angle Ha) as H.
  rewrite E in H.
  apply Hp. apply length_zero_iff. unfold length. rewrite <- H.
  unfold lengthSquared, Zero. simpl.
  replace (0 * 0 + 0 * 0 + 0 * 0) with 0 by ring. apply sqrt_0.
Qed.

(** About the zero axis the same formula gives [cos angle] times the
    identity: the position is scaled, not rotated. *)
Lemma TransformCoordinates_RotationAxis_Zero (p : Vector3) (angle : R) :
  TransformCoordinates p (RotationAxis Zero angle) = scale p (cos angle).
Proof.
  unfold TransformCoordinates, RotationAxis. rewrite normalize_Zero.
  unfold scale, Zero. simpl. rewrite cos_neg.
  destruct p as [px py pz]. simpl. f_equal; field; lra.
Qed.

(** ** Fuel and height *)

(** C2. Fuel invariant with hysteresis: a tick of [updateFuel] with
    [0 <= dt] keeps the fuel within [0, MAX_FUEL], and [hasFuel] goes from
    false to true only in a tick that leaves at least 10% of [MAX_FUEL]. *)
Theorem updateFuel_invariant (dt : R) (p : Player) :
  0 <= dt ->
  0 <= fuel p <= MAX_FUEL ->
  0 <= fuel (updateFuel dt p) <= MAX_FUEL
  /\ (hasFuel p = false -> hasFuel (updateFuel dt p) = true ->
      MAX_FUEL * 0.1 <= fuel (updateFuel dt p)).
Proof.
  intros Hdt [Hlo Hhi].
  unfold updateFuel, MAX_FUEL, FUEL_BURN_RATE, FUEL_REFILL_RATE in *.
  destruct (jetpackActive p) eqn:Hjet.
  - destruct (Rle_dec (fuel p - 16.67 * dt) 0) as [Hempty | Hleft]; simpl.
    + split; [lra | intros _ Habs; discriminate].
    + split; [nra | intros Hno Hyes; congruence].
  - simpl.
    destruct (Rgt_dec (fuel p + 12.67 * dt) 100) as [Hfull | Hpart];
      destruct (hasFuel p) eqn:Hhas; simpl.
    + split; [lra | intros Hno; discriminate].
    + destruct (Rge_dec 100 (100 * 0.1)) as [_ | Hbad]; simpl; [| lra].
      split; lra.
    + split; [nra | intros Hno; discriminate].
    + destruct (Rge_dec (fuel p + 12.67 * dt) (100 * 0.1)) as [Hten | Hlow];
        simpl; rewrite ?Hhas.
      * split; [nra | intros _ _; lra].
      * split; [nra | intros _ Habs; discriminate].
Qed.

Lemma clampHeight_range (hv : R * R) :
  MIN_HEIGHT <= fst (clampHeight hv) <= MAX_HEIGHT.
Proof.
  destruct hv as [h v]. unfold clampHeight, MIN_HEIGHT, MAX_HEIGHT.
  destruct (Rlt_dec h 0.60); [simpl; lra |].
  destruct (Rgt_dec h 3); simpl; lra.
Qed.

Lemma clampHeight_fixed (h v : R) :
  MIN_HEIGHT <= h <= MAX_HEIGHT -> clampHeight (h, v) = (h, v).
Proof.
  unfold clampHeight, MIN_HEIGHT, MAX_HEIGHT. intros [Hlo Hhi].
  destruct (Rlt_dec h 0.60); [lra |].
  destruct (Rgt_dec h 3); [lra | reflexivity].
Qed.

Lemma clampHeight_idempotent (hv : R * R) :
  clampHeight (clampHeight hv) = clampHeight hv.
Proof.
  pose proof (clampHeight_range hv) as Hr.
  destruct (clampHeight hv) as [h v]. simpl in Hr.
  apply clampHeight_fixed. exact Hr.
Qed.

(** The height and vertical velocity that a local tick leaves are the clamp
    of the integrated ones. *)
Lemma updatePhysics_vertical (now : Z) (scene : list AbstractMesh)
      (dt : R) (p : Player) :
  isRemotePlayer p = false ->
  let p' := fst (updatePhysics now scene dt p) in
  (heightAboveSurface p', verticalVelocity p')
  = clampHeight (integrateVertical dt (updateFuel dt p)).
Proof.
  intros Hlocal. cbv zeta. unfold updatePhysics. rewrite Hlocal.
  set (c := clampHeight _). destruct c as [h2 v3].
  set (u := updateProjectiles _ _ _ _). destruct u as [ps frags].
  reflexivity.
Qed.

Lemma updatePhysics_height_range (now : Z) (scene : list AbstractMesh)
      (dt : R) (p : Player) :
  isRemotePlayer p = false ->
  MIN_HEIGHT <= heightAboveSurface (fst (updatePhysics now scene dt p))
             <= MAX_HEIGHT.
Proof.
  intros Hlocal.
  pose proof (updatePhysics_vertical now scene dt p Hlocal) as Hv.
  pose proof (clampHeight_range (integrateVertical dt (updateFuel dt p))) as Hr.
  cbv zeta in Hv. rewrite <- Hv in Hr. exact Hr.
Qed.

(** C3. Height clamping: after a local physics tick the height lies within
    [MIN_HEIGHT, MAX_HEIGHT]; an integrated height below (above) the range is
    replaced by the bound with the vertical velocity set to zero, one within
    the range is kept with its velocity; clamping twice is clamping once. *)
Theorem updatePhysics_height_clamped (now : Z) (scene : list AbstractMesh)
        (dt : R) (p : Player) :
  isRemotePlayer p = false ->
  let p' := fst (updatePhysics now scene dt p) in
  let hv := integrateVertical dt (updateFuel dt p) in
  MIN_HEIGHT <= heightAboveSurface p' <= MAX_HEIGHT
  /\ (fst hv < MIN_HEIGHT ->
      heightAboveSurface p' = MIN_HEIGHT /\ verticalVelocity p' = 0)
  /\ (fst hv > MAX_HEIGHT ->
      heightAboveSurface p' = MAX_HEIGHT /\ verticalVelocity p' = 0)
  /\ (MIN_HEIGHT <= fst hv <= MAX_HEIGHT ->
      heightAboveSurface p' = fst hv /\ verticalVelocity p' = snd hv)
  /\ clampHeight (heightAboveSurface p', verticalVelocity p')
     = (heightAboveSurface p', verticalVelocity p').
Proof.
  intros Hlocal p' hv.
  assert (Hv : (heightAboveSurface p', verticalVelocity p') = clampHeight hv)
    by (apply updatePhysics_vertical; exact Hlocal).
  clearbody p' hv.
  pose proof (clampHeight_range hv) as Hr.
  pose proof (clampHeight_idempotent hv) as Hi.
  rewrite <- Hv in Hr, Hi. simpl in Hr.
  destruct hv as [h v]. simpl.
  unfold clampHeight, MIN_HEIGHT, MAX_HEIGHT in Hv |- *.
  split; [exact Hr |].
  destruct (Rlt_dec h 0.60) as [Hlow | Hlow];
    [| destruct (Rgt_dec h 3) as [Hhigh | Hhigh]];
    injection Hv as Hh Hvv;
    (split; [intros; split; lra |]);
    (split; [intros; split; lra |]);
    (split; [intros; split; lra |]);
    exact Hi.
Qed.

(** ** Remote players *)

(** C10. On a player marked remote by [setAsRemotePlayer], each local
    control ([strafeLeft], [strafeRight], [moveForward], [moveBackward],
    [rotate], [shoot]) returns the state it was given, for every argument:
    position, orientation and the projectile list are those of before, and
    [shoot] hands nothing to the multiplayer manager. *)
Theorem remote_controls_are_noops (now : Z) (fresh : nat) (dt : R) (p : Player) :
  let r := setAsRemotePlayer p in
  strafeLeft dt r = r
  /\ strafeRight dt r = r
  /\ moveForward dt r = r
  /\ moveBackward dt r = r
  /\ rotate dt r = r
  /\ shoot now fresh r = (r, None).
Proof.
  unfold strafeLeft, strafeRight, moveForward, moveBackward, rotate, shoot.
  simpl. repeat split.
Qed.

(** ** Projectiles *)

Lemma collides_not_owned (p : Projectile) (mesh : AbstractMesh) :
  collides p mesh = true -> ownedBy (ownerUUID p) mesh = false.
Proof.
  unfold collides.
  destruct (negb (String.eqb (name mesh) "player")
            || Nat.eqb (mesh_id mesh) (mesh_id (proj_mesh p))); [discriminate |].
  destruct (ownedBy (ownerUUID p) mesh); [discriminate | reflexivity].
Qed.

Lemma ownedBy_false (owner : string) (mesh : AbstractMesh) :
  ownedBy owner mesh = false ->
  forall md u, metadata mesh = Some md -> playerUUID md = Some u -> u <> owner.
Proof.
  unfold ownedBy. intros H md u Hmd Hu. rewrite Hmd, Hu in H.
  apply String.eqb_neq. exact H.
Qed.

(** The mesh handed to [onHit] is the first mesh of the scene that collides
    with the moved projectile. *)
Lemma Projectile_update_hit (now : Z) (scene : list AbstractMesh)
      (p : Projectile) (target : AbstractMesh) :
  snd (fst (Projectile_update now scene p)) = Some target ->
  isActive p = true
  /\ (now - spawnTime p >? lifespan)%Z = false
  /\ exists rest, filter (collides (Projectile_move p)) scene = target :: rest.
Proof.
  unfold Projectile_update.
  destruct (isActive p); simpl; [| discriminate].
  destruct (now - spawnTime p >? lifespan)%Z; simpl; [discriminate |].
  destruct (filter (collides (Projectile_move p)) scene) as [| t rest] eqn:Hf;
    simpl; [discriminate |].
  intros H. injection H as ->. repeat split. exists rest. reflexivity.
Qed.

(** C4. Ownership exclusion: whenever [Projectile.update] calls [onHit], at
    any clock and for any list of scene meshes, the target's
    [metadata.playerUUID], if it has one, differs from the projectile's
    [ownerUUID]. *)
Theorem projectile_never_hits_owner (now : Z) (scene : list AbstractMesh)
        (p : Projectile) (target : AbstractMesh) :
  snd (fst (Projectile_update now scene p)) = Some target ->
  forall md u,
    metadata target = Some md -> playerUUID md = Some u -> u <> ownerUUID p.
Proof.
  intros Hhit.
  apply Projectile_update_hit in Hhit as (_ & _ & rest & Hf).
  assert (Hin : In target (filter (collides (Projectile_move p)) scene))
    by (rewrite Hf; left; reflexivity).
  apply filter_In in Hin as [_ Hc].
  apply collides_not_owned in Hc.
  exact (ownedBy_false _ _ Hc).
Qed.

(** ** Surface lock *)

Lemma normalize_as_scale (a : Vector3) :
  a <> Zero -> exists k, k <> 0 /\ normalize a = scale a k.
Proof.
  intros Ha. unfold normalize.
  destruct (Req_dec_T (length a) 0) as [E | NE].
  - apply length_zero_iff in E. contradiction.
  - exists (1 / length a). split; [| reflexivity].
    unfold Rdiv. rewrite Rmult_1_l. apply Rinv_neq_0_compat. exact NE.
Qed.

Lemma scale_neq_Zero (a : Vector3) (k : R) :
  a <> Zero -> k <> 0 -> scale a k <> Zero.
Proof. intros Ha Hk E. apply Ha. exact (scale_eq_Zero a k E Hk). Qed.

Lemma Cross_Zero_neq (a b : Vector3) : Cross a b <> Zero -> b <> Zero.
Proof. intros H E. apply H. rewrite E. apply Cross_Zero_r. Qed.

Lemma Cross_scale_l (a b : Vector3) (k : R) :
  Cross (scale a k) b = scale (Cross a b) k.
Proof. unfold Cross, scale. simpl. f_equal; ring. Qed.

(** The orbit axis of a lateral step is a unit vector, so not zero. *)
Lemma orbitDirection_neq_Zero (crossAxis pos : Vector3) :
  Cross crossAxis pos <> Zero ->
  normalize (Cross crossAxis (normalize (subtract Zero pos))) <> Zero.
Proof.
  intros Hc. pose proof (Cross_Zero_neq _ _ Hc) as Hp.
  apply normalize_neq_Zero.
  rewrite subtract_Zero_l.
  destruct (normalize_as_scale (scale pos (-1))) as (k & Hk & ->).
  - apply scale_neq_Zero; [exact Hp | lra].
  - rewrite !Cross_scale_r. apply scale_neq_Zero; [| exact Hk].
    apply scale_neq_Zero; [exact Hc | lra].
Qed.

Lemma moveAlongOrbit_position (crossAxis : Vector3) (dt : R) (p : Player) :
  mesh_position (moveAlongOrbit crossAxis dt p)
  = scale
      (normalize
         (TransformCoordinates (mesh_position p)
            (RotationAxis
               (normalize (Cross crossAxis
                                 (normalize (subtract Zero (mesh_position p)))))
               (movementSpeed * dt))))
      (getBaseRadius + heightAboveSurface p).
Proof. reflexivity. Qed.

Lemma moveAlongOrbit_height (crossAxis : Vector3) (dt : R) (p : Player) :
  heightAboveSurface (moveAlongOrbit crossAxis dt p) = heightAboveSurface p.
Proof. reflexivity. Qed.

(** A lateral step ends on the sphere of the current height. *)
Lemma moveAlongOrbit_onSurface (crossAxis : Vector3) (dt : R) (p : Player) :
  Cross crossAxis (mesh_position p) <> Zero ->
  0 <= getBaseRadius + heightAboveSurface p ->
  onSurface (moveAlongOrbit crossAxis dt p).
Proof.
  intros Hc Hr. unfold onSurface.
  rewrite moveAlongOrbit_position, moveAlongOrbit_height.
  apply length_reproject; [| exact Hr].
  apply TransformCoordinates_RotationAxis_neq_Zero.
  - apply orbitDirection_neq_Zero. exact Hc.
  - exact (Cross_Zero_neq _ _ Hc).
Qed.

(** When the travel axis is radial the orbit axis is zero and the step only
    scales the position by [cos angle]; it still ends on the sphere unless
    that cosine vanishes. *)
Lemma moveAlongOrbit_radial_onSurface (crossAxis : Vector3) (dt : R) (p : Player) :
  mesh_position p <> Zero ->
  Cross crossAxis (normalize (subtract Zero (mesh_position p))) = Zero ->
  cos (movementSpeed * dt) <> 0 ->
  0 <= getBaseRadius + heightAboveSurface p ->
  onSurface (moveAlongOrbit crossAxis dt p).
Proof.
  intros Hp Hc Hcos Hr. unfold onSurface.
  rewrite moveAlongOrbit_position, moveAlongOrbit_height.
  apply length_reproject; [| exact Hr].
  rewrite Hc, normalize_Zero, TransformCoordinates_RotationAxis_Zero.
  apply scale_neq_Zero; assumption.
Qed.

Lemma updatePhysics_position (now : Z) (scene : list AbstractMesh)
      (dt : R) (p : Player) :
  isRemotePlayer p = false ->
  let p' := fst (updatePhysics now scene dt p) in
  mesh_position p'
  = scale (normalize (mesh_position p)) (getBaseRadius + heightAboveSurface p').
Proof.
  intros Hlocal. cbv zeta. unfold updatePhysics. rewrite Hlocal.
  set (c := clampHeight _). destruct c as [h2 v3].
  set (u := updateProjectiles _ _ _ _). destruct u as [ps frags].
  simpl. f_equal. f_equal.
  unfold updateFuel.
  destruct (jetpackActive p).
  - destruct (Rle_dec _ _); reflexivity.
  - destruct (Rgt_dec _ _); simpl; destruct (hasFuel p); simpl;
      try reflexivity; destruct (Rge_dec _ _); reflexivity.
Qed.

(** A player spawned at distance [planetRadius + 0.60] is on the surface, and
    a player on the surface of a positive radius is not at the centre: the
    conditions of the lock hold after spawn and after every locked step. *)
Lemma Player_new_onSurface (id : string) (spawn : Vector3) (rot : Quaternion) :
  length spawn = getBaseRadius + 0.60 -> onSurface (Player_new id spawn rot).
Proof. intros H. exact H. Qed.

Lemma onSurface_neq_Zero (p : Player) :
  onSurface p -> 0 < getBaseRadius + heightAboveSurface p ->
  mesh_position p <> Zero.
Proof.
  unfold onSurface. intros Hon Hr E. apply length_zero_iff in E. lra.
Qed.

Lemma Cross_toPlanetCenter_Zero (crossAxis pos : Vector3) :
  Cross crossAxis pos = Zero ->
  Cross crossAxis (normalize (subtract Zero pos)) = Zero.
Proof.
  intros Hc. rewrite subtract_Zero_l.
  assert (Hz : forall k, scale Zero k = Zero)
    by (intros k; unfold scale, Zero; simpl; f_equal; ring).
  destruct (Req_dec_T (length (scale pos (-1))) 0) as [E | NE].
  - apply length_zero_iff in E. rewrite E, normalize_Zero. apply Cross_Zero_r.
  - destruct (normalize_as_scale (scale pos (-1))) as (k & _ & ->).
    + intros E. apply NE. apply length_zero_iff. exact E.
    + rewrite !Cross_scale_r, Hc, !Hz. reflexivity.
Qed.

(** A step ends on the sphere of the current height when the travel axis is
    not radial, and also when it is, unless the cosine of the angle is zero. *)
Lemma moveAlongOrbit_locked (crossAxis : Vector3) (dt : R) (p : Player) :
  mesh_position p <> Zero ->
  0 <= getBaseRadius + heightAboveSurface p ->
  Cross crossAxis (mesh_position p) <> Zero \/ cos (movementSpeed * dt) <> 0 ->
  onSurface (moveAlongOrbit crossAxis dt p).
Proof.
  intros Hp Hr Hstep.
  destruct (Req_dec_T (length (Cross crossAxis (mesh_position p))) 0) as [E | NE].
  - apply length_zero_iff in E.
    destruct Hstep as [Hc | Hcos]; [contradiction |].
    apply moveAlongOrbit_radial_onSurface; try assumption.
    apply Cross_toPlanetCenter_Zero. exact E.
  - apply moveAlongOrbit_onSurface; [| exact Hr].
    intros E. apply NE. apply length_zero_iff. exact E.
Qed.

(** C1. Surface lock: for a locally controlled player standing anywhere but
    at the planet's centre, every lateral step ([moveAlongOrbit], as
    [moveForward], [moveBackward], [strafeLeft] and [strafeRight] take it)
    and every physics tick ([updatePhysics]) leaves the position at distance
    [planetRadius + heightAboveSurface] from the centre.  For a step this
    holds for every [dt] when the travel axis is not radial, and for a
    radial axis whenever the cosine of the angle is not zero. *)
Theorem surface_lock (now : Z) (scene : list AbstractMesh) (dt : R) (p : Player) :
  isRemotePlayer p = false ->
  mesh_position p <> Zero ->
  0 <= getBaseRadius + heightAboveSurface p ->
  (forall crossAxis,
      Cross crossAxis (mesh_position p) <> Zero
      \/ cos (movementSpeed * dt) <> 0 ->
      onSurface (moveAlongOrbit crossAxis dt p))
  /\ (Cross (mesh_forward (rotationQuaternion p)) (mesh_position p) <> Zero
      \/ cos (movementSpeed * dt) <> 0 ->
      onSurface (moveForward dt p) /\ onSurface (moveBackward dt p))
  /\ (Cross (mesh_right (rotationQuaternion p)) (mesh_position p) <> Zero
      \/ cos (movementSpeed * dt) <> 0 ->
      onSurface (strafeRight dt p) /\ onSurface (strafeLeft dt p))
  /\ onSurface (fst (updatePhysics now scene dt p)).
Proof.
  intros Hlocal Hp Hr.
  assert (Hneg : forall a,
             Cross a (mesh_position p) <> Zero
             \/ cos (movementSpeed * dt) <> 0 ->
             Cross (scale a (-1)) (mesh_position p) <> Zero
             \/ cos (movementSpeed * dt) <> 0).
  { intros a [Ha | Hcos]; [left | right; exact Hcos].
    rewrite Cross_scale_l. apply scale_neq_Zero; [exact Ha | lra]. }
  unfold moveForward, moveBackward, strafeRight, strafeLeft. rewrite Hlocal.
  split; [| split; [| split]].
  - intros crossAxis Hc. apply moveAlongOrbit_locked; assumption.
  - intros Hc. split; apply moveAlongOrbit_locked; auto.
  - intros Hc. split; apply moveAlongOrbit_locked; auto.
  - unfold onSurface.
    rewrite (updatePhysics_position now scene dt p Hlocal).
    apply length_reproject; [exact Hp |].
    pose proof (updatePhysics_height_range now scene dt p Hlocal) as Hh.
    unfold getBaseRadius, MIN_HEIGHT in *. lra.
Qed.

(** ** Replication *)

(** C9. Missing orientation: when the local mesh has no rotation quaternion,
    [updatePlayerData] returns (no exception leaves it) and the store is as
    before; a call that passes the publish interval logs the error, one
    inside the interval returns at once without a write. *)
Theorem updatePlayerData_missing_orientation
        (now : Z) (localPlayer : Player) (m : MultiplayerManager) (db : Database) :
  rotationQuaternion localPlayer = None ->
  exists out,
    updatePlayerData now localPlayer m db = Returns out
    /\ database out = db
    /\ ((now - lastUpdateTime m >= updateInterval)%Z ->
        errors out = ["Player mesh missing rotation quaternion!"%string])
    /\ ((now - lastUpdateTime m < updateInterval)%Z ->
        out = mkOutcome m db []).
Proof.
  intros Hnone. unfold updatePlayerData. rewrite Hnone.
  destruct (now - lastUpdateTime m <? updateInterval)%Z eqn:Hrate.
  - apply Z.ltb_lt in Hrate. eexists. split; [reflexivity |]. simpl.
    repeat split; intros; try reflexivity. lia.
  - apply Z.ltb_ge in Hrate. eexists. split; [reflexivity |]. simpl.
    repeat split; intros; try reflexivity. lia.
Qed.

(** With a quaternion present the same call, once past the interval, writes
    the record of the local player. *)
Lemma updatePlayerData_publishes
      (now : Z) (localPlayer : Player) (m : MultiplayerManager) (db : Database)
      (q : Quaternion) :
  rotationQuaternion localPlayer = Some q ->
  (now - lastUpdateTime m >= updateInterval)%Z ->
  exists out,
    updatePlayerData now localPlayer m db = Returns out
    /\ db_players (database out)
       = db_set (mm_playerUUID m)
                (mkPlayerData (mesh_position localPlayer) q
                              (jetpackActive localPlayer) now)
                (db_players db).
Proof.
  intros Hq Hdue. unfold updatePlayerData. rewrite Hq.
  destruct (now - lastUpdateTime m <? updateInterval)%Z eqn:Hrate.
  - apply Z.ltb_lt in Hrate. lia.
  - simpl. eexists. split; [reflexivity |]. simpl. destruct q; reflexivity.
Qed.

Lemma becomesHost_spec (self : string) (players : list (string * PlayerData)) :
  becomesHost self players = true
  <-> players = []
      \/ List.length players = 1%nat
      \/ exists d rest, players = (self, d) :: rest.
Proof.
  unfold becomesHost. destruct players as [| [k d] rest].
  - split; [intros _; left; reflexivity | reflexivity].
  - cbn [map fst List.length]. rewrite length_map.
    rewrite orb_true_iff, Nat.eqb_eq, String.eqb_eq.
    split.
    + intros [Hone | Hfirst].
      * right. left. exact Hone.
      * right. right. subst k. exists d, rest. reflexivity.
    + intros [Hnil | [Hone | (d' & rest' & Heq)]].
      * discriminate.
      * left. exact Hone.
      * right. injection Heq as -> _ _. reflexivity.
Qed.

Lemma cleanupStaleData_isHost (now : Z) (m : MultiplayerManager) (db : Database) :
  isHost (fst (cleanupStaleData now m db))
  = isHost m || becomesHost (mm_playerUUID m) (db_players db).
Proof.
  unfold cleanupStaleData.
  destruct (isHost m) eqn:Hhost; cbn [negb orb].
  - rewrite Hhost. cbn [negb fst]. exact Hhost.
  - destruct (becomesHost (mm_playerUUID m) (db_players db)); cbn [isHost negb fst].
    + reflexivity.
    + rewrite Hhost. cbn [negb fst]. exact Hhost.
Qed.

Lemma cleanupStaleData_database (now : Z) (m : MultiplayerManager) (db : Database) :
  snd (cleanupStaleData now m db)
  = if isHost (fst (cleanupStaleData now m db)) then sweep now db else db.
Proof.
  rewrite cleanupStaleData_isHost. unfold cleanupStaleData.
  destruct (isHost m) eqn:Hhost; cbn [negb orb].
  - rewrite Hhost. reflexivity.
  - destruct (becomesHost (mm_playerUUID m) (db_players db)); cbn [isHost negb].
    + reflexivity.
    + rewrite Hhost. reflexivity.
Qed.

(** C7, as the code has it. A client that is not yet host takes the role at a
    sweep exactly when the store holds no player, exactly one player, or its
    own identity first; for a client whose own record is in the store that
    is: exactly when it is the sole participant or first among them.  A
    client that is host stays host at every later sweep, whatever the
    membership; and a sweep removes records only when the client is host
    after this check. *)
Theorem cleanup_leadership (now : Z) (m : MultiplayerManager) (db : Database) :
  (isHost m = true -> isHost (fst (cleanupStaleData now m db)) = true)
  /\ (isHost m = false ->
      (isHost (fst (cleanupStaleData now m db)) = true
       <-> db_players db = []
           \/ List.length (db_players db) = 1%nat
           \/ exists d rest, db_players db = (mm_playerUUID m, d) :: rest))
  /\ (isHost m = false ->
      In (mm_playerUUID m) (map fst (db_players db)) ->
      (isHost (fst (cleanupStaleData now m db)) = true
       <-> map fst (db_players db) = [mm_playerUUID m]
           \/ hd_error (map fst (db_players db)) = Some (mm_playerUUID m)))
  /\ (isHost (fst (cleanupStaleData now m db)) = false ->
      snd (cleanupStaleData now m db) = db)
  /\ (isHost (fst (cleanupStaleData now m db)) = true ->
      snd (cleanupStaleData now m db) = sweep now db).
Proof.
  rewrite cleanupStaleData_database, cleanupStaleData_isHost.
  split; [| split; [| split; [| split]]].
  - intros ->. reflexivity.
  - intros ->. rewrite <- becomesHost_spec. reflexivity.
  - intros -> Hin. cbn [orb]. rewrite becomesHost_spec.
    destruct (db_players db) as [| [k d] rest]; [contradiction |].
    simpl in Hin |- *. split.
    + intros [Hnil | [Hone | (d' & rest' & Heq)]].
      * discriminate.
      * destruct rest; [| discriminate]. destruct Hin as [-> | []].
        left. reflexivity.
      * injection Heq as -> _ _. right. reflexivity.
    + intros [Hsole | Hfirst].
      * injection Hsole as -> _. right. right. exists d, rest. reflexivity.
      * injection Hfirst as ->. right. right. exists d, rest. reflexivity.
  - intros ->. reflexivity.
  - intros ->. reflexivity.
Qed.

(** C8, as the code has it. The record of a projectile is removed by a timer
    of 2,000 ms and is passed over by the listener once older than 2,000 ms,
    while the projectile itself expires in simulation once older than
    [lifespan], which is 800 ms: shorter than the record's time to live. *)
Theorem projectile_ttl_and_lifespan :
  lifespan = 800%Z
  /\ (lifespan < 2000)%Z
  /\ (forall now id pos dir m db, snd (addProjectile now id pos dir m db) = 2000%Z)
  /\ (forall now m d,
         (now - pr_createdAt d > 2000)%Z -> mirrorsProjectile now m d = false)
  /\ (forall now m d,
         pr_ownerUUID d <> mm_playerUUID m ->
         (now - pr_createdAt d <= 2000)%Z -> mirrorsProjectile now m d = true)
  /\ (forall now scene p,
         isActive p = true ->
         (now - spawnTime p > lifespan)%Z ->
         Projectile_update now scene p = (Projectile_dispose p, None, false))
  /\ (forall now scene p,
         isActive p = true ->
         (now - spawnTime p <= lifespan)%Z ->
         isActive (fst (fst (Projectile_update now scene p))) = true
         \/ exists target,
              snd (fst (Projectile_update now scene p)) = Some target).
Proof.
  split; [reflexivity |].
  split; [reflexivity |].
  split; [reflexivity |].
  split; [| split; [| split]].
  - intros now m d Hold. unfold mirrorsProjectile.
    destruct (String.eqb _ _); [reflexivity |].
    apply Z.gtb_gt in Hold. rewrite Hold. reflexivity.
  - intros now m d Hother Hfresh. unfold mirrorsProjectile.
    apply String.eqb_neq in Hother. rewrite Hother.
    destruct (now - pr_createdAt d >? 2000)%Z eqn:E; [| reflexivity].
    apply Z.gtb_gt in E. lia.
  - intros now scene p Hact Hold. unfold Projectile_update.
    rewrite Hact. simpl. apply Z.gtb_gt in Hold. rewrite Hold. reflexivity.
  - intros now scene p Hact Hyoung. unfold Projectile_update.
    rewrite Hact. simpl.
    destruct (now - spawnTime p >? lifespan)%Z eqn:E.
    + apply Z.gtb_gt in E. lia.
    + destruct (filter _ scene) as [| t rest]; simpl.
      * left. exact Hact.
      * right. exists t. reflexivity.
Qed.

(** ** Remote interpolation *)

(** What one tick of [updateRemoteInterpolation] does to the height and to
    the position. *)
Lemma updateRemoteInterpolation_position (dt : R) (p : Player) (target : Vector3) :
  targetPosition p = Some target ->
  let p' := updateRemoteInterpolation dt p in
  remoteHeightAboveSurface p' = interpolateHeight dt p
  /\ targetPosition p' = Some target
  /\ estimatedVelocity p' = estimatedVelocity p
  /\ (length (subtract target (interpolatedFrom p)) > 0.0001 ->
      currentInterpolatedPosition p' = Some (interpolatedTo dt target p)
      /\ mesh_position p' = interpolatedTo dt target p)
  /\ (~ length (subtract target (interpolatedFrom p)) > 0.0001 ->
      currentInterpolatedPosition p' = Some (interpolatedFrom p)
      /\ mesh_position p' = mesh_position p).
Proof.
  intros Htarget. cbv zeta.
  unfold updateRemoteInterpolation, interpolatedTo, interpolatedFrom, interpolateHeight.
  rewrite Htarget. destruct p. player_fields. subst.
  destruct currentInterpolatedPosition0 as [c |];
    destruct targetRotation0 as [tr |];
    destruct currentInterpolatedRotation0 as [cr |];
    player_fields;
    match goal with
    | |- context [Rgt_dec (length (subtract target ?c)) 0.0001] =>
        destruct (Rgt_dec (length (subtract target c)) 0.0001) as [Hfar | Hnear]
    end;
    player_fields;
    (split; [reflexivity |]); (split; [reflexivity |]);
    (split; [reflexivity |]);
    (split; [intros Hd; try contradiction; split; reflexivity |]);
    (intros Hd; try contradiction; split; reflexivity).
Qed.

Lemma moveVector_bounded (toTarget : Vector3) (velocity : option Vector3)
      (maxPositionDelta : R) :
  0 <= maxPositionDelta ->
  length (moveVector toTarget velocity maxPositionDelta) <= maxPositionDelta.
Proof.
  intros Hmax. unfold moveVector.
  match goal with
  | |- context [Rgt_dec (length ?v) maxPositionDelta] =>
      set (mv1 := v);
      destruct (Rgt_dec (length mv1) maxPositionDelta) as [Hbig | Hsmall]
  end.
  - rewrite length_reproject; [lra | | exact Hmax].
    intros E. rewrite E in Hbig.
    assert (length Zero = 0) by (apply length_zero_iff; reflexivity). lra.
  - lra.
Qed.


(** *** Re-projecting a step toward a target on the same sphere *)

Lemma lengthSquared_subtract (a b : Vector3) :
  lengthSquared (subtract a b) = lengthSquared a + lengthSquared b - 2 * Dot a b.
Proof. unfold lengthSquared, subtract, Dot. simpl. ring. Qed.

Lemma Dot_subtract_subtract (t a b : Vector3) :
  Dot (subtract t a) (subtract t b)
  = lengthSquared t - Dot t b - Dot a t + Dot a b.
Proof. unfold lengthSquared, subtract, Dot. simpl. ring. Qed.

Lemma Dot_scale_l (a b : Vector3) (k : R) : Dot (scale a k) b = k * Dot a b.
Proof. unfold scale, Dot. simpl. ring. Qed.

Lemma Dot_comm (a b : Vector3) : Dot a b = Dot b a.
Proof. unfold Dot. ring. Qed.

Lemma scale_scale (a : Vector3) (j k : R) : scale (scale a j) k = scale a (j * k).
Proof. unfold scale. simpl. f_equal; ring. Qed.

(** Cauchy-Schwarz, from Lagrange's identity. *)
Lemma Dot_sqr_le (a b : Vector3) :
  Dot a b * Dot a b <= lengthSquared a * lengthSquared b.
Proof.
  pose proof (lengthSquared_nonneg (Cross a b)) as H.
  replace (lengthSquared (Cross a b))
    with (lengthSquared a * lengthSquared b - Dot a b * Dot a b) in H
    by (unfold lengthSquared, Cross, Dot; simpl; ring).
  lra.
Qed.

Lemma sq_le_le (a b : R) : 0 <= b -> a * a <= b * b -> a <= b.
Proof. intros. nra. Qed.

(** The inequality behind the monotone approach: with [c] the dot product of
    the current position and the target, both of length [rho], [s] the
    fraction of the way stepped and [L] the length of the stepped-to point. *)
Lemma projected_step_progress (rho c s L : R) :
  0 < rho -> - (rho * rho) <= c <= rho * rho -> 0 <= s <= 1 / 4 -> 0 < L ->
  L * L = rho * rho * (1 - 2 * s + 2 * s * s) + 2 * s * (1 - s) * c ->
  c * L <= rho * ((1 - s) * c + s * (rho * rho)).
Proof.
  intros Hrho Hc Hs HL HM.
  set (D := (1 - s) * c + s * (rho * rho)).
  set (G := rho * rho * (rho * rho) - c * c).
  set (F := s * s * (rho * rho) + 2 * s * (1 - s) * c).
  assert (Hid : rho * rho * (D * D) - (L * L) * (c * c) = G * F).
  { rewrite HM. unfold D, G, F. ring. }
  assert (Hgap : 0 <= G).
  { unfold G.
    replace (rho * rho * (rho * rho) - c * c)
      with ((rho * rho - c) * (rho * rho + c)) by ring.
    apply Rmult_le_pos; lra. }
  assert (Hrr : 0 < rho * rho) by (apply Rmult_lt_0_compat; lra).
  assert (Hss : 0 <= s * s * (rho * rho))
    by (apply Rmult_le_pos; [apply Rmult_le_pos |]; lra).
  destruct (Rle_lt_dec 0 c) as [Hpos | Hneg].
  - assert (HD : 0 <= D).
    { unfold D. apply Rplus_le_le_0_compat; apply Rmult_le_pos; lra. }
    assert (HF : 0 <= F).
    { unfold F. apply Rplus_le_le_0_compat; [exact Hss |].
      repeat apply Rmult_le_pos; lra. }
    pose proof (Rmult_le_pos _ _ Hgap HF) as HGF.
    apply sq_le_le.
    + apply Rmult_le_pos; lra.
    + fold D.
      replace (c * L * (c * L)) with (L * L * (c * c)) by ring.
      replace (rho * D * (rho * D)) with (rho * rho * (D * D)) by ring.
      lra.
  - destruct (Rle_lt_dec 0 D) as [HD | HD].
    + fold D.
      assert (0 < (- c) * L) by (apply Rmult_lt_0_compat; lra).
      assert (0 <= rho * D) by (apply Rmult_le_pos; lra).
      lra.
    + assert (HF : F <= 0).
      { unfold F. unfold D in HD.
        assert (s * ((1 - s) * c + s * (rho * rho)) <= 0).
        { replace 0 with (s * 0) by ring. apply Rmult_le_compat_l; lra. }
        lra. }
      assert (HGF : G * F <= 0).
      { replace (G * F) with (- (G * (- F))) by ring.
        apply Ropp_le_cancel. rewrite Ropp_0, Ropp_involutive.
        apply Rmult_le_pos; lra. }
      assert (Hsq : (rho * (- D)) * (rho * (- D)) <= ((- c) * L) * ((- c) * L)).
      { replace (rho * - D * (rho * - D)) with (rho * rho * (D * D)) by ring.
        replace (- c * L * (- c * L)) with (L * L * (c * c)) by ring. lra. }
      apply sq_le_le in Hsq.
      * fold D. lra.
      * apply Rmult_le_pos; lra.
Qed.

Lemma sq_lt_lt (a b : R) : 0 <= b -> a * a < b * b -> a < b.
Proof. intros. nra. Qed.

Lemma projected_step_progress_strict (rho c s L : R) :
  0 < rho -> - (rho * rho) < c < rho * rho -> 0 < s <= 1 / 4 -> 0 < L ->
  L * L = rho * rho * (1 - 2 * s + 2 * s * s) + 2 * s * (1 - s) * c ->
  c * L < rho * ((1 - s) * c + s * (rho * rho)).
Proof.
  intros Hrho Hc Hs HL HM.
  set (D := (1 - s) * c + s * (rho * rho)).
  set (G := rho * rho * (rho * rho) - c * c).
  set (F := s * s * (rho * rho) + 2 * s * (1 - s) * c).
  assert (Hid : rho * rho * (D * D) - (L * L) * (c * c) = G * F).
  { rewrite HM. unfold D, G, F. ring. }
  assert (Hgap : 0 < G).
  { unfold G.
    replace (rho * rho * (rho * rho) - c * c)
      with ((rho * rho - c) * (rho * rho + c)) by ring.
    apply Rmult_lt_0_compat; lra. }
  assert (Hrr : 0 < rho * rho) by (apply Rmult_lt_0_compat; lra).
  assert (Hss : 0 < s * s * (rho * rho))
    by (apply Rmult_lt_0_compat; [apply Rmult_lt_0_compat |]; lra).
  destruct (Rle_lt_dec 0 c) as [Hpos | Hneg].
  - assert (HD : 0 <= D).
    { unfold D. apply Rplus_le_le_0_compat; apply Rmult_le_pos; lra. }
    assert (HF : 0 < F).
    { unfold F.
      assert (0 <= 2 * s * (1 - s) * c) by (repeat apply Rmult_le_pos; lra).
      lra. }
    pose proof (Rmult_lt_0_compat _ _ Hgap HF) as HGF.
    apply sq_lt_lt.
    + apply Rmult_le_pos; lra.
    + fold D.
      replace (c * L * (c * L)) with (L * L * (c * c)) by ring.
      replace (rho * D * (rho * D)) with (rho * rho * (D * D)) by ring.
      lra.
  - destruct (Rle_lt_dec 0 D) as [HD | HD].
    + fold D.
      assert (0 < (- c) * L) by (apply Rmult_lt_0_compat; lra).
      assert (0 <= rho * D) by (apply Rmult_le_pos; lra).
      lra.
    + assert (HF : F < 0).
      { unfold F. unfold D in HD.
        assert (s * ((1 - s) * c + s * (rho * rho)) < 0).
        { replace 0 with (s * 0) by ring. apply Rmult_lt_compat_l; lra. }
        lra. }
      assert (HGF : G * F < 0).
      { replace (G * F) with (- (G * (- F))) by ring.
        apply Ropp_lt_cancel. rewrite Ropp_0, Ropp_involutive.
        apply Rmult_lt_0_compat; lra. }
      assert (Hsq : (rho * (- D)) * (rho * (- D)) < ((- c) * L) * ((- c) * L)).
      { replace (rho * - D * (rho * - D)) with (rho * rho * (D * D)) by ring.
        replace (- c * L * (- c * L)) with (L * L * (c * c)) by ring. lra. }
      apply sq_lt_lt in Hsq.
      * fold D. lra.
      * apply Rmult_le_pos; lra.
Qed.

(** A step of at most a quarter of the way from [cur] to [t], both on the
    sphere of radius [rho], re-projected onto that sphere: the result is on
    the sphere, no farther from [t] than [cur] was, and not past [t]; it is
    strictly closer when the step is not null and [cur] is neither at [t]
    nor diametrically opposite. *)
Lemma reproject_toward (cur t : Vector3) (rho s : R) :
  0 < rho -> length cur = rho -> length t = rho -> 0 <= s <= 1 / 4 ->
  let new := scale (normalize (add cur (scale (subtract t cur) s))) rho in
  length new = rho
  /\ length (subtract t new) <= length (subtract t cur)
  /\ 0 <= Dot (subtract t new) (subtract t cur)
  /\ (0 < s -> 0 < length (subtract t cur) < 2 * rho ->
      length (subtract t new) < length (subtract t cur)).
Proof.
  intros Hrho Hcur Ht Hs.
  assert (Hc2 : lengthSquared cur = rho * rho) by (rewrite <- length_sqr, Hcur; ring).
  assert (Ht2 : lengthSquared t = rho * rho) by (rewrite <- length_sqr, Ht; ring).
  set (c := Dot cur t).
  set (m := add cur (scale (subtract t cur) s)).
  assert (Hrr : 0 < rho * rho) by (apply Rmult_lt_0_compat; lra).
  assert (Hc : - (rho * rho) <= c <= rho * rho).
  { pose proof (Dot_sqr_le cur t) as H. fold c in H. rewrite Hc2, Ht2 in H.
    split; nra. }
  assert (HM : lengthSquared m
               = rho * rho * (1 - 2 * s + 2 * s * s) + 2 * s * (1 - s) * c).
  { replace (lengthSquared m)
      with ((1 - s) * (1 - s) * lengthSquared cur + s * s * lengthSquared t
            + 2 * s * (1 - s) * Dot cur t)
      by (unfold m, lengthSquared, add, scale, subtract, Dot; simpl; ring).
    rewrite Hc2, Ht2. fold c. ring. }
  assert (HMpos : 0 < lengthSquared m).
  { rewrite HM.
    assert (0 <= 2 * s * (1 - s) * (c + rho * rho))
      by (repeat apply Rmult_le_pos; lra).
    assert (0 < rho * rho * ((1 - 2 * s) * (1 - 2 * s)))
      by (repeat apply Rmult_lt_0_compat; lra).
    lra. }
  set (L := length m).
  assert (HL : 0 < L) by (apply sqrt_lt_R0; exact HMpos).
  assert (HLL : L * L = lengthSquared m) by apply length_sqr.
  assert (Hm : m <> Zero).
  { intros E. apply length_zero_iff in E. fold L in E. lra. }
  assert (Hnorm : normalize m = scale m (1 / L)).
  { unfold normalize. fold L. destruct (Req_dec_T L 0); [lra | reflexivity]. }
  cbv zeta. fold m.
  assert (Hnew : length (scale (normalize m) rho) = rho)
    by (apply length_reproject; [exact Hm | lra]).
  assert (Hnew2 : lengthSquared (scale (normalize m) rho) = rho * rho)
    by (rewrite <- length_sqr, Hnew; ring).
  set (D := (1 - s) * c + s * (rho * rho)).
  assert (Hmt : Dot m t = D).
  { replace (Dot m t) with ((1 - s) * Dot cur t + s * lengthSquared t)
      by (unfold m, lengthSquared, add, scale, subtract, Dot; simpl; ring).
    rewrite Ht2. reflexivity. }
  assert (Hmc : Dot m cur = (1 - s) * (rho * rho) + s * c).
  { replace (Dot m cur) with ((1 - s) * lengthSquared cur + s * Dot cur t)
      by (unfold m, lengthSquared, add, scale, subtract, Dot; simpl; ring).
    rewrite Hc2. reflexivity. }
  assert (Hk : 0 < rho / L) by (apply Rdiv_lt_0_compat; assumption).
  assert (HkD : rho / L * D * L = rho * D) by (field; lra).
  rewrite Hnorm, scale_scale in *.
  replace (1 / L * rho) with (rho / L) in * by (field; lra).
  assert (Hafter : lengthSquared (subtract t (scale m (rho / L)))
                   = 2 * (rho * rho) - 2 * (rho / L * D)).
  { rewrite lengthSquared_subtract, Hnew2, Ht2.
    rewrite (Dot_comm t (scale m (rho / L))), Dot_scale_l, Hmt. ring. }
  assert (Hbefore : lengthSquared (subtract t cur) = 2 * (rho * rho) - 2 * c).
  { rewrite lengthSquared_subtract, Ht2, Hc2, (Dot_comm t cur). fold c. ring. }
  split; [exact Hnew |]. split; [| split].
  - pose proof (projected_step_progress rho c s L Hrho Hc Hs HL
                  (eq_trans HLL HM)) as Hprog.
    fold D in Hprog.
    assert (Hdiv : c <= rho / L * D).
    { apply Rmult_le_reg_r with (r := L); [exact HL |]. rewrite HkD. exact Hprog. }
    unfold length. apply sqrt_le_1_alt. rewrite Hafter, Hbefore. lra.
  - rewrite Dot_subtract_subtract, Ht2, !Dot_scale_l, Hmt, Hmc.
    rewrite (Dot_comm t cur). fold c. unfold D.
    replace (rho * rho - c - rho / L * ((1 - s) * c + s * (rho * rho))
             + rho / L * ((1 - s) * (rho * rho) + s * c))
      with ((rho * rho - c) * (1 + rho / L * (1 - 2 * s))) by ring.
    apply Rmult_le_pos; [lra |].
    assert (0 <= rho / L * (1 - 2 * s)) by (apply Rmult_le_pos; lra).
    lra.
  - intros Hs0 [Hd0 Hd2].
    pose proof (length_sqr (subtract t cur)) as Hsq. rewrite Hbefore in Hsq.
    assert (Hc' : - (rho * rho) < c < rho * rho).
    { split.
      - assert (length (subtract t cur) * length (subtract t cur)
                < 2 * rho * (2 * rho)) by (apply Rmult_le_0_lt_compat; lra).
        lra.
      - assert (0 < length (subtract t cur) * length (subtract t cur))
          by (apply Rmult_lt_0_compat; lra).
        lra. }
    pose proof (projected_step_progress_strict rho c s L Hrho Hc'
                  (conj Hs0 (proj2 Hs)) HL (eq_trans HLL HM)) as Hprog.
    fold D in Hprog.
    assert (Hdiv : c < rho / L * D).
    { apply Rmult_lt_reg_r with (r := L); [exact HL |]. rewrite HkD. exact Hprog. }
    unfold length. apply sqrt_lt_1_alt. rewrite Hafter, Hbefore.
    split; [| lra].
    rewrite <- Hafter. apply lengthSquared_nonneg.
Qed.

(** *** Sample starvation *)

Lemma updateRemoteInterpolation_targetHeight (dt : R) (p : Player) :
  targetHeight (updateRemoteInterpolation dt p) = targetHeight p.
Proof.
  unfold updateRemoteInterpolation.
  destruct p. player_fields.
  destruct targetPosition0 as [t |]; [| reflexivity].
  destruct currentInterpolatedPosition0 as [c |];
    destruct targetRotation0 as [tr |];
    destruct currentInterpolatedRotation0 as [cr |];
    player_fields;
    match goal with
    | |- context [Rgt_dec (length ?v) 0.0001] =>
        destruct (Rgt_dec (length v) 0.0001)
    end;
    reflexivity.
Qed.

Lemma interpolateHeight_settled (dt : R) (p : Player) :
  remoteHeightAboveSurface p = targetHeight p ->
  interpolateHeight dt p = remoteHeightAboveSurface p.
Proof.
  intros H. unfold interpolateHeight. rewrite H.
  replace (targetHeight p - targetHeight p) with 0 by ring.
  rewrite Rabs_R0. destruct (Rgt_dec 0 0.001); [lra | reflexivity].
Qed.

(** Without velocity prediction the step is a fraction, at most a quarter,
    of the way to the target, and not null when the limit is positive. *)
Lemma moveVector_fraction (toTarget : Vector3) (velocity : option Vector3)
      (maxPositionDelta : R) :
  0 <= maxPositionDelta ->
  match velocity with Some ev => ~ length ev > 0.001 | None => True end ->
  exists s, 0 <= s <= 1 / 4
            /\ (0 < maxPositionDelta -> 0 < s)
            /\ moveVector toTarget velocity maxPositionDelta = scale toTarget s.
Proof.
  intros Hmax Hvel. unfold moveVector.
  assert (Hmin : Rmin 1.0 SMOOTHING_FACTOR = 1 / 4).
  { unfold SMOOTHING_FACTOR. rewrite Rmin_right; lra. }
  rewrite Hmin.
  assert (Hmv1 : match velocity with
                 | Some ev =>
                     if Rgt_dec (length ev) 0.001
                     then add (scale toTarget (1 / 4)) (scale ev 0.2)
                     else scale toTarget (1 / 4)
                 | None => scale toTarget (1 / 4)
                 end = scale toTarget (1 / 4)).
  { destruct velocity as [ev |]; [| reflexivity].
    destruct (Rgt_dec (length ev) 0.001); [contradiction | reflexivity]. }
  rewrite Hmv1.
  set (mv1 := scale toTarget (1 / 4)).
  destruct (Rgt_dec (length mv1) maxPositionDelta) as [Hbig | Hsmall].
  - assert (Hlen : 0 < length mv1) by lra.
    assert (Hinv : 0 < 1 / length mv1) by (apply Rdiv_lt_0_compat; lra).
    assert (Hnorm : normalize mv1 = scale mv1 (1 / length mv1)).
    { unfold normalize. destruct (Req_dec_T (length mv1) 0); [lra | reflexivity]. }
    exists (1 / 4 * (1 / length mv1) * maxPositionDelta).
    assert (Hratio : 0 <= 1 / length mv1 * maxPositionDelta <= 1).
    { split.
      - apply Rmult_le_pos; lra.
      - apply Rmult_le_reg_l with (r := length mv1); [exact Hlen |].
        replace (length mv1 * (1 / length mv1 * maxPositionDelta))
          with maxPositionDelta by (field; lra).
        lra. }
    split; [split; nra |]. split.
    + intros Hpos.
      assert (0 < 1 / length mv1 * maxPositionDelta)
        by (apply Rmult_lt_0_compat; assumption).
      lra.
    + rewrite Hnorm. unfold mv1. rewrite !scale_scale. f_equal. ring.
  - exists (1 / 4). split; [lra |]. split; [intros _; lra | reflexivity].
Qed.

(** One tick from a settled state. *)
Lemma updateRemoteInterpolation_settled (dt : R) (target : Vector3) (p : Player) :
  0 <= dt ->
  settledOn target p ->
  let p' := updateRemoteInterpolation dt p in
  settledOn target p'
  /\ targetHeight p' = targetHeight p
  /\ distanceToTarget target p' <= distanceToTarget target p
  /\ 0 <= Dot (subtract target (interpolatedFrom p'))
              (subtract target (interpolatedFrom p))
  /\ (0 < dt ->
      0.0001 < distanceToTarget target p < 2 * (getBaseRadius + targetHeight p) ->
      distanceToTarget target p' < distanceToTarget target p).
Proof.
  intros Hdt (Htarget & Hvel & Hheight & Hrho & Hlt & Hlc). cbv zeta.
  destruct (updateRemoteInterpolation_position dt p target Htarget)
    as (Hh & Ht' & Hv' & Hfar & Hnear).
  pose proof (updateRemoteInterpolation_targetHeight dt p) as Hth.
  rewrite (interpolateHeight_settled dt p Hheight) in Hh.
  set (p' := updateRemoteInterpolation dt p) in *.
  assert (Hframe : targetPosition p' = Some target
                   /\ noVelocityEstimate p'
                   /\ remoteHeightAboveSurface p' = targetHeight p'
                   /\ 0 < getBaseRadius + targetHeight p'
                   /\ length target = getBaseRadius + targetHeight p').
  { unfold noVelocityEstimate. rewrite Hv', Hth, Hh. auto. }
  destruct Hframe as (F1 & F2 & F3 & F4 & F5).
  unfold distanceToTarget.
  destruct (Rgt_dec (length (subtract target (interpolatedFrom p))) 0.0001)
    as [Hd | Hd].
  - destruct (Hfar Hd) as [Hc _].
    assert (Hfrom : interpolatedFrom p' = interpolatedTo dt target p)
      by (unfold interpolatedFrom; rewrite Hc; reflexivity).
    assert (Hto : exists s,
               0 <= s <= 1 / 4
               /\ (0 < dt -> 0 < s)
               /\ interpolatedTo dt target p
                  = scale (normalize
                             (add (interpolatedFrom p)
                                  (scale (subtract target (interpolatedFrom p)) s)))
                          (getBaseRadius + targetHeight p)).
    { destruct (moveVector_fraction (subtract target (interpolatedFrom p))
                  (estimatedVelocity p) (POSITION_INTERPOLATION_SPEED * dt))
        as (s & Hs & Hs0 & Hmv).
      - unfold POSITION_INTERPOLATION_SPEED. lra.
      - exact Hvel.
      - exists s. split; [exact Hs |]. split.
        + intros Hpos. apply Hs0. unfold POSITION_INTERPOLATION_SPEED. lra.
        + unfold interpolatedTo.
          rewrite (interpolateHeight_settled dt p Hheight), Hheight, Hmv.
          reflexivity. }
    destruct Hto as (s & Hs & Hs0 & Hto).
    destruct (reproject_toward (interpolatedFrom p) target
                (getBaseRadius + targetHeight p) s Hrho Hlc Hlt Hs)
      as (Hon & Hcloser & Hside & Hstrict).
    rewrite <- Hto, <- Hfrom in Hon, Hcloser, Hside, Hstrict.
    split; [| split; [exact Hth | split; [exact Hcloser | split; [exact Hside |]]]].
    + unfold settledOn. rewrite Hth in *. repeat split; assumption.
    + intros Hpos [Hlo Hhi]. apply Hstrict; [exact (Hs0 Hpos) | lra].
  - destruct (Hnear Hd) as [Hc _].
    assert (Hfrom : interpolatedFrom p' = interpolatedFrom p)
      by (unfold interpolatedFrom at 1; rewrite Hc; reflexivity).
    rewrite Hfrom.
    split; [| split; [exact Hth | split; [lra | split]]].
    + unfold settledOn. rewrite Hfrom. rewrite Hth in *.
      repeat split; assumption.
    + replace (Dot (subtract target (interpolatedFrom p))
                   (subtract target (interpolatedFrom p)))
        with (lengthSquared (subtract target (interpolatedFrom p)))
        by (unfold lengthSquared, Dot; ring).
      apply lengthSquared_nonneg.
    + intros _ [Hlo _]. lra.
Qed.

(** Repeated ticks from a settled state stay settled, on the same sphere, and
    never get farther from the target than the start was. *)
Lemma iterated_settled (dt : R) (target : Vector3) (p : Player) (n : nat) :
  0 <= dt ->
  settledOn target p ->
  let q := Nat.iter n (updateRemoteInterpolation dt) p in
  settledOn target q
  /\ targetHeight q = targetHeight p
  /\ distanceToTarget target q <= distanceToTarget target p.
Proof.
  intros Hdt Hsettled. cbv zeta.
  induction n as [| k (IHs & IHh & IHd)].
  - simpl. repeat split; try apply Hsettled; lra.
  - simpl.
    destruct (updateRemoteInterpolation_settled dt target _ Hdt IHs)
      as (Hs & Hh & Hd & _).
    split; [exact Hs |]. split; [congruence | lra].
Qed.

(** *** The rate of the approach *)

(** The inequality behind the rate, in the unit of the sphere: [u] is half
    the squared distance to the target, [s] the fraction stepped, [l] the
    length of the stepped-to point. *)
Lemma step_contraction (u s l : R) :
  0 <= u < 2 -> 0 <= s <= 1 / 4 -> 0 < l ->
  l * l = 1 - 2 * s * (1 - s) * u ->
  l - 1 + (1 - s) * u <= l * (u * (1 - s * (2 - u) / 2)).
Proof.
  intros Hu Hs Hl Hll.
  assert (Hsu : 0 <= s * u) by (apply Rmult_le_pos; lra).
  assert (Hl1 : l <= 1).
  { assert (0 <= 2 * s * (1 - s) * u) by (repeat apply Rmult_le_pos; lra).
    nra. }
  assert (Hlow : 1 - s * u <= l).
  { assert (Hsq : (1 - s * u) * (1 - s * u) <= l * l).
    { rewrite Hll.
      assert (0 <= s * s * u * (2 - u)) by (repeat apply Rmult_le_pos; lra).
      nra. }
    assert (0 <= 1 - s * u) by nra.
    nra. }
  set (A := 1 - l).
  assert (HA : A * (1 + l) = 2 * s * (1 - s) * u) by (unfold A; nra).
  assert (HA0 : 0 <= A) by (unfold A; lra).
  set (B := 2 * (1 - s) * (1 - u) + 1 + l - l * (1 + l) * (2 - u) / 2).
  assert (HB : (2 - u) * (1 - s) <= B).
  { unfold B.
    assert (l * (1 + l) <= 2) by nra.
    assert (l * (1 + l) * (2 - u) <= 2 * (2 - u)) by (apply Rmult_le_compat_r; lra).
    nra. }
  assert (HB0 : 0 <= B).
  { assert (0 <= (2 - u) * (1 - s)) by (apply Rmult_le_pos; lra). lra. }
  assert (HE : (l * (u * (1 - s * (2 - u) / 2)) - (l - 1 + (1 - s) * u)) * (1 + l)
               = s * u * B).
  { unfold B. replace 1 with (A + l) at 4 by (unfold A; ring).
    assert (Hx : A * (1 - u) * (1 + l) = 2 * s * (1 - s) * u * (1 - u))
      by (rewrite <- HA; ring).
    unfold A in *. nra. }
  assert (Hprod : 0 <= s * u * B) by (apply Rmult_le_pos; assumption).
  rewrite <- HE in Hprod.
  assert (H1l : 0 < 1 + l) by lra.
  nra.
Qed.

(** The re-projected step shrinks the squared distance to the target by a
    factor that depends on the fraction stepped and on how far the start is
    from being diametrically opposite. *)
Lemma reproject_contraction (cur t : Vector3) (rho s : R) :
  0 < rho -> length cur = rho -> length t = rho -> 0 <= s <= 1 / 4 ->
  lengthSquared (subtract t cur) < 4 * (rho * rho) ->
  let new := scale (normalize (add cur (scale (subtract t cur) s))) rho in
  lengthSquared (subtract t new)
  <= lengthSquared (subtract t cur)
     * (1 - s * (4 * (rho * rho) - lengthSquared (subtract t cur))
            / (4 * (rho * rho))).
Proof.
  intros Hrho Hcur Ht Hs Hopp.
  assert (Hc2 : lengthSquared cur = rho * rho) by (rewrite <- length_sqr, Hcur; ring).
  assert (Ht2 : lengthSquared t = rho * rho) by (rewrite <- length_sqr, Ht; ring).
  set (c := Dot cur t).
  set (m := add cur (scale (subtract t cur) s)).
  assert (Hrr : 0 < rho * rho) by (apply Rmult_lt_0_compat; lra).
  assert (Hbefore : lengthSquared (subtract t cur) = 2 * (rho * rho) - 2 * c).
  { rewrite lengthSquared_subtract, Ht2, Hc2, (Dot_comm t cur). fold c. ring. }
  rewrite Hbefore in Hopp |- *.
  assert (Hc : - (rho * rho) < c <= rho * rho).
  { pose proof (Dot_sqr_le cur t) as H. fold c in H. rewrite Hc2, Ht2 in H.
    split; [lra | nra]. }
  assert (HM : lengthSquared m
               = rho * rho * (1 - 2 * s + 2 * s * s) + 2 * s * (1 - s) * c).
  { replace (lengthSquared m)
      with ((1 - s) * (1 - s) * lengthSquared cur + s * s * lengthSquared t
            + 2 * s * (1 - s) * Dot cur t)
      by (unfold m, lengthSquared, add, scale, subtract, Dot; simpl; ring).
    rewrite Hc2, Ht2. fold c. ring. }
  assert (HMpos : 0 < lengthSquared m).
  { rewrite HM.
    assert (0 <= 2 * s * (1 - s) * (c + rho * rho))
      by (repeat apply Rmult_le_pos; lra).
    assert (0 < rho * rho * ((1 - 2 * s) * (1 - 2 * s)))
      by (repeat apply Rmult_lt_0_compat; lra).
    lra. }
  set (L := length m).
  assert (HL : 0 < L) by (apply sqrt_lt_R0; exact HMpos).
  assert (HLL : L * L = lengthSquared m) by apply length_sqr.
  assert (Hm : m <> Zero).
  { intros E. apply length_zero_iff in E. fold L in E. lra. }
  assert (Hnorm : normalize m = scale m (1 / L)).
  { unfold normalize. fold L. destruct (Req_dec_T L 0); [lra | reflexivity]. }
  cbv zeta. fold m.
  assert (Hnew : length (scale (normalize m) rho) = rho)
    by (apply length_reproject; [exact Hm | lra]).
  assert (Hnew2 : lengthSquared (scale (normalize m) rho) = rho * rho)
    by (rewrite <- length_sqr, Hnew; ring).
  set (D := (1 - s) * c + s * (rho * rho)).
  assert (Hmt : Dot m t = D).
  { replace (Dot m t) with ((1 - s) * Dot cur t + s * lengthSquared t)
      by (unfold m, lengthSquared, add, scale, subtract, Dot; simpl; ring).
    rewrite Ht2. reflexivity. }
  rewrite Hnorm, scale_scale in *.
  replace (1 / L * rho) with (rho / L) in * by (field; lra).
  assert (Hafter : lengthSquared (subtract t (scale m (rho / L)))
                   = 2 * (rho * rho) - 2 * (rho / L * D)).
  { rewrite lengthSquared_subtract, Hnew2, Ht2.
    rewrite (Dot_comm t (scale m (rho / L))), Dot_scale_l, Hmt. ring. }
  rewrite Hafter.
  set (u := 1 - c / (rho * rho)).
  set (l := L / rho).
  assert (Hl : 0 < l) by (apply Rdiv_lt_0_compat; assumption).
  assert (Hu : 0 <= u < 2).
  { unfold u. split.
    - assert (c / (rho * rho) <= 1)
        by (apply Rmult_le_reg_r with (r := rho * rho); [exact Hrr |];
            replace (c / (rho * rho) * (rho * rho)) with c by (field; lra); lra).
      lra.
    - assert (-1 < c / (rho * rho))
        by (apply Rmult_lt_reg_r with (r := rho * rho); [exact Hrr |];
            replace (c / (rho * rho) * (rho * rho)) with c by (field; lra); lra).
      lra. }
  assert (Hll : l * l = 1 - 2 * s * (1 - s) * u).
  { unfold l, u.
    replace (L / rho * (L / rho)) with (L * L / (rho * rho)) by (field; lra).
    rewrite HLL, HM. field. lra. }
  pose proof (step_contraction u s l Hu Hs Hl Hll) as Hstep.
  (* back to the sphere of radius rho *)
  assert (Hlhs : (2 * (rho * rho) - 2 * (rho / L * D)) * l
                 = 2 * (rho * rho) * (l - 1 + (1 - s) * u)).
  { unfold l, u, D. field. lra. }
  assert (Hrhs : (2 * (rho * rho) - 2 * c)
                 * (1 - s * (4 * (rho * rho) - (2 * (rho * rho) - 2 * c))
                        / (4 * (rho * rho)))
                 = 2 * (rho * rho) * (u * (1 - s * (2 - u) / 2))).
  { unfold u. field. lra. }
  rewrite Hrhs.
  apply Rmult_le_reg_r with (r := l); [exact Hl |].
  rewrite Hlhs.
  replace (2 * (rho * rho) * (u * (1 - s * (2 - u) / 2)) * l)
    with (2 * (rho * rho) * (l * (u * (1 - s * (2 - u) / 2)))) by ring.
  apply Rmult_le_compat_l; [lra | exact Hstep].
Qed.

(** Without velocity prediction the step is a fraction of the way to the
    target that is at most a quarter and at least the smaller of a quarter
    and the limit over the distance. *)
Lemma moveVector_fraction_lower (toTarget : Vector3) (velocity : option Vector3)
      (maxPositionDelta bound : R) :
  0 < maxPositionDelta ->
  match velocity with Some ev => ~ length ev > 0.001 | None => True end ->
  0 < length toTarget <= bound ->
  exists s, Rmin (1 / 4) (maxPositionDelta / bound) <= s <= 1 / 4
            /\ moveVector toTarget velocity maxPositionDelta = scale toTarget s.
Proof.
  intros Hmax Hvel [Hpos Hbound]. unfold moveVector.
  assert (Hmin : Rmin 1.0 SMOOTHING_FACTOR = 1 / 4).
  { unfold SMOOTHING_FACTOR. rewrite Rmin_right; lra. }
  rewrite Hmin.
  assert (Hmv1 : match velocity with
                 | Some ev =>
                     if Rgt_dec (length ev) 0.001
                     then add (scale toTarget (1 / 4)) (scale ev 0.2)
                     else scale toTarget (1 / 4)
                 | None => scale toTarget (1 / 4)
                 end = scale toTarget (1 / 4)).
  { destruct velocity as [ev |]; [| reflexivity].
    destruct (Rgt_dec (length ev) 0.001); [contradiction | reflexivity]. }
  rewrite Hmv1.
  set (mv1 := scale toTarget (1 / 4)).
  assert (Hlen1 : length mv1 = length toTarget / 4).
  { unfold mv1. rewrite length_scale, Rabs_pos_eq by lra. lra. }
  destruct (Rgt_dec (length mv1) maxPositionDelta) as [Hbig | Hsmall].
  - assert (Hlen : 0 < length mv1) by lra.
    assert (Hnorm : normalize mv1 = scale mv1 (1 / length mv1)).
    { unfold normalize. destruct (Req_dec_T (length mv1) 0); [lra | reflexivity]. }
    exists (maxPositionDelta / length toTarget).
    assert (Hge : maxPositionDelta / bound <= maxPositionDelta / length toTarget).
    { unfold Rdiv. apply Rmult_le_compat_l; [lra |].
      apply Rinv_le_contravar; assumption. }
    assert (Hle : maxPositionDelta / length toTarget <= 1 / 4).
    { apply Rmult_le_reg_r with (r := length toTarget); [exact Hpos |].
      replace (maxPositionDelta / length toTarget * length toTarget)
        with maxPositionDelta by (field; lra).
      lra. }
    split; [split; [| exact Hle] |].
    + eapply Rle_trans; [apply Rmin_r | exact Hge].
    + rewrite Hnorm, Hlen1. unfold mv1. rewrite !scale_scale. f_equal.
      field. lra.
  - exists (1 / 4). split; [split; [apply Rmin_l | lra] | reflexivity].
Qed.

(** One tick from a settled state that is farther than 0.0001 from the
    target and no farther than [far] from it, [far] being less than the
    diameter: the squared distance shrinks by a factor that depends on [dt],
    the radius and [far] only. *)
Lemma updateRemoteInterpolation_contracts (dt far : R) (target : Vector3)
      (p : Player) :
  0 < dt ->
  settledOn target p ->
  distanceToTarget target p > 0.0001 ->
  distanceToTarget target p <= far ->
  far < 2 * (getBaseRadius + targetHeight p) ->
  let rho := getBaseRadius + targetHeight p in
  let s0 := Rmin (1 / 4) (POSITION_INTERPOLATION_SPEED * dt / (2 * rho)) in
  let kappa := 1 - s0 * (4 * (rho * rho) - far * far) / (4 * (rho * rho)) in
  distanceToTarget target (updateRemoteInterpolation dt p)
  * distanceToTarget target (updateRemoteInterpolation dt p)
  <= kappa * (distanceToTarget target p * distanceToTarget target p).
Proof.
  intros Hdt (Htarget & Hvel & Hheight & Hrho & Hlt & Hlc) Hfar Hle Hopp. cbv zeta.
  set (rho := getBaseRadius + targetHeight p) in *.
  set (cur := interpolatedFrom p) in *.
  destruct (updateRemoteInterpolation_position dt p target Htarget)
    as (_ & _ & _ & Hmove & _).
  cbv zeta in Hmove. fold cur in Hmove.
  unfold distanceToTarget in Hfar, Hle. fold cur in Hfar, Hle.
  destruct (Hmove Hfar) as [Hc _].
  assert (Hfrom : interpolatedFrom (updateRemoteInterpolation dt p)
                  = interpolatedTo dt target p)
    by (unfold interpolatedFrom; rewrite Hc; reflexivity).
  assert (Hmaxpos : 0 < POSITION_INTERPOLATION_SPEED * dt)
    by (unfold POSITION_INTERPOLATION_SPEED; lra).
  assert (Hd2 : length (subtract target cur) <= 2 * rho) by lra.
  destruct (moveVector_fraction_lower (subtract target cur) (estimatedVelocity p)
              (POSITION_INTERPOLATION_SPEED * dt) (2 * rho) Hmaxpos Hvel)
    as (s & [Hs0 Hs1] & Hmv); [split; lra |].
  set (s0 := Rmin (1 / 4) (POSITION_INTERPOLATION_SPEED * dt / (2 * rho))) in *.
  assert (Hs0pos : 0 < s0).
  { unfold s0. apply Rmin_glb_lt; [lra |].
    apply Rdiv_lt_0_compat; lra. }
  assert (Hto : interpolatedTo dt target p
                = scale (normalize (add cur (scale (subtract target cur) s))) rho).
  { unfold interpolatedTo. fold cur.
    rewrite (interpolateHeight_settled dt p Hheight), Hheight, Hmv.
    reflexivity. }
  assert (Hsq : lengthSquared (subtract target cur) <= far * far).
  { rewrite <- length_sqr.
    pose proof (length_nonneg (subtract target cur)). nra. }
  assert (Hfar2 : far * far < 4 * (rho * rho)).
  { assert (0 < far) by lra. nra. }
  pose proof (reproject_contraction cur target rho s Hrho Hlc Hlt
                (conj (Rle_trans _ _ _ (Rlt_le _ _ Hs0pos) Hs0) Hs1)) as Hcon.
  cbv zeta in Hcon. rewrite <- Hto, <- Hfrom in Hcon.
  specialize (Hcon (Rle_lt_trans _ _ _ Hsq Hfar2)).
  unfold distanceToTarget. fold cur. rewrite !length_sqr.
  eapply Rle_trans; [exact Hcon |].
  rewrite Rmult_comm.
  apply Rmult_le_compat_r; [apply lengthSquared_nonneg |].
  assert (Hrr : 0 < 4 * (rho * rho)) by nra.
  assert (Hnum : s0 * (4 * (rho * rho) - far * far)
                 <= s * (4 * (rho * rho) - lengthSquared (subtract target cur))).
  { apply Rmult_le_compat; lra. }
  assert (Hdiv : s0 * (4 * (rho * rho) - far * far) / (4 * (rho * rho))
                 <= s * (4 * (rho * rho) - lengthSquared (subtract target cur))
                    / (4 * (rho * rho))).
  { unfold Rdiv. apply Rmult_le_compat_r; [| exact Hnum].
    left. apply Rinv_0_lt_compat. exact Hrr. }
  lra.
Qed.

(** Within 0.0001 of the target a tick leaves the position where it is. *)
Lemma updateRemoteInterpolation_at_rest (dt : R) (target : Vector3) (p : Player) :
  targetPosition p = Some target ->
  distanceToTarget target p <= 0.0001 ->
  interpolatedFrom (updateRemoteInterpolation dt p) = interpolatedFrom p
  /\ mesh_position (updateRemoteInterpolation dt p) = mesh_position p.
Proof.
  intros Htarget Hnear.
  destruct (updateRemoteInterpolation_position dt p target Htarget)
    as (_ & _ & _ & _ & Hstay).
  cbv zeta in Hstay. unfold distanceToTarget in Hnear.
  destruct Hstay as [Hc Hm]; [lra |].
  split; [| exact Hm].
  unfold interpolatedFrom at 1. rewrite Hc. reflexivity.
Qed.

(** Repeated ticks of a fixed positive [dt] from a settled state that is not
    diametrically opposite its target: the squared distance shrinks
    geometrically until the position is within 0.0001 of the target. *)
Lemma iterated_rate (dt : R) (target : Vector3) (p : Player) (n : nat) :
  0 < dt ->
  settledOn target p ->
  distanceToTarget target p < 2 * (getBaseRadius + targetHeight p) ->
  let rho := getBaseRadius + targetHeight p in
  let far := distanceToTarget target p in
  let s0 := Rmin (1 / 4) (POSITION_INTERPOLATION_SPEED * dt / (2 * rho)) in
  let kappa := 1 - s0 * (4 * (rho * rho) - far * far) / (4 * (rho * rho)) in
  let q := Nat.iter n (updateRemoteInterpolation dt) p in
  0 <= kappa < 1
  /\ (distanceToTarget target q <= 0.0001
      \/ distanceToTarget target q * distanceToTarget target q
         <= kappa ^ n * (far * far)).
Proof.
  intros Hdt Hsettled Hopp. cbv zeta.
  set (rho := getBaseRadius + targetHeight p) in *.
  set (far := distanceToTarget target p) in *.
  set (s0 := Rmin (1 / 4) (POSITION_INTERPOLATION_SPEED * dt / (2 * rho))).
  set (kappa := 1 - s0 * (4 * (rho * rho) - far * far) / (4 * (rho * rho))).
  assert (Hrho : 0 < rho) by apply Hsettled.
  assert (Hfar0 : 0 <= far) by (unfold far, distanceToTarget; apply length_nonneg).
  assert (Hs0 : 0 < s0 <= 1 / 4).
  { unfold s0. split; [| apply Rmin_l].
    apply Rmin_glb_lt; [lra |].
    apply Rdiv_lt_0_compat; unfold POSITION_INTERPOLATION_SPEED; lra. }
  assert (Hgap : 0 < (4 * (rho * rho) - far * far) / (4 * (rho * rho)) <= 1).
  { assert (Hrr : 0 < 4 * (rho * rho)) by nra.
    assert (Hff : 0 <= far * far) by nra.
    assert (Hlt : far * far < 4 * (rho * rho)) by nra.
    split.
    - apply Rdiv_lt_0_compat; lra.
    - apply Rmult_le_reg_r with (r := 4 * (rho * rho)); [exact Hrr |].
      replace ((4 * (rho * rho) - far * far) / (4 * (rho * rho)) * (4 * (rho * rho)))
        with (4 * (rho * rho) - far * far) by (field; lra).
      lra. }
  assert (Hkappa : 0 <= kappa < 1).
  { unfold kappa.
    replace (s0 * (4 * (rho * rho) - far * far) / (4 * (rho * rho)))
      with (s0 * ((4 * (rho * rho) - far * far) / (4 * (rho * rho))))
      by (unfold Rdiv; ring).
    set (g := (4 * (rho * rho) - far * far) / (4 * (rho * rho))) in *.
    assert (0 < s0 * g) by (apply Rmult_lt_0_compat; lra).
    assert (s0 * g <= 1 / 4 * 1) by (apply Rmult_le_compat; lra).
    lra. }
  split; [exact Hkappa |].
  induction n as [| k IH].
  - right. change (Nat.iter 0 (updateRemoteInterpolation dt) p) with p.
    fold far. cbn [pow]. lra.
  - rewrite Nat.iter_succ.
    destruct (iterated_settled dt target p k (Rlt_le _ _ Hdt) Hsettled)
      as (Hsk & Hhk & Hdk).
    cbv zeta in Hsk, Hhk, Hdk.
    set (q := Nat.iter k (updateRemoteInterpolation dt) p) in *.
    destruct (updateRemoteInterpolation_settled dt target q (Rlt_le _ _ Hdt) Hsk)
      as (_ & _ & Hmono & _).
    cbv zeta in Hmono.
    destruct (Rgt_dec (distanceToTarget target q) 0.0001) as [Hfar | Hnear].
    + right.
      destruct IH as [IH | IH]; [lra |].
      pose proof (updateRemoteInterpolation_contracts dt far target q Hdt Hsk Hfar)
        as Hcon.
      cbv zeta in Hcon. rewrite Hhk in Hcon. fold rho s0 kappa in Hcon.
      fold far in Hdk.
      specialize (Hcon Hdk Hopp).
      eapply Rle_trans; [exact Hcon |].
      cbn [pow]. rewrite Rmult_assoc.
      apply Rmult_le_compat_l; [lra | exact IH].
    + left. lra.
Qed.

(** From some tick on the position is within 0.0001 of the target, and no
    later tick moves it. *)
Lemma iterated_arrives (dt : R) (target : Vector3) (p : Player) :
  0 < dt ->
  settledOn target p ->
  distanceToTarget target p < 2 * (getBaseRadius + targetHeight p) ->
  exists N, forall m, (N <= m)%nat ->
    let q := Nat.iter m (updateRemoteInterpolation dt) p in
    let r := Nat.iter N (updateRemoteInterpolation dt) p in
    distanceToTarget target q <= 0.0001
    /\ interpolatedFrom q = interpolatedFrom r
    /\ mesh_position q = mesh_position r.
Proof.
  intros Hdt Hsettled Hopp.
  set (far := distanceToTarget target p).
  assert (Hfar0 : 0 <= far) by (unfold far, distanceToTarget; apply length_nonneg).
  destruct (iterated_rate dt target p 0 Hdt Hsettled Hopp) as [Hkappa _].
  cbv zeta in Hkappa. fold far in Hkappa.
  set (kappa := 1 - _) in Hkappa.
  assert (Hy : 0 < 0.0001 * 0.0001 / (far * far + 1)).
  { apply Rdiv_lt_0_compat; nra. }
  destruct (pow_lt_1_zero kappa (eq_ind_r (fun x => x < 1)
                                   (proj2 Hkappa) (Rabs_pos_eq _ (proj1 Hkappa)))
              _ Hy) as [N HN].
  exists N.
  assert (Hat : distanceToTarget target
                  (Nat.iter N (updateRemoteInterpolation dt) p) <= 0.0001).
  { destruct (iterated_rate dt target p N Hdt Hsettled Hopp) as [_ [Hnear | Hrate]];
      [exact Hnear |].
    cbv zeta in Hrate. fold far kappa in Hrate.
    specialize (HN N (Nat.le_refl N)).
    rewrite Rabs_pos_eq in HN by (apply pow_le; lra).
    set (d := distanceToTarget target
                (Nat.iter N (updateRemoteInterpolation dt) p)) in *.
    assert (Hd0 : 0 <= d) by (unfold d, distanceToTarget; apply length_nonneg).
    assert (Hff : 0 < far * far + 1) by nra.
    assert (Hk : kappa ^ N * (far * far + 1) < 0.0001 * 0.0001).
    { apply Rmult_lt_reg_r with (r := / (far * far + 1));
        [apply Rinv_0_lt_compat; exact Hff |].
      rewrite Rmult_assoc, Rinv_r, Rmult_1_r by lra. exact HN. }
    assert (Hkn : 0 <= kappa ^ N) by (apply pow_le; lra).
    assert (Hkf : kappa ^ N * (far * far) <= kappa ^ N * (far * far + 1))
      by (apply Rmult_le_compat_l; lra).
    assert (Hdd : d * d < 0.0001 * 0.0001) by lra.
    destruct (Rle_dec d 0.0001) as [Hle | Hgt]; [exact Hle | nra]. }
  intros m Hm. cbv zeta.
  induction Hm as [| k Hk (IHd & IHf & IHm)].
  - split; [exact Hat |]. split; reflexivity.
  - rewrite Nat.iter_succ.
    destruct (iterated_settled dt target p k (Rlt_le _ _ Hdt) Hsettled)
      as ((Htarget & _) & _).
    cbv zeta in Htarget.
    destruct (updateRemoteInterpolation_at_rest dt target _ Htarget IHd)
      as [Hf Hmesh].
    split; [| split; congruence].
    unfold distanceToTarget in *. rewrite Hf. exact IHd.
Qed.

(** A settled body diametrically opposite its target is left where it is by
    every tick: the limited step along the diameter is undone by the
    re-projection. *)
Lemma updateRemoteInterpolation_opposite (dt : R) (p : Player) :
  0 <= dt ->
  settledOn (scale (interpolatedFrom p) (-1)) p ->
  interpolatedFrom (updateRemoteInterpolation dt p) = interpolatedFrom p.
Proof.
  intros Hdt (Htarget & Hvel & Hheight & Hrho & Hlt & Hlc).
  set (cur := interpolatedFrom p) in *.
  set (rho := getBaseRadius + targetHeight p) in *.
  destruct (updateRemoteInterpolation_position dt p _ Htarget)
    as (_ & _ & _ & Hmove & Hstay).
  cbv zeta in Hmove, Hstay. fold cur in Hmove, Hstay.
  destruct (Rgt_dec (length (subtract (scale cur (-1)) cur)) 0.0001)
    as [Hfar | Hnear].
  - destruct (Hmove Hfar) as [Hc _].
    unfold interpolatedFrom at 1. rewrite Hc.
    unfold interpolatedTo. fold cur.
    rewrite (interpolateHeight_settled dt p Hheight), Hheight. fold rho.
    assert (Hmaxpos : 0 <= POSITION_INTERPOLATION_SPEED * dt)
      by (unfold POSITION_INTERPOLATION_SPEED; lra).
    destruct (moveVector_fraction (subtract (scale cur (-1)) cur)
                (estimatedVelocity p) (POSITION_INTERPOLATION_SPEED * dt)
                Hmaxpos Hvel) as (s & Hs & _ & Hmv).
    rewrite Hmv.
    replace (add cur (scale (subtract (scale cur (-1)) cur) s))
      with (scale cur (1 - 2 * s))
      by (unfold add, scale, subtract; simpl; f_equal; ring).
    assert (Hlen : length (scale cur (1 - 2 * s)) = rho * (1 - 2 * s))
      by (rewrite length_scale, Hlc, Rabs_pos_eq by lra; reflexivity).
    assert (Hpos : 0 < rho * (1 - 2 * s)) by (apply Rmult_lt_0_compat; lra).
    unfold normalize. rewrite Hlen.
    destruct (Req_dec_T (rho * (1 - 2 * s)) 0); [lra |].
    rewrite !scale_scale.
    clearbody cur. destruct cur as [x y z].
    unfold scale. simpl. f_equal; field; lra.
  - destruct (Hstay Hnear) as [Hc _].
    unfold interpolatedFrom at 1. rewrite Hc. reflexivity.
Qed.

Lemma iterated_opposite (dt : R) (p : Player) (n : nat) :
  0 <= dt ->
  settledOn (scale (interpolatedFrom p) (-1)) p ->
  interpolatedFrom (Nat.iter n (updateRemoteInterpolation dt) p)
  = interpolatedFrom p.
Proof.
  intros Hdt Hsettled.
  induction n as [| k IH]; [reflexivity |].
  rewrite Nat.iter_succ.
  destruct (iterated_settled dt _ p k Hdt Hsettled) as (Hsk & _).
  cbv zeta in Hsk. rewrite <- IH in Hsk at 1.
  rewrite (updateRemoteInterpolation_opposite dt _ Hdt Hsk). exact IH.
Qed.

(** A tick of no time leaves a settled body where it is, whatever its
    distance from the target. *)
Lemma updateRemoteInterpolation_still (target : Vector3) (p : Player) :
  settledOn target p ->
  interpolatedFrom (updateRemoteInterpolation 0 p) = interpolatedFrom p.
Proof.
  intros (Htarget & Hvel & Hheight & Hrho & Hlt & Hlc).
  set (cur := interpolatedFrom p) in *.
  set (rho := getBaseRadius + targetHeight p) in *.
  destruct (updateRemoteInterpolation_position 0 p _ Htarget)
    as (_ & _ & _ & Hmove & Hstay).
  cbv zeta in Hmove, Hstay. fold cur in Hmove, Hstay.
  destruct (Rgt_dec (length (subtract target cur)) 0.0001) as [Hfar | Hnear].
  - destruct (Hmove Hfar) as [Hc _].
    unfold interpolatedFrom at 1. rewrite Hc.
    unfold interpolatedTo. fold cur.
    rewrite (interpolateHeight_settled 0 p Hheight), Hheight. fold rho.
    assert (Hzero : moveVector (subtract target cur) (estimatedVelocity p)
                               (POSITION_INTERPOLATION_SPEED * 0) = Zero).
    { apply length_zero_iff.
      pose proof (moveVector_bounded (subtract target cur) (estimatedVelocity p)
                    (POSITION_INTERPOLATION_SPEED * 0)) as Hb.
      pose proof (length_nonneg
                    (moveVector (subtract target cur) (estimatedVelocity p)
                                (POSITION_INTERPOLATION_SPEED * 0))) as Hn.
      rewrite Rmult_0_r in *. specialize (Hb (Rle_refl 0)). lra. }
    rewrite Hzero.
    assert (Hadd : add cur Zero = cur).
    { clear. destruct cur as [x y z]. unfold add, Zero. simpl. f_equal; ring. }
    rewrite Hadd.
    unfold normalize. rewrite Hlc.
    destruct (Req_dec_T rho 0); [lra |].
    rewrite scale_scale.
    clearbody cur. destruct cur as [x y z].
    unfold scale. simpl. f_equal; field; lra.
  - destruct (Hstay Hnear) as [Hc _].
    unfold interpolatedFrom at 1. rewrite Hc. reflexivity.
Qed.

Lemma iterated_still (target : Vector3) (p : Player) (n : nat) :
  settledOn target p ->
  interpolatedFrom (Nat.iter n (updateRemoteInterpolation 0) p)
  = interpolatedFrom p.
Proof.
  intros Hsettled.
  induction n as [| k IH]; [reflexivity |].
  rewrite Nat.iter_succ.
  destruct (iterated_settled 0 target p k (Rle_refl 0) Hsettled) as (Hsk & _).
  cbv zeta in Hsk.
  rewrite (updateRemoteInterpolation_still target _ Hsk). exact IH.
Qed.

(** C5, as the code has it. With the target held fixed, no velocity estimate
    in use, and the interpolated height settled on the target's sphere,
    every one of any number of repeated ticks with [0 <= dt] leaves the
    interpolated position no farther from the target than it was, on the
    target's side of it (never past it), and on the same sphere; with
    [0 < dt], and the start not diametrically opposite the target, every
    tick taken farther than 0.0001 from the target brings the position
    strictly closer, and after finitely many ticks the position is within
    0.0001 of the target, where every later tick leaves it. *)
Theorem interpolation_starved_monotone (dt : R) (target : Vector3) (p : Player)
        (n : nat) :
  0 <= dt ->
  settledOn target p ->
  let before := Nat.iter n (updateRemoteInterpolation dt) p in
  let after := updateRemoteInterpolation dt before in
  distanceToTarget target after <= distanceToTarget target before
  /\ 0 <= Dot (subtract target (interpolatedFrom after))
              (subtract target (interpolatedFrom before))
  /\ settledOn target after
  /\ (0 < dt ->
      distanceToTarget target p < 2 * (getBaseRadius + targetHeight p) ->
      distanceToTarget target before > 0.0001 ->
      distanceToTarget target after < distanceToTarget target before)
  /\ (0 < dt ->
      distanceToTarget target p < 2 * (getBaseRadius + targetHeight p) ->
      exists N, forall m, (N <= m)%nat ->
        let later := Nat.iter m (updateRemoteInterpolation dt) p in
        let arrived := Nat.iter N (updateRemoteInterpolation dt) p in
        distanceToTarget target later <= 0.0001
        /\ interpolatedFrom later = interpolatedFrom arrived
        /\ mesh_position later = mesh_position arrived).
Proof.
  intros Hdt Hsettled. cbv zeta.
  destruct (iterated_settled dt target p n Hdt Hsettled) as (Hinv & Hh & Hd).
  destruct (updateRemoteInterpolation_settled dt target _ Hdt Hinv)
    as (Hs & _ & Hcloser & Hside & Hstrict).
  split; [exact Hcloser |]. split; [exact Hside |]. split; [exact Hs |].
  split.
  - intros Hpos Hopp Hfar. apply Hstrict; [exact Hpos |].
    rewrite Hh. lra.
  - intros Hpos Hopp. exact (iterated_arrives dt target p Hpos Hsettled Hopp).
Qed.

(** *** Lengths of given vectors *)

Lemma length_eq (v : Vector3) (b : R) :
  0 <= b -> lengthSquared v = b * b -> length v = b.
Proof. intros Hb H. unfold length. rewrite H. apply sqrt_square. exact Hb. Qed.

Lemma length_le (v : Vector3) (b : R) :
  0 <= b -> lengthSquared v <= b * b -> length v <= b.
Proof.
  intros Hb H. unfold length. rewrite <- (sqrt_square b Hb).
  apply sqrt_le_1_alt. exact H.
Qed.

Lemma length_gt (v : Vector3) (b : R) :
  0 <= b -> b * b < lengthSquared v -> length v > b.
Proof.
  intros Hb H. unfold length. rewrite <- (sqrt_square b Hb).
  apply Rlt_gt. apply sqrt_lt_1_alt. split; [nra | exact H].
Qed.

Lemma length_lt_length (a b : Vector3) :
  lengthSquared a < lengthSquared b -> length a < length b.
Proof.
  intros H. unfold length. apply sqrt_lt_1_alt.
  split; [apply lengthSquared_nonneg | exact H].
Qed.

Lemma normalize_of_length (v : Vector3) (b : R) :
  0 < b -> lengthSquared v = b * b -> normalize v = scale v (1 / b).
Proof.
  intros Hb H. unfold normalize.
  rewrite (length_eq v b (Rlt_le _ _ Hb) H).
  destruct (Req_dec_T b 0); [lra | reflexivity].
Qed.

(** The step when the velocity estimate is used and the limit is not hit. *)
Lemma moveVector_predicted (toTarget ev : Vector3) (maxPositionDelta : R) :
  length ev > 0.001 ->
  length (add (scale toTarget (1 / 4)) (scale ev 0.2)) <= maxPositionDelta ->
  moveVector toTarget (Some ev) maxPositionDelta
  = add (scale toTarget (1 / 4)) (scale ev 0.2).
Proof.
  intros Hev Hfit. unfold moveVector.
  replace (Rmin 1.0 SMOOTHING_FACTOR) with (1 / 4)
    by (unfold SMOOTHING_FACTOR; rewrite Rmin_right; lra).
  destruct (Rgt_dec (length ev) 0.001); [| contradiction].
  destruct (Rgt_dec _ maxPositionDelta); [lra | reflexivity].
Qed.



(** The step when there is no estimate and the limit is not hit. *)
Lemma moveVector_plain (toTarget : Vector3) (maxPositionDelta : R) :
  length (scale toTarget (1 / 4)) <= maxPositionDelta ->
  moveVector toTarget None maxPositionDelta = scale toTarget (1 / 4).
Proof.
  intros Hfit. unfold moveVector.
  replace (Rmin 1.0 SMOOTHING_FACTOR) with (1 / 4)
    by (unfold SMOOTHING_FACTOR; rewrite Rmin_right; lra).
  destruct (Rgt_dec _ maxPositionDelta); [lra | reflexivity].
Qed.

(** Re-projection of a point of the positive [z] axis. *)
Lemma reproject_z_axis (z r : R) :
  0 < z -> scale (normalize (mkVector3 0 0 z)) r = mkVector3 0 0 r.
Proof.
  intros Hz.
  rewrite (normalize_of_length (mkVector3 0 0 z) z Hz)
    by (unfold lengthSquared; simpl; ring).
  unfold scale. simpl. f_equal; field; lra.
Qed.

Lemma length_z_axis (z : R) : 0 <= z -> length (mkVector3 0 0 z) = z.
Proof.
  intros Hz. apply length_eq; [exact Hz |]. unfold lengthSquared. simpl. ring.
Qed.

(** ** The arc of a lateral step *)

Lemma normalize_eq (a : Vector3) :
  a <> Zero -> normalize a = scale a (1 / length a).
Proof.
  intros Ha. unfold normalize.
  destruct (Req_dec_T (length a) 0) as [E | NE]; [| reflexivity].
  apply length_zero_iff in E. contradiction.
Qed.

Lemma normalize_unit (a : Vector3) : length a = 1 -> normalize a = a.
Proof.
  intros H. unfold normalize. rewrite H.
  destruct (Req_dec_T 1 0); [lra |].
  unfold scale. destruct a as [x y z]. simpl. f_equal; field.
Qed.

Lemma length_pos (a : Vector3) : a <> Zero -> 0 < length a.
Proof.
  intros Ha. pose proof (length_nonneg a) as H.
  destruct (Req_dec_T (length a) 0) as [E | NE]; [| lra].
  apply length_zero_iff in E. contradiction.
Qed.

(** The orbit axis is the cross product of the travel axis and the position,
    scaled to unit length and turned round. *)
Lemma orbitDirection_eq (crossAxis pos : Vector3) :
  Cross crossAxis pos <> Zero ->
  normalize (Cross crossAxis (normalize (subtract Zero pos)))
  = scale (Cross crossAxis pos) (- (1 / length (Cross crossAxis pos))).
Proof.
  intros Hc. pose proof (Cross_Zero_neq _ _ Hc) as Hp.
  pose proof (length_pos _ Hp) as Hlp. pose proof (length_pos _ Hc) as Hlc.
  rewrite subtract_Zero_l.
  assert (Hneg : scale pos (-1) <> Zero) by (apply scale_neq_Zero; [exact Hp | lra]).
  rewrite (normalize_eq _ Hneg), length_scale, scale_scale.
  replace (Rabs (-1)) with 1 by (rewrite Rabs_left; lra).
  rewrite Cross_scale_r.
  set (k := -1 * (1 / (length pos * 1))).
  assert (Hk : k = - (1 / length pos)) by (unfold k; field; lra).
  assert (Hk0 : k < 0).
  { rewrite Hk. assert (0 < 1 / length pos) by (apply Rdiv_lt_0_compat; lra). lra. }
  rewrite normalize_eq by (apply scale_neq_Zero; [exact Hc | lra]).
  rewrite length_scale, scale_scale, (Rabs_left k) by exact Hk0.
  f_equal. field. split; lra.
Qed.

(** Rodrigues' formula read off the matrix, on the two dot products that
    locate the rotated point: about a unit axis perpendicular to [p]. *)
Lemma rotated_dots (n p c : Vector3) (k angle : R) :
  k * k * lengthSquared n = 1 ->
  Dot n p = 0 ->
  let r := TransformCoordinates p (RotationAxis (scale n k) angle) in
  Dot p r = lengthSquared p * cos angle
  /\ Dot r c = Dot p c * cos angle
               + k * (Dot (Cross n p) c) * sin angle.
Proof.
  intros Hk Hnp.
  assert (Hunit : length (scale n k) = 1).
  { apply sqrt_lem_1; [apply lengthSquared_nonneg | lra |].
    replace (lengthSquared (scale n k)) with (k * k * lengthSquared n)
      by (unfold lengthSquared, scale; simpl; ring).
    lra. }
  cbv zeta. unfold RotationAxis. rewrite (normalize_unit _ Hunit).
  rewrite sin_neg, cos_neg.
  unfold TransformCoordinates, Dot, Cross, scale, lengthSquared in *.
  destruct n as [nx ny nz]. destruct p as [px py pz]. destruct c as [cx cy cz].
  simpl in *.
  replace (1 / (px * 0 + py * 0 + pz * 0 + 1)) with 1 by (field; lra).
  set (s := sin angle). set (co := cos angle).
  split.
  - transitivity ((px * px + py * py + pz * pz) * co
                  + (1 - co) * (k * k) * ((nx * px + ny * py + nz * pz)
                                          * (nx * px + ny * py + nz * pz))).
    + ring.
    + rewrite Hnp. ring.
  - transitivity ((px * cx + py * cy + pz * cz) * co
                  + k * ((ny * pz - nz * py) * cx + (nz * px - nx * pz) * cy
                         + (nx * py - ny * px) * cz) * s
                  + (1 - co) * (k * k) * (nx * px + ny * py + nz * pz)
                    * (nx * cx + ny * cy + nz * cz)).
    + ring.
    + rewrite Hnp. ring.
Qed.

(** X1. A lateral step from the surface turns the position by exactly the
    angle [movementSpeed * dt] about the planet's centre, and towards the
    travel axis: the component of the position along the travel axis is the
    old one times the cosine plus the length of the cross product with the
    position times the sine. *)
Theorem moveAlongOrbit_arc (crossAxis : Vector3) (dt : R) (p : Player) :
  onSurface p ->
  0 < getBaseRadius + heightAboveSurface p ->
  Cross crossAxis (mesh_position p) <> Zero ->
  let p' := moveAlongOrbit crossAxis dt p in
  let angle := movementSpeed * dt in
  let radius := getBaseRadius + heightAboveSurface p in
  Dot (mesh_position p) (mesh_position p') = radius * radius * cos angle
  /\ Dot (mesh_position p') crossAxis
     = Dot (mesh_position p) crossAxis * cos angle
       + length (Cross crossAxis (mesh_position p)) * sin angle.
Proof.
  intros Hon Hr Hc. cbv zeta.
  rewrite moveAlongOrbit_position, orbitDirection_eq by exact Hc.
  unfold onSurface in Hon.
  set (pos := mesh_position p) in *.
  set (rho := getBaseRadius + heightAboveSurface p) in *.
  set (n := Cross crossAxis pos) in *.
  pose proof (length_pos _ Hc) as HN. pose proof (length_sqr n) as HNN.
  set (k := - (1 / length n)).
  assert (Hk : k * k * lengthSquared n = 1).
  { rewrite <- HNN. unfold k. field. lra. }
  assert (Hnp : Dot n pos = 0) by (unfold n, Dot, Cross; simpl; ring).
  destruct (rotated_dots n pos crossAxis k (movementSpeed * dt) Hk Hnp)
    as [Hpr Hrc].
  set (r := TransformCoordinates pos (RotationAxis (scale n k) (movementSpeed * dt))) in *.
  assert (Hp2 : lengthSquared pos = rho * rho) by (rewrite <- length_sqr, Hon; ring).
  assert (Hr2 : lengthSquared r = rho * rho).
  { unfold r. rewrite TransformCoordinates_RotationAxis_lengthSquared; [exact Hp2 |].
    apply scale_neq_Zero; [exact Hc |].
    unfold k. assert (0 < 1 / length n) by (apply Rdiv_lt_0_compat; lra). lra. }
  assert (Hnew : scale (normalize r) rho = r).
  { rewrite (normalize_of_length r rho Hr Hr2), scale_scale.
    unfold scale. destruct r as [x y z]. simpl. f_equal; field; lra. }
  rewrite Hnew. split.
  - rewrite Hpr, Hp2. reflexivity.
  - rewrite Hrc. f_equal.
    replace (Dot (Cross n pos) crossAxis) with (- lengthSquared n)
      by (unfold n, lengthSquared, Dot, Cross; simpl; ring).
    rewrite <- HNN. unfold k. field. lra.
Qed.

(** ** The life of a projectile *)

Lemma Projectile_move_position (q : Projectile) :
  Cross (startDirection q) (position (proj_mesh q)) <> Zero ->
  let pos := position (proj_mesh q) in
  let pos' := position (proj_mesh (Projectile_move q)) in
  length pos' = length pos
  /\ Dot pos pos' = lengthSquared pos * cos (speed * 0.016).
Proof.
  intros Hc. cbv zeta. unfold Projectile_move. cbn [proj_mesh position set_position].
  rewrite orbitDirection_eq by exact Hc.
  set (pos := position (proj_mesh q)) in *.
  set (n := Cross (startDirection q) pos) in *.
  pose proof (length_pos _ Hc) as HN. pose proof (length_sqr n) as HNN.
  set (k := - (1 / length n)).
  assert (Hk : k * k * lengthSquared n = 1).
  { rewrite <- HNN. unfold k. field. lra. }
  assert (Hnp : Dot n pos = 0) by (unfold n, Dot, Cross; simpl; ring).
  destruct (rotated_dots n pos pos k (speed * 0.016) Hk Hnp) as [Hpr _].
  split; [| exact Hpr].
  unfold length. f_equal.
  apply TransformCoordinates_RotationAxis_lengthSquared.
  apply scale_neq_Zero; [exact Hc |].
  unfold k. assert (0 < 1 / length n) by (apply Rdiv_lt_0_compat; lra). lra.
Qed.

(** What [Projectile.update] returns and leaves, case by case. *)
Lemma Projectile_update_cases (now : Z) (scene : list AbstractMesh) (q : Projectile) :
  (isActive q = false /\ Projectile_update now scene q = (q, None, false))
  \/ (isActive q = true /\ (now - spawnTime q > lifespan)%Z
      /\ Projectile_update now scene q = (Projectile_dispose q, None, false))
  \/ (isActive q = true /\ (now - spawnTime q <= lifespan)%Z
      /\ exists target rest,
           filter (collides (Projectile_move q)) scene = target :: rest
           /\ Projectile_update now scene q
              = (Projectile_dispose (Projectile_move q), Some target, false))
  \/ (isActive q = true /\ (now - spawnTime q <= lifespan)%Z
      /\ filter (collides (Projectile_move q)) scene = []
      /\ Projectile_update now scene q = (Projectile_move q, None, true)).
Proof.
  unfold Projectile_update.
  destruct (isActive q) eqn:Hact; cbn [negb]; [| left; split; reflexivity].
  right.
  destruct (now - spawnTime q >? lifespan)%Z eqn:Hage.
  - left. apply Z.gtb_gt in Hage. repeat split; assumption.
  - right.
    assert (Hyoung : (now - spawnTime q <= lifespan)%Z).
    { destruct (Z.gtb_spec (now - spawnTime q) lifespan); [discriminate | lia]. }
    destruct (filter (collides (Projectile_move q)) scene) as [| t rest] eqn:Hf.
    + right. repeat split; assumption.
    + left. repeat split; try assumption. exists t, rest. split; reflexivity.
Qed.

(** X2. A projectile keeps its distance from the planet's centre through
    every update, although its position is never re-projected; an update
    that moves it (the projectile is active and within its lifespan) turns
    it by 0.016 rad about the centre, whatever the frame time. *)
Theorem Projectile_update_orbit (now : Z) (scene : list AbstractMesh)
        (q : Projectile) :
  Cross (startDirection q) (position (proj_mesh q)) <> Zero ->
  let pos := position (proj_mesh q) in
  let pos' := position (proj_mesh (fst (fst (Projectile_update now scene q)))) in
  length pos' = length pos
  /\ (isActive q = true -> (now - spawnTime q <= lifespan)%Z ->
      Dot pos pos' = lengthSquared pos * cos (speed * 0.016)).
Proof.
  intros Hc. cbv zeta.
  destruct (Projectile_move_position q Hc) as [Hlen Hdot].
  destruct (Projectile_update_cases now scene q)
    as [[Hact ->] | [(Hact & Hold & ->) | [(Hact & Hyoung & t & rest & _ & ->)
                                          | (Hact & Hyoung & _ & ->)]]];
    cbn [fst snd Projectile_dispose proj_mesh].
  - split; [reflexivity | intros H; congruence].
  - split; [reflexivity | intros _ H; lia].
  - split; [exact Hlen | intros _ _; exact Hdot].
  - split; [exact Hlen | intros _ _; exact Hdot].
Qed.

(** X3. Once [Projectile.update] has returned [false] (the projectile was
    inactive, expired, or hit something) every later update, at any clock
    and in any scene, returns [false] again, calls no [onHit] and changes
    nothing: a projectile reports at most one hit.  An update that returns
    [true] calls no [onHit] and leaves the projectile active. *)
Theorem Projectile_update_retired (now : Z) (scene : list AbstractMesh)
        (q : Projectile) :
  let q' := fst (fst (Projectile_update now scene q)) in
  (snd (Projectile_update now scene q) = false ->
   isActive q' = false
   /\ forall now' scene',
        Projectile_update now' scene' q' = (q', None, false))
  /\ (snd (Projectile_update now scene q) = true ->
      isActive q' = true /\ snd (fst (Projectile_update now scene q)) = None).
Proof.
  cbv zeta.
  assert (Hretired : forall x, isActive x = false ->
            forall now' scene', Projectile_update now' scene' x = (x, None, false)).
  { intros x Hx now' scene'. unfold Projectile_update. rewrite Hx. reflexivity. }
  destruct (Projectile_update_cases now scene q)
    as [[Hact ->] | [(Hact & Hold & ->) | [(Hact & Hyoung & t & rest & _ & ->)
                                          | (Hact & Hyoung & _ & ->)]]];
    cbn [fst snd].
  - split; [intros _; split; [exact Hact | apply Hretired; exact Hact] |].
    intros H; discriminate.
  - split; [intros _; split; [reflexivity | apply Hretired; reflexivity] |].
    intros H; discriminate.
  - split; [intros _; split; [reflexivity | apply Hretired; reflexivity] |].
    intros H; discriminate.
  - split; [intros H; discriminate |].
    intros _. split; [exact Hact | reflexivity].
Qed.

(** X4. One pass of [projectiles.filter(p => p.update())]: every projectile
    that stays is active, no older than its lifespan, and is an input
    projectile after its orbital step; a projectile that scores a frag does
    not stay, so the projectiles kept and the frags counted together are at
    most the projectiles that went in. *)
Theorem updateProjectiles_survivors (now : Z) (scene : list AbstractMesh)
        (self : string) (ps : list Projectile) :
  Forall (fun q' => isActive q' = true
                    /\ (now - spawnTime q' <= lifespan)%Z
                    /\ exists q, In q ps /\ isActive q = true
                                 /\ q' = Projectile_move q)
         (fst (updateProjectiles now scene self ps))
  /\ (List.length (fst (updateProjectiles now scene self ps))
      + snd (updateProjectiles now scene self ps) <= List.length ps)%nat.
Proof.
  induction ps as [| q rest [IHkept IHcount]].
  - split; [constructor | apply Nat.le_refl].
  - cbn [updateProjectiles].
    destruct (updateProjectiles now scene self rest) as [rest1 n] eqn:Hrest.
    cbn [fst snd] in IHkept, IHcount.
    assert (Hweaken :
              Forall (fun q' => isActive q' = true
                                /\ (now - spawnTime q' <= lifespan)%Z
                                /\ exists q0, In q0 (q :: rest) /\ isActive q0 = true
                                              /\ q' = Projectile_move q0) rest1).
    { eapply Forall_impl; [| exact IHkept].
      intros q' (Ha & Hl & q0 & Hin & Ha0 & E).
      repeat split; try assumption. exists q0. repeat split; try assumption.
      right. exact Hin. }
    destruct (Projectile_update_cases now scene q)
      as [[Hact ->] | [(Hact & Hold & ->) | [(Hact & Hyoung & t & more & _ & ->)
                                            | (Hact & Hyoung & _ & ->)]]];
      cbn [fst snd List.length].
    + split; [exact Hweaken | lia].
    + split; [exact Hweaken | lia].
    + split; [exact Hweaken |]. destruct (countsAsFrag self t); lia.
    + split; [| cbn [List.length]; lia].
      constructor; [| exact Hweaken].
      split; [exact Hact |]. split; [exact Hyoung |].
      exists q. split; [left; reflexivity |]. split; [exact Hact | reflexivity].
Qed.

(** ** What the controls leave alone *)

Lemma keepsVitals_refl (p : Player) : keepsVitals p p.
Proof. unfold keepsVitals. repeat split. Qed.

Lemma keepsVitals_trans (p q r : Player) :
  keepsVitals p q -> keepsVitals q r -> keepsVitals p r.
Proof.
  unfold keepsVitals.
  intros (a1 & a2 & a3 & a4 & a5 & a6 & a7 & a8 & a9)
         (b1 & b2 & b3 & b4 & b5 & b6 & b7 & b8 & b9).
  repeat split; congruence.
Qed.

Lemma moveAlongOrbit_keepsVitals (crossAxis : Vector3) (dt : R) (p : Player) :
  keepsVitals p (moveAlongOrbit crossAxis dt p).
Proof. unfold keepsVitals, moveAlongOrbit. repeat split. Qed.

Lemma rotate_keepsVitals (deltaRadians : R) (p : Player) :
  keepsVitals p (rotate deltaRadians p)
  /\ mesh_position (rotate deltaRadians p) = mesh_position p.
Proof.
  unfold rotate. destruct (isRemotePlayer p).
  - split; [apply keepsVitals_refl | reflexivity].
  - unfold keepsVitals. repeat split.
Qed.

(** X6. The controls move and turn the player and do nothing else: none of
    [strafeLeft], [strafeRight], [moveForward], [moveBackward] and [rotate]
    changes the height, the vertical velocity, the jetpack and its particles,
    the fuel, the projectiles in flight or the identity, and [rotate] leaves
    the position where it is. *)
Theorem controls_keep_vitals (dt : R) (p : Player) :
  keepsVitals p (strafeLeft dt p)
  /\ keepsVitals p (strafeRight dt p)
  /\ keepsVitals p (moveForward dt p)
  /\ keepsVitals p (moveBackward dt p)
  /\ keepsVitals p (rotate dt p)
  /\ mesh_position (rotate dt p) = mesh_position p.
Proof.
  unfold strafeLeft, strafeRight, moveForward, moveBackward.
  destruct (rotate_keepsVitals dt p) as [Hr Hp].
  destruct (isRemotePlayer p);
    repeat split; try apply keepsVitals_refl;
    try apply moveAlongOrbit_keepsVitals; try apply Hr; exact Hp.
Qed.

(** ** One pass of the render loop *)

Lemma updateFuel_others (dt : R) (p : Player) :
  jetpackActive (updateFuel dt p) = jetpackActive p
  /\ heightAboveSurface (updateFuel dt p) = heightAboveSurface p
  /\ verticalVelocity (updateFuel dt p) = verticalVelocity p
  /\ mesh_position (updateFuel dt p) = mesh_position p
  /\ projectiles (updateFuel dt p) = projectiles p
  /\ uuid (updateFuel dt p) = uuid p
  /\ isRemotePlayer (updateFuel dt p) = isRemotePlayer p.
Proof.
  unfold updateFuel. player_fields.
  destruct (jetpackActive p) eqn:Hj, (hasFuel p); split_decisions;
    repeat split; exact Hj.
Qed.

(** The gauge after a tick depends on the gauge and the jetpack switch
    before it, and on nothing else. *)
Lemma updateFuel_gauge (dt : R) (p q : Player) :
  jetpackActive p = jetpackActive q -> fuel p = fuel q -> hasFuel p = hasFuel q ->
  fuel (updateFuel dt p) = fuel (updateFuel dt q)
  /\ hasFuel (updateFuel dt p) = hasFuel (updateFuel dt q).
Proof.
  intros Hj Hf Hh. unfold updateFuel. player_fields. rewrite Hj, Hf, Hh.
  destruct (jetpackActive q), (hasFuel q) eqn:Hq; split_decisions;
    split; congruence.
Qed.

Lemma updateFuel_fuel_range (dt : R) (p : Player) :
  0 <= dt -> 0 <= fuel p <= MAX_FUEL -> 0 <= fuel (updateFuel dt p) <= MAX_FUEL.
Proof.
  intros Hdt Hf. unfold updateFuel, FUEL_BURN_RATE, FUEL_REFILL_RATE, MAX_FUEL in *.
  player_fields.
  destruct (jetpackActive p), (hasFuel p); split_decisions; lra.
Qed.

(** A local physics tick, step by step. *)
Lemma updatePhysics_local (now : Z) (scene : list AbstractMesh)
      (dt : R) (p : Player) :
  isRemotePlayer p = false ->
  fst (updatePhysics now scene dt p)
  = let p1 := updateFuel dt p in
    let hv := clampHeight (integrateVertical dt p1) in
    let p2 := set_verticalVelocity (snd hv) (set_heightAboveSurface (fst hv) p1) in
    let p3 := set_mesh_position
                (scale (normalize (mesh_position p2))
                       (getBaseRadius + heightAboveSurface p2)) p2 in
    set_projectiles
      (fst (updateProjectiles now scene (uuid p3) (projectiles p3))) p3.
Proof.
  intros Hlocal. cbv zeta. unfold updatePhysics. rewrite Hlocal.
  set (c := clampHeight _). destruct c as [h2 v3]. cbn [fst snd].
  set (u := updateProjectiles _ _ _ _). destruct u as [ps frags].
  reflexivity.
Qed.

Lemma updatePhysics_gauge (now : Z) (scene : list AbstractMesh)
      (dt : R) (p : Player) :
  isRemotePlayer p = false ->
  let p' := fst (updatePhysics now scene dt p) in
  fuel p' = fuel (updateFuel dt p)
  /\ hasFuel p' = hasFuel (updateFuel dt p)
  /\ jetpackActive p' = jetpackActive p
  /\ uuid p' = uuid p
  /\ isRemotePlayer p' = false
  /\ projectiles p'
     = fst (updateProjectiles now scene (uuid p) (projectiles p)).
Proof.
  intros Hlocal. cbv zeta. rewrite updatePhysics_local by exact Hlocal.
  cbv zeta. player_fields.
  destruct (updateFuel_others dt p) as (Hj & _ & _ & _ & Hps & Hu & Hr).
  rewrite Hj, Hps, Hu, Hr. repeat split. exact Hlocal.
Qed.

Lemma update_local (now : Z) (scene : list AbstractMesh) (dt : R) (p : Player) :
  isRemotePlayer p = false ->
  fst (update now scene dt p)
  = let p1 := fst (updatePhysics now scene dt p) in
    set_projectiles
      (fst (updateProjectiles now scene (uuid p1) (projectiles p1))) p1.
Proof.
  intros Hlocal. cbv zeta. unfold update. rewrite Hlocal.
  destruct (updatePhysics now scene dt p) as [p1 n1]. cbn [fst].
  destruct (updateProjectiles now scene (uuid p1) (projectiles p1)) as [ps n2].
  reflexivity.
Qed.

Lemma renderFrame_fst (now : Z) (scene : list AbstractMesh)
      (dt : R) (input : Input) (p : Player) :
  fst (renderFrame now scene dt input p)
  = fst (update now scene dt
           (processControls dt input
              (fst (updatePhysics now scene dt (processJetpack input p))))).
Proof.
  unfold renderFrame, handlePlayerMovement.
  destruct (updatePhysics now scene dt (processJetpack input p)) as [p2 frags].
  cbn [fst].
  destruct (update now scene dt (processControls dt input p2)) as [p3 n2].
  reflexivity.
Qed.

Lemma processControls_keepsVitals (dt : R) (input : Input) (p : Player) :
  keepsVitals p (processControls dt input p).
Proof.
  unfold processControls, strafeLeft, strafeRight, moveForward, moveBackward.
  repeat match goal with
         | |- keepsVitals _ (if ?c then _ else _) => destruct c
         | |- keepsVitals ?a ?a => apply keepsVitals_refl
         | |- keepsVitals _ (rotate ?r ?x) =>
             apply (keepsVitals_trans _ x); [| apply (rotate_keepsVitals r x)]
         | |- keepsVitals _ (moveAlongOrbit ?c ?d ?x) =>
             apply (keepsVitals_trans _ x); [| apply moveAlongOrbit_keepsVitals]
         end.
Qed.

Lemma processJetpack_fields (input : Input) (p : Player) :
  let p0 := processJetpack input p in
  jetpackActive p0 = key_space input
  /\ fuel p0 = fuel p /\ hasFuel p0 = hasFuel p
  /\ heightAboveSurface p0 = heightAboveSurface p
  /\ verticalVelocity p0 = verticalVelocity p
  /\ mesh_position p0 = mesh_position p
  /\ projectiles p0 = projectiles p
  /\ uuid p0 = uuid p
  /\ isRemotePlayer p0 = isRemotePlayer p.
Proof.
  cbv zeta. unfold processJetpack, activateJetpack, deactivateJetpack.
  destruct (key_space input); player_fields;
    try destruct (hasFuel p && negb (particlesStarted p))%bool;
    player_fields; repeat split.
Qed.

(** The gauge after the local leg of a pass: the physics of the local player
    has run twice ([handlePlayerMovement] calls [updatePhysics], then
    [player.update] calls it again). *)
Lemma renderFrame_gauge (now : Z) (scene : list AbstractMesh)
      (dt : R) (input : Input) (p : Player) :
  isRemotePlayer p = false ->
  let p' := fst (renderFrame now scene dt input p) in
  let q := updateFuel dt (updateFuel dt (processJetpack input p)) in
  fuel p' = fuel q
  /\ hasFuel p' = hasFuel q
  /\ isRemotePlayer p' = false.
Proof.
  intros Hlocal. cbv zeta.
  destruct (processJetpack_fields input p)
    as (Hj0 & Hf0 & Hh0 & _ & _ & _ & _ & _ & Hr0).
  cbv zeta in Hj0, Hf0, Hh0, Hr0.
  set (p0 := processJetpack input p) in *.
  assert (Hlocal0 : isRemotePlayer p0 = false) by congruence.
  destruct (updatePhysics_gauge now scene dt p0 Hlocal0)
    as (Hf2 & Hh2 & Hj2 & _ & Hr2 & _).
  cbv zeta in Hf2, Hh2, Hj2, Hr2.
  set (p2 := fst (updatePhysics now scene dt p0)) in *.
  destruct (processControls_keepsVitals dt input p2)
    as (_ & _ & Hj7 & _ & Hf7 & Hh7 & _ & _ & Hr7).
  set (p7 := processControls dt input p2) in *.
  assert (Hlocal7 : isRemotePlayer p7 = false) by congruence.
  destruct (updatePhysics_gauge now scene dt p7 Hlocal7)
    as (Hf8 & Hh8 & _ & _ & Hr8 & _).
  cbv zeta in Hf8, Hh8, Hr8.
  rewrite renderFrame_fst. fold p0 p2 p7.
  rewrite (update_local now scene dt p7 Hlocal7). cbv zeta. player_fields.
  rewrite Hf8, Hh8.
  destruct (updateFuel_others dt p0) as (Hj1 & _).
  destruct (updateFuel_gauge dt p7 (updateFuel dt p0)) as [Hf Hh]; try congruence.
  rewrite Hf, Hh.
  split; [reflexivity |]. split; [reflexivity | exact Hr8].
Qed.

(** Two ticks with the jetpack on. *)
Lemma updateFuel_burning_twice (dt : R) (p : Player) :
  jetpackActive p = true ->
  let q := updateFuel dt (updateFuel dt p) in
  fuel q = Rmax 0 (Rmax 0 (fuel p - FUEL_BURN_RATE * dt) - FUEL_BURN_RATE * dt)
  /\ (0 <= dt -> 0 <= fuel p -> 0 <= fuel q <= fuel p)
  /\ (hasFuel p = false -> hasFuel q = false).
Proof.
  intros Hj. cbv zeta.
  destruct (updateFuel_others dt p) as (Hj1 & _).
  assert (Hone : forall r, jetpackActive r = true ->
            fuel (updateFuel dt r) = Rmax 0 (fuel r - FUEL_BURN_RATE * dt)
            /\ (hasFuel r = false -> hasFuel (updateFuel dt r) = false)).
  { intros r Hr. unfold updateFuel. rewrite Hr. cbv zeta. unfold Rmax.
    destruct (Rle_dec (fuel r - FUEL_BURN_RATE * dt) 0) as [Ha | Ha];
      destruct (Rle_dec 0 (fuel r - FUEL_BURN_RATE * dt)) as [Hb | Hb];
      player_fields; split; try lra; try reflexivity; intros H; exact H. }
  assert (Hj' : jetpackActive (updateFuel dt p) = true) by congruence.
  destruct (Hone p Hj) as [Hf1 Hh1].
  destruct (Hone _ Hj') as [Hf2 Hh2].
  rewrite Hf2, Hf1.
  split; [reflexivity |]. split.
  - intros Hdt Hfuel. unfold FUEL_BURN_RATE, Rmax.
    repeat destruct (Rle_dec _ _); lra.
  - intros H. apply Hh2, Hh1, H.
Qed.


(** Projectiles in flight that touch nothing all take their orbital step. *)
Lemma updateProjectiles_free (now : Z) (scene : list AbstractMesh)
      (self : string) (ps : list Projectile) :
  (forall m a, In m scene -> intersectsMesh m a = false) ->
  Forall (fun q => isActive q = true /\ (now - spawnTime q <= lifespan)%Z) ps ->
  updateProjectiles now scene self ps = (map Projectile_move ps, 0%nat).
Proof.
  intros Hfree Hps. induction Hps as [| q rest [Hact Hyoung] _ IH].
  - reflexivity.
  - cbn [updateProjectiles map]. rewrite IH.
    assert (Hnone : filter (collides (Projectile_move q)) scene = []).
    { clear -Hfree. induction scene as [| m more IHs]; [reflexivity |].
      cbn [filter]. unfold collides at 1.
      rewrite (Hfree m (proj_mesh (Projectile_move q))) by (left; reflexivity).
      destruct (negb (name m =? "player")%string
                || Nat.eqb (mesh_id m) (mesh_id (proj_mesh (Projectile_move q))))%bool;
        [| destruct (ownedBy (ownerUUID (Projectile_move q)) m)];
        apply IHs; intros m' a Hin; apply Hfree; right; exact Hin. }
    destruct (Projectile_update_cases now scene q)
      as [[Hact' _] | [(_ & Hold & _) | [(_ & _ & t & more & Hhit & _)
                                        | (_ & _ & _ & ->)]]].
    + congruence.
    + lia.
    + congruence.
    + reflexivity.
Qed.

Lemma Projectile_move_in_flight (now : Z) (ps : list Projectile) :
  Forall (fun q => isActive q = true /\ (now - spawnTime q <= lifespan)%Z) ps ->
  Forall (fun q => isActive q = true /\ (now - spawnTime q <= lifespan)%Z)
         (map Projectile_move ps).
Proof.
  intros H. induction H as [| q rest Hq _ IH]; cbn [map]; constructor.
  - exact Hq.
  - exact IH.
Qed.

(** X8. One pass of the render loop runs the projectile pass of the local
    player three times (in the [updatePhysics] of [handlePlayerMovement], in
    the [updatePhysics] of [player.update], and in [player.update] itself):
    projectiles in flight that touch nothing take three orbital steps in
    the frame. *)
Theorem renderFrame_projectiles (now : Z) (scene : list AbstractMesh)
        (dt : R) (input : Input) (p : Player) :
  isRemotePlayer p = false ->
  (forall m a, In m scene -> intersectsMesh m a = false) ->
  Forall (fun q => isActive q = true /\ (now - spawnTime q <= lifespan)%Z)
         (projectiles p) ->
  projectiles (fst (renderFrame now scene dt input p))
  = map (fun q => Projectile_move (Projectile_move (Projectile_move q)))
        (projectiles p).
Proof.
  intros Hlocal Hfree Hps.
  destruct (processJetpack_fields input p)
    as (_ & _ & _ & _ & _ & _ & Hps0 & _ & Hr0).
  cbv zeta in Hps0, Hr0.
  set (p0 := processJetpack input p) in *.
  assert (Hlocal0 : isRemotePlayer p0 = false) by congruence.
  destruct (updatePhysics_gauge now scene dt p0 Hlocal0)
    as (_ & _ & _ & _ & Hr2 & Hps2).
  cbv zeta in Hr2, Hps2.
  set (p2 := fst (updatePhysics now scene dt p0)) in *.
  destruct (processControls_keepsVitals dt input p2)
    as (_ & _ & _ & _ & _ & _ & Hps7 & _ & Hr7).
  set (p7 := processControls dt input p2) in *.
  assert (Hlocal7 : isRemotePlayer p7 = false) by congruence.
  destruct (updatePhysics_gauge now scene dt p7 Hlocal7)
    as (_ & _ & _ & _ & _ & Hps8).
  cbv zeta in Hps8.
  rewrite renderFrame_fst. fold p0 p2 p7.
  rewrite (update_local now scene dt p7 Hlocal7). cbv zeta. player_fields.
  rewrite Hps8, Hps7, Hps2, Hps0.
  rewrite (updateProjectiles_free now scene _ _ Hfree Hps). cbn [fst].
  pose proof (Projectile_move_in_flight now _ Hps) as H1.
  rewrite (updateProjectiles_free now scene _ _ Hfree H1). cbn [fst].
  pose proof (Projectile_move_in_flight now _ H1) as H2.
  rewrite (updateProjectiles_free now scene _ _ Hfree H2). cbn [fst].
  rewrite !map_map. reflexivity.
Qed.

(** ** The local player over a whole game *)

Lemma spawnPoint_lengthSquared (u v height : R) :
  lengthSquared (spawnPoint u v height)
  = (getBaseRadius + height) * (getBaseRadius + height).
Proof.
  unfold spawnPoint, lengthSquared. cbn [vx vy vz].
  pose proof (sin2_cos2 (v * PI)) as Ht. pose proof (sin2_cos2 (u * PI * 2)) as Hp.
  unfold Rsqr in Ht, Hp.
  set (st := sin (v * PI)) in *. set (ct := cos (v * PI)) in *.
  set (sp := sin (u * PI * 2)) in *. set (cp := cos (u * PI * 2)) in *.
  set (r := getBaseRadius + height).
  replace (r * st * cp * (r * st * cp) + r * ct * (r * ct) + r * st * sp * (r * st * sp))
    with (r * r * (st * st * (sp * sp + cp * cp) + ct * ct)) by ring.
  rewrite Hp, Rmult_1_r, Ht. ring.
Qed.

Lemma spawnRandomPosition_fields (u v : R) (p : Player) :
  mesh_position (spawnRandomPosition u v p) = spawnPoint u v (heightAboveSurface p)
  /\ keepsVitals p (spawnRandomPosition u v p).
Proof. unfold spawnRandomPosition, keepsVitals. repeat split. Qed.

Lemma inPlay_of_fields (p q : Player) :
  inPlay p ->
  isRemotePlayer q = isRemotePlayer p ->
  mesh_position q = mesh_position p ->
  heightAboveSurface q = heightAboveSurface p ->
  fuel q = fuel p ->
  inPlay q.
Proof.
  unfold inPlay, onSurface. intros (Hr & Hz & Hs & Hh & Hf) E1 E2 E3 E4.
  rewrite E1, E2, E3, E4. repeat split; try assumption; apply Hh || apply Hf.
Qed.

Lemma spawned_inPlay (u v : R) (p : Player) :
  isRemotePlayer p = false ->
  mesh_position p = spawnPoint u v (heightAboveSurface p) ->
  MIN_HEIGHT <= heightAboveSurface p <= MAX_HEIGHT ->
  0 <= fuel p <= MAX_FUEL ->
  inPlay p.
Proof.
  intros Hr Hpos Hh Hf.
  assert (Hrad : 0 < getBaseRadius + heightAboveSurface p)
    by (unfold getBaseRadius, MIN_HEIGHT in *; lra).
  assert (Hon : onSurface p).
  { unfold onSurface. rewrite Hpos. apply length_eq; [lra |].
    apply spawnPoint_lengthSquared. }
  unfold inPlay. repeat split; try assumption; try apply Hh; try apply Hf.
  apply onSurface_neq_Zero; assumption.
Qed.

Lemma Player_constructor_inPlay (id : string) (u v : R) :
  inPlay (Player_constructor id u v).
Proof.
  apply (spawned_inPlay u v).
  - reflexivity.
  - reflexivity.
  - unfold Player_constructor, spawnRandomPosition, MIN_HEIGHT, MAX_HEIGHT.
    player_fields. lra.
  - unfold Player_constructor, spawnRandomPosition, MAX_FUEL.
    player_fields. lra.
Qed.

Lemma respawn_inPlay (u v : R) (p : Player) :
  isRemotePlayer p = false -> inPlay (respawn u v p).
Proof.
  intros Hr. apply (spawned_inPlay u v).
  - exact Hr.
  - reflexivity.
  - unfold respawn, deactivateJetpack, spawnRandomPosition, MIN_HEIGHT, MAX_HEIGHT.
    player_fields. lra.
  - unfold respawn, deactivateJetpack, spawnRandomPosition, MAX_FUEL.
    player_fields. lra.
Qed.

Lemma updatePhysics_inPlay (now : Z) (scene : list AbstractMesh)
      (dt : R) (p : Player) :
  0 <= dt -> inPlay p -> inPlay (fst (updatePhysics now scene dt p)).
Proof.
  intros Hdt (Hr & Hz & Hs & Hh & Hf).
  pose proof (updatePhysics_height_range now scene dt p Hr) as Hh'.
  pose proof (updatePhysics_position now scene dt p Hr) as Hpos.
  destruct (updatePhysics_gauge now scene dt p Hr) as (Hf' & _ & _ & _ & Hr' & _).
  cbv zeta in Hpos, Hf', Hr'.
  set (p' := fst (updatePhysics now scene dt p)) in *.
  assert (Hrad : 0 < getBaseRadius + heightAboveSurface p')
    by (unfold getBaseRadius, MIN_HEIGHT in *; lra).
  assert (Hon : onSurface p').
  { unfold onSurface. rewrite Hpos. apply length_reproject; [exact Hz | lra]. }
  unfold inPlay. repeat split; try assumption; try apply Hh'.
  - apply onSurface_neq_Zero; assumption.
  - rewrite Hf'. apply updateFuel_fuel_range; assumption.
  - rewrite Hf'. apply updateFuel_fuel_range; assumption.
Qed.

Lemma moveAlongOrbit_inPlay (crossAxis : Vector3) (dt : R) (p : Player) :
  cos (movementSpeed * dt) <> 0 ->
  inPlay p -> inPlay (moveAlongOrbit crossAxis dt p).
Proof.
  intros Hcos (Hr & Hz & Hs & Hh & Hf).
  assert (Hrad : 0 < getBaseRadius + heightAboveSurface p)
    by (unfold getBaseRadius, MIN_HEIGHT in *; lra).
  assert (Hon : onSurface (moveAlongOrbit crossAxis dt p)).
  { apply moveAlongOrbit_locked; [exact Hz | lra | right; exact Hcos]. }
  destruct (moveAlongOrbit_keepsVitals crossAxis dt p)
    as (Eh & _ & _ & _ & Ef & _ & _ & _ & Er).
  unfold inPlay. rewrite Eh, Ef, Er.
  repeat split; try assumption; try apply Hh; try apply Hf.
  apply onSurface_neq_Zero; [exact Hon | rewrite Eh; exact Hrad].
Qed.

Lemma processControls_inPlay (dt : R) (input : Input) (p : Player) :
  cos (movementSpeed * dt) <> 0 ->
  inPlay p -> inPlay (processControls dt input p).
Proof.
  intros Hcos Hp.
  assert (Hmove : forall axis q, inPlay q ->
            inPlay (if isRemotePlayer q then q else moveAlongOrbit axis dt q)).
  { intros axis q Hq. destruct (isRemotePlayer q);
      [exact Hq | apply moveAlongOrbit_inPlay; assumption]. }
  unfold processControls.
  set (p3 := if key_a input then strafeLeft dt p else p).
  assert (H3 : inPlay p3)
    by (unfold p3, strafeLeft; destruct (key_a input); [apply Hmove |]; exact Hp).
  set (p4 := if key_d input then strafeRight dt p3 else p3).
  assert (H4 : inPlay p4)
    by (unfold p4, strafeRight; destruct (key_d input); [apply Hmove |]; exact H3).
  set (p5 := if key_w input then moveForward dt p4 else p4).
  assert (H5 : inPlay p5)
    by (unfold p5, moveForward; destruct (key_w input); [apply Hmove |]; exact H4).
  set (p6 := if key_s input then moveBackward dt p5 else p5).
  assert (H6 : inPlay p6)
    by (unfold p6, moveBackward; destruct (key_s input); [apply Hmove |]; exact H5).
  destruct (Req_dec_T (mouseMovement input) 0); [exact H6 |].
  destruct (rotate_keepsVitals (mouseMovement input * mouseSensitivity) p6)
    as [(Eh & _ & _ & _ & Ef & _ & _ & _ & Er) Epos].
  apply (inPlay_of_fields p6); assumption.
Qed.

Lemma renderFrame_inPlay (now : Z) (scene : list AbstractMesh)
      (dt : R) (input : Input) (p : Player) :
  0 <= dt -> cos (movementSpeed * dt) <> 0 ->
  inPlay p -> inPlay (fst (renderFrame now scene dt input p)).
Proof.
  intros Hdt Hcos Hp. rewrite renderFrame_fst.
  destruct (processJetpack_fields input p)
    as (_ & Ef & _ & Eh & _ & Epos & _ & _ & Er).
  cbv zeta in Ef, Eh, Epos, Er.
  assert (H0 : inPlay (processJetpack input p))
    by (apply (inPlay_of_fields p); assumption).
  pose proof (updatePhysics_inPlay now scene dt _ Hdt H0) as H2.
  pose proof (processControls_inPlay dt input _ Hcos H2) as H7.
  set (p7 := processControls dt input _) in *.
  rewrite (update_local now scene dt p7 (proj1 H7)). cbv zeta.
  apply (inPlay_of_fields (fst (updatePhysics now scene dt p7)));
    [apply updatePhysics_inPlay; assumption | reflexivity ..].
Qed.

Lemma shoot_inPlay (now : Z) (fresh : nat) (p : Player) :
  inPlay p -> inPlay (fst (shoot now fresh p)).
Proof.
  intros Hp. unfold shoot. destruct (isRemotePlayer p); [exact Hp |].
  cbn [fst]. apply (inPlay_of_fields p); [exact Hp | reflexivity ..].
Qed.

Lemma play_keeps_inPlay (events : list Event) (p : Player) :
  Forall timed events -> inPlay p -> inPlay (play events p).
Proof.
  intros Hev. revert p. unfold play.
  induction Hev as [| e rest He _ IH]; intros p Hp; [exact Hp |].
  cbn [fold_left]. apply IH.
  destruct e as [now scene dt input | now fresh | u v]; cbn [applyEvent timed] in *.
  - apply renderFrame_inPlay; [apply He | apply He | exact Hp].
  - apply shoot_inPlay. exact Hp.
  - apply respawn_inPlay. apply Hp.
Qed.

(** X9. From its construction on, through any run of render frames (whose
    time steps are not negative and turn no step by a right angle), shots
    and respawns, in any order and with any keys held, the local player is
    never at the planet's centre, stands at distance
    [planetRadius + heightAboveSurface] from it, has its height within
    [0.60, 3] and its fuel within [0, MAX_FUEL]; the percentage shown by the
    fuel bar is within [0, 100]. *)
Theorem play_inPlay (id : string) (u v : R) (events : list Event) :
  Forall timed events ->
  let p := play events (Player_constructor id u v) in
  inPlay p /\ 0 <= getFuelPercentage p <= 100.
Proof.
  intros Hev. cbv zeta.
  pose proof (play_keeps_inPlay events _ Hev (Player_constructor_inPlay id u v))
    as Hp.
  split; [exact Hp |].
  destruct Hp as (_ & _ & _ & _ & Hf).
  unfold getFuelPercentage, MAX_FUEL in *. lra.
Qed.

(** ** The body of a remote player *)

Lemma add_neq_Zero (a b : Vector3) : length b < length a -> add a b <> Zero.
Proof.
  intros Hlt E.
  assert (Hb : b = scale a (-1)).
  { destruct a as [ax ay az], b as [bx b_y bz].
    unfold add, Zero, scale in *. cbn [vx vy vz] in *.
    injection E as E1 E2 E3. f_equal; lra. }
  rewrite Hb, length_scale in Hlt.
  replace (Rabs (-1)) with 1 in Hlt
    by (unfold Rabs; destruct (Rcase_abs (-1)); lra).
  lra.
Qed.

Lemma interpolateHeight_range (dt : R) (p : Player) :
  MIN_HEIGHT <= remoteHeightAboveSurface p <= MAX_HEIGHT ->
  MIN_HEIGHT <= interpolateHeight dt p <= MAX_HEIGHT.
Proof.
  intros Hh. unfold interpolateHeight, MIN_HEIGHT, MAX_HEIGHT in *.
  destruct (Rgt_dec _ _); [| exact Hh].
  unfold Rmax, Rmin.
  repeat match goal with
         | |- context [Rle_dec ?a ?b] => destruct (Rle_dec a b)
         end; lra.
Qed.

(** A tick that moves the body leaves it on the sphere of the interpolated
    height, when its step cannot reach the centre. *)
Lemma updateRemoteInterpolation_locked (dt : R) (p : Player) (target : Vector3) :
  targetPosition p = Some target ->
  0 <= dt ->
  POSITION_INTERPOLATION_SPEED * dt < length (interpolatedFrom p) ->
  0 <= getBaseRadius + interpolateHeight dt p ->
  distanceToTarget target p > 0.0001 ->
  let p' := updateRemoteInterpolation dt p in
  length (mesh_position p') = getBaseRadius + remoteHeightAboveSurface p'
  /\ currentInterpolatedPosition p' = Some (mesh_position p').
Proof.
  intros Ht Hdt Hstep Hrad Hfar. cbv zeta.
  destruct (updateRemoteInterpolation_position dt p target Ht)
    as (Hh & _ & _ & Hmove & _).
  cbv zeta in Hh, Hmove. destruct (Hmove Hfar) as [Hcur Hpos].
  rewrite Hcur, Hpos, Hh. split; [| reflexivity].
  unfold interpolatedTo. apply length_reproject; [| exact Hrad].
  apply add_neq_Zero.
  eapply Rle_lt_trans; [| exact Hstep].
  apply moveVector_bounded.
  unfold POSITION_INTERPOLATION_SPEED. lra.
Qed.

(** X10. The surface lock of a remote body: a tick of
    [updateRemoteInterpolation] toward a target, short enough for its
    largest step [POSITION_INTERPOLATION_SPEED * dt] not to reach the centre,
    keeps an interpolated height that was within [0.60, 3] within it; when
    the body is farther than 0.0001 from the target the tick leaves it at
    distance [planetRadius + remoteHeightAboveSurface] from the centre, and
    otherwise leaves it where it is, whatever the height has become. *)
Theorem remote_body_locked (dt : R) (p : Player) (target : Vector3) :
  targetPosition p = Some target ->
  MIN_HEIGHT <= remoteHeightAboveSurface p <= MAX_HEIGHT ->
  0 <= dt ->
  POSITION_INTERPOLATION_SPEED * dt < length (interpolatedFrom p) ->
  let p' := updateRemoteInterpolation dt p in
  MIN_HEIGHT <= remoteHeightAboveSurface p' <= MAX_HEIGHT
  /\ (distanceToTarget target p > 0.0001 ->
      length (mesh_position p') = getBaseRadius + remoteHeightAboveSurface p')
  /\ (~ distanceToTarget target p > 0.0001 ->
      mesh_position p' = mesh_position p).
Proof.
  intros Ht Hh Hdt Hstep. cbv zeta.
  pose proof (interpolateHeight_range dt p Hh) as Hh'.
  destruct (updateRemoteInterpolation_position dt p target Ht)
    as (Eh & _ & _ & _ & Hstay).
  cbv zeta in Eh, Hstay.
  split; [rewrite Eh; exact Hh' |]. split.
  - intros Hfar.
    apply (updateRemoteInterpolation_locked dt p target); try assumption.
    unfold getBaseRadius, MIN_HEIGHT in *. lra.
  - intros Hnear. apply Hstay. exact Hnear.
Qed.

Lemma updateRemoteInterpolation_isRemotePlayer (dt : R) (p : Player) :
  isRemotePlayer (updateRemoteInterpolation dt p) = isRemotePlayer p.
Proof.
  unfold updateRemoteInterpolation.
  destruct p. player_fields.
  destruct targetPosition0 as [t |]; [| reflexivity].
  destruct currentInterpolatedPosition0 as [c |];
    destruct targetRotation0 as [tr |];
    destruct currentInterpolatedRotation0 as [cr |];
    player_fields;
    match goal with
    | |- context [Rgt_dec (length ?v) 0.0001] =>
        destruct (Rgt_dec (length v) 0.0001)
    end;
    reflexivity.
Qed.

Lemma updateRemoteInterpolation_mirrored (dt : R) (p : Player) :
  0 <= dt ->
  POSITION_INTERPOLATION_SPEED * dt < getBaseRadius + MIN_HEIGHT ->
  mirrored p -> mirrored (updateRemoteInterpolation dt p).
Proof.
  intros Hdt Hstep (Hr & Hh & Hbody & Hshell).
  destruct (targetPosition p) as [target |] eqn:Ht.
  2:{ unfold updateRemoteInterpolation. rewrite Ht.
      repeat split; try assumption; apply Hh || apply Hshell. }
  pose proof (interpolateHeight_range dt p Hh) as Hh'.
  destruct (updateRemoteInterpolation_position dt p target Ht)
    as (Eh & _ & _ & Hmove & Hstay).
  cbv zeta in Eh, Hmove, Hstay.
  assert (Hclear : POSITION_INTERPOLATION_SPEED * dt < length (interpolatedFrom p))
    by (rewrite <- Hbody; lra).
  unfold mirrored. rewrite updateRemoteInterpolation_isRemotePlayer, Eh.
  split; [exact Hr |]. split; [exact Hh' |].
  destruct (Rgt_dec (length (subtract target (interpolatedFrom p))) 0.0001)
    as [Hfar | Hnear].
  - destruct (updateRemoteInterpolation_locked dt p target Ht Hdt Hclear) as [Hlen Hcur].
    + unfold getBaseRadius, MIN_HEIGHT in *. lra.
    + exact Hfar.
    + cbv zeta in Hlen, Hcur. split.
      * unfold interpolatedFrom. rewrite Hcur. reflexivity.
      * rewrite Hlen, Eh. lra.
  - destruct (Hstay Hnear) as [Hcur Hpos]. split.
    + unfold interpolatedFrom at 1. rewrite Hcur, Hpos. exact Hbody.
    + rewrite Hpos. exact Hshell.
Qed.

Lemma setRemotePosition_body (now : Z) (pos : Vector3) (p : Player) :
  isRemotePlayer p = true ->
  let p' := setRemotePosition now pos p in
  isRemotePlayer p' = true
  /\ mesh_position p' = mesh_position p
  /\ targetPosition p' = Some pos
  /\ targetHeight p' = length pos - getBaseRadius
  /\ match currentInterpolatedPosition p with
     | Some c =>
         currentInterpolatedPosition p' = Some c
         /\ remoteHeightAboveSurface p' = remoteHeightAboveSurface p
     | None =>
         currentInterpolatedPosition p' = Some (mesh_position p)
         /\ remoteHeightAboveSurface p' = length pos - getBaseRadius
     end.
Proof.
  intros Hremote. cbv zeta. unfold setRemotePosition. rewrite Hremote.
  cbn [negb]. destruct p. player_fields. subst.
  destruct (Req_dec_T _ _); player_fields;
    destruct targetPosition0 as [tp |]; player_fields;
    try (destruct previousTargetPosition0 as [ptp |]; player_fields);
    try (destruct (Rgt_dec _ _); player_fields);
    try (destruct estimatedVelocity0 as [ev |]; player_fields);
    destruct currentInterpolatedPosition0 as [c |]; player_fields;
    repeat split; reflexivity.
Qed.

Lemma setRemoteRotation_body (rotation : Quaternion) (p : Player) :
  let p' := setRemoteRotation rotation p in
  isRemotePlayer p' = isRemotePlayer p
  /\ mesh_position p' = mesh_position p
  /\ currentInterpolatedPosition p' = currentInterpolatedPosition p
  /\ remoteHeightAboveSurface p' = remoteHeightAboveSurface p
  /\ targetPosition p' = targetPosition p
  /\ targetHeight p' = targetHeight p.
Proof.
  cbv zeta. unfold setRemoteRotation.
  destruct (negb (isRemotePlayer p)); [repeat split |].
  player_fields. destruct (currentInterpolatedRotation p); repeat split.
Qed.

Lemma jetpack_body (on : bool) (p : Player) :
  let p' := if on then activateJetpack p else deactivateJetpack p in
  isRemotePlayer p' = isRemotePlayer p
  /\ mesh_position p' = mesh_position p
  /\ currentInterpolatedPosition p' = currentInterpolatedPosition p
  /\ remoteHeightAboveSurface p' = remoteHeightAboveSurface p
  /\ targetPosition p' = targetPosition p
  /\ targetHeight p' = targetHeight p.
Proof.
  cbv zeta. unfold activateJetpack, deactivateJetpack.
  destruct on; player_fields;
    try destruct (hasFuel p && negb (particlesStarted p))%bool; repeat split.
Qed.

(** What a sample does to the body of a mirror. *)
Lemma updateRemotePlayer_body (now : Z) (p : Player) (playerData : PlayerData) :
  isRemotePlayer p = true ->
  let p' := updateRemotePlayer now p playerData in
  isRemotePlayer p' = true
  /\ mesh_position p' = mesh_position p
  /\ targetPosition p' = Some (pd_position playerData)
  /\ targetHeight p' = length (pd_position playerData) - getBaseRadius
  /\ match currentInterpolatedPosition p with
     | Some c =>
         currentInterpolatedPosition p' = Some c
         /\ remoteHeightAboveSurface p' = remoteHeightAboveSurface p
     | None =>
         currentInterpolatedPosition p' = Some (mesh_position p)
         /\ remoteHeightAboveSurface p' = length (pd_position playerData) - getBaseRadius
     end.
Proof.
  intros Hremote. cbv zeta. unfold updateRemotePlayer.
  destruct (setRemotePosition_body now (pd_position playerData) p Hremote)
    as (H1 & H2 & H3 & H4 & H5).
  cbv zeta in H1, H2, H3, H4, H5.
  set (p1 := setRemotePosition now (pd_position playerData) p) in *.
  destruct (setRemoteRotation_body (pd_rotation playerData) p1)
    as (R1 & R2 & R3 & R4 & R5 & R6).
  cbv zeta in R1, R2, R3, R4, R5, R6.
  set (p2 := setRemoteRotation (pd_rotation playerData) p1) in *.
  destruct (jetpack_body (isJetpackActive playerData) p2)
    as (J1 & J2 & J3 & J4 & J5 & J6).
  cbv zeta in J1, J2, J3, J4, J5, J6.
  rewrite J1, J2, J3, J4, J5, J6, R1, R2, R3, R4, R5, R6.
  repeat split; assumption.
Qed.

Lemma updateRemotePlayer_mirrored (now : Z) (p : Player) (playerData : PlayerData) :
  getBaseRadius + MIN_HEIGHT <= length (pd_position playerData)
                             <= getBaseRadius + MAX_HEIGHT ->
  mirrored p -> mirrored (updateRemotePlayer now p playerData).
Proof.
  intros Hpos (Hr & Hh & Hbody & Hshell).
  destruct (updateRemotePlayer_body now p playerData Hr) as (H1 & H2 & _ & _ & H5).
  cbv zeta in H1, H2, H5.
  unfold mirrored, interpolatedFrom in *. rewrite H1, H2.
  destruct (currentInterpolatedPosition p) as [c |]; destruct H5 as [Hc Hrh];
    rewrite Hc, Hrh; repeat split; try assumption; try apply Hh; try apply Hshell;
    lra.
Qed.

Lemma update_remote (now : Z) (scene : list AbstractMesh) (dt : R) (p : Player) :
  isRemotePlayer p = true ->
  fst (update now scene dt p)
  = let p1 := updateRemoteInterpolation dt p in
    set_projectiles
      (fst (updateProjectiles now scene (uuid p1) (projectiles p1))) p1.
Proof.
  intros Hremote. cbv zeta. unfold update. rewrite Hremote.
  destruct (updateProjectiles now scene _ _) as [ps n2].
  reflexivity.
Qed.

Lemma update_mirrored (now : Z) (scene : list AbstractMesh) (dt : R) (p : Player) :
  0 <= dt ->
  POSITION_INTERPOLATION_SPEED * dt < getBaseRadius + MIN_HEIGHT ->
  mirrored p -> mirrored (fst (update now scene dt p)).
Proof.
  intros Hdt Hstep Hp.
  rewrite (update_remote now scene dt p (proj1 Hp)). cbv zeta.
  pose proof (updateRemoteInterpolation_mirrored dt p Hdt Hstep Hp)
    as (Hr & Hh & Hbody & Hshell).
  unfold mirrored, interpolatedFrom in *. player_fields.
  repeat split; try assumption; apply Hh || apply Hshell.
Qed.

Lemma mirror_keeps_mirrored (events : list MirrorEvent) (p : Player) :
  Forall plausible events -> mirrored p -> mirrored (mirror events p).
Proof.
  intros Hev. revert p. unfold mirror.
  induction Hev as [| e rest He _ IH]; intros p Hp; [exact Hp |].
  cbn [fold_left]. apply IH.
  destruct e as [now playerData | now scene dt]; cbn [applyMirrorEvent plausible] in *.
  - apply updateRemotePlayer_mirrored; assumption.
  - apply update_mirrored; [apply He | apply He | exact Hp].
Qed.

(** X11. The mirror a client keeps of another player, from the moment the
    listener creates it ([new Player] then [setAsRemotePlayer]), through any
    run of samples ([updateRemotePlayer], each with a position in the shell
    between the lowest and the highest orbit, as a player in play publishes
    it) and ticks ([update], each with [dt >= 0] and
    [POSITION_INTERPOLATION_SPEED * dt] below the lowest orbit): it stays a
    remote player, its body is where the interpolation stands and stays in
    that shell, and its interpolated height stays within [0.60, 3]. *)
Theorem mirror_in_shell (id : string) (u v : R) (events : list MirrorEvent) :
  Forall plausible events ->
  mirrored (mirror events (setAsRemotePlayer (Player_constructor id u v))).
Proof.
  intros Hev. apply mirror_keeps_mirrored; [exact Hev |].
  destruct (Player_constructor_inPlay id u v) as (_ & _ & Hon & Hh & _).
  unfold mirrored, setAsRemotePlayer, interpolatedFrom. player_fields.
  split; [reflexivity |].
  split; [unfold Player_constructor, spawnRandomPosition, MIN_HEIGHT, MAX_HEIGHT;
          player_fields; lra |].
  split; [reflexivity |].
  unfold onSurface in Hon. rewrite Hon. lra.
Qed.

(** ** Maps and the store *)

Lemma Map_has_get {V : Type} (key : string) (m : list (string * V)) :
  Map_has key m = match Map_get key m with Some _ => true | None => false end.
Proof.
  unfold Map_has. induction m as [| [k v] rest IH]; [reflexivity |].
  cbn [existsb Map_get fst]. destruct (String.eqb k key); [reflexivity | exact IH].
Qed.

Lemma Map_get_set_same {V : Type} (key : string) (value : V) (m : list (string * V)) :
  Map_get key (Map_set key value m) = Some value.
Proof.
  induction m as [| [k v] rest IH]; cbn [Map_set Map_get].
  - rewrite String.eqb_refl. reflexivity.
  - destruct (String.eqb k key) eqn:E; cbn [Map_get].
    + rewrite String.eqb_refl. reflexivity.
    + rewrite E. exact IH.
Qed.

Lemma Map_get_set_other {V : Type} (key key' : string) (value : V)
      (m : list (string * V)) :
  key <> key' -> Map_get key (Map_set key' value m) = Map_get key m.
Proof.
  intros Hne.
  assert (Hk : String.eqb key' key = false)
    by (apply String.eqb_neq; intros E; apply Hne; symmetry; exact E).
  induction m as [| [k v] rest IH]; cbn [Map_set Map_get].
  - rewrite Hk. reflexivity.
  - destruct (String.eqb k key') eqn:E; cbn [Map_get].
    + apply String.eqb_eq in E. subst k. rewrite Hk. reflexivity.
    + destruct (String.eqb k key); [reflexivity | exact IH].
Qed.

Lemma Map_get_In {V : Type} (key : string) (value : V) (m : list (string * V)) :
  Map_get key m = Some value -> In (key, value) m.
Proof.
  induction m as [| [k v] rest IH]; cbn [Map_get]; [discriminate |].
  destruct (String.eqb k key) eqn:E.
  - apply String.eqb_eq in E. intros H. injection H as ->. subst. left. reflexivity.
  - intros H. right. apply IH. exact H.
Qed.

Lemma In_Map_has {V : Type} (key : string) (value : V) (m : list (string * V)) :
  In (key, value) m -> Map_has key m = true.
Proof.
  intros Hin. unfold Map_has. apply existsb_exists.
  exists (key, value). split; [exact Hin | apply String.eqb_refl].
Qed.

Lemma Map_has_In {V : Type} (key : string) (m : list (string * V)) :
  Map_has key m = true -> In key (map fst m).
Proof.
  unfold Map_has. intros H. apply existsb_exists in H.
  destruct H as ([k v] & Hin & E). cbn [fst] in E. apply String.eqb_eq in E. subst.
  apply (in_map fst) in Hin. exact Hin.
Qed.

(** With distinct keys, the entry under a key is the one looked up. *)
Lemma In_Map_get {V : Type} (key : string) (value : V) (m : list (string * V)) :
  NoDup (map fst m) -> In (key, value) m -> Map_get key m = Some value.
Proof.
  induction m as [| [k v] rest IH]; cbn [map fst Map_get]; [contradiction |].
  intros Hnd [E | Hin].
  - injection E as -> ->. rewrite String.eqb_refl. reflexivity.
  - inversion Hnd as [| ? ? Hnotin Hnd']; subst.
    destruct (String.eqb k key) eqn:E.
    + apply String.eqb_eq in E. subst k. exfalso. apply Hnotin.
      apply (in_map fst) in Hin. exact Hin.
    + apply IH; assumption.
Qed.

Lemma Map_get_filter_keys {V : Type} (g : string -> bool) (key : string)
      (m : list (string * V)) :
  Map_get key (filter (fun kv => g (fst kv)) m)
  = if g key then Map_get key m else None.
Proof.
  induction m as [| [k v] rest IH]; cbn [filter Map_get fst].
  - destruct (g key); reflexivity.
  - destruct (g k) eqn:Hg; cbn [Map_get]; destruct (String.eqb k key) eqn:E.
    + apply String.eqb_eq in E. subst k. rewrite Hg. reflexivity.
    + exact IH.
    + apply String.eqb_eq in E. subst k. rewrite IH, Hg. reflexivity.
    + exact IH.
Qed.

Lemma Map_get_filter_has {V W : Type} (snapshot : list (string * W))
      (key : string) (m : list (string * V)) :
  Map_get key (filter (fun kv => Map_has (fst kv) snapshot) m)
  = if Map_has key snapshot then Map_get key m else None.
Proof. exact (Map_get_filter_keys (fun k => Map_has k snapshot) key m). Qed.

Lemma Map_get_db_set_same {A : Type} (key : string) (value : A)
      (children : list (string * A)) :
  Map_get key (db_set key value children) = Some value.
Proof.
  induction children as [| [k v] rest IH]; cbn [db_set Map_get].
  - rewrite String.eqb_refl. reflexivity.
  - destruct (String.eqb k key) eqn:E; cbn [Map_get].
    + rewrite String.eqb_refl. reflexivity.
    + destruct (String.ltb key k); cbn [Map_get].
      * rewrite String.eqb_refl. reflexivity.
      * rewrite E. exact IH.
Qed.

Lemma Map_get_db_set_other {A : Type} (key key' : string) (value : A)
      (children : list (string * A)) :
  key <> key' -> Map_get key (db_set key' value children) = Map_get key children.
Proof.
  intros Hne.
  assert (Hk : String.eqb key' key = false)
    by (apply String.eqb_neq; intros E; apply Hne; symmetry; exact E).
  induction children as [| [k v] rest IH]; cbn [db_set Map_get].
  - rewrite Hk. reflexivity.
  - destruct (String.eqb k key') eqn:E; cbn [Map_get].
    + apply String.eqb_eq in E. subst k. rewrite Hk. reflexivity.
    + destruct (String.ltb key' k); cbn [Map_get].
      * rewrite Hk. reflexivity.
      * destruct (String.eqb k key); [reflexivity | exact IH].
Qed.

(** ** Publishing the local player *)

(** X12. [updatePlayerData] always returns, whatever the state of the
    player; it changes no record of the store but the caller's own player
    record (the projectiles, the death effects and the other players'
    records are as before) and keeps the client's identity and host role;
    and after a call that passed the publish interval at clock [now], a call
    at any clock in the 33 ms that follow changes nothing and logs
    nothing, also when the first call found no orientation to publish. *)
Theorem updatePlayerData_own_record (now : Z) (localPlayer : Player)
        (m : MultiplayerManager) (db : Database) :
  exists o,
    updatePlayerData now localPlayer m db = Returns o
    /\ mm_playerUUID (manager o) = mm_playerUUID m
    /\ isHost (manager o) = isHost m
    /\ db_projectiles (database o) = db_projectiles db
    /\ db_deathEffects (database o) = db_deathEffects db
    /\ (forall k, k <> mm_playerUUID m ->
                  Map_get k (db_players (database o)) = Map_get k (db_players db))
    /\ ((lastUpdateTime m + updateInterval <= now)%Z ->
        forall now' localPlayer',
          (now <= now' < now + updateInterval)%Z ->
          updatePlayerData now' localPlayer' (manager o) (database o)
          = Returns (mkOutcome (manager o) (database o) [])).
Proof.
  unfold updatePlayerData at 1.
  destruct (now - lastUpdateTime m <? updateInterval)%Z eqn:Hearly.
  - eexists. split; [reflexivity |]. cbn [manager database].
    repeat split. intros Hpast. apply Z.ltb_lt in Hearly. lia.
  - assert (Hlater : forall m' db',
              lastUpdateTime m' = now ->
              forall now' localPlayer',
                (now <= now' < now + updateInterval)%Z ->
                updatePlayerData now' localPlayer' m' db'
                = Returns (mkOutcome m' db' [])).
    { intros m' db' Hlast now' localPlayer' Hnow'. unfold updatePlayerData.
      rewrite Hlast.
      destruct (now' - now <? updateInterval)%Z eqn:E; [reflexivity |].
      apply Z.ltb_ge in E. lia. }
    destruct (rotationQuaternion localPlayer) as [q |].
    + cbn [quaternionField bind]. eexists. split; [reflexivity |].
      cbn [manager database mm_playerUUID isHost db_players db_projectiles
           db_deathEffects].
      split; [reflexivity |]. split; [reflexivity |].
      split; [reflexivity |]. split; [reflexivity |]. split.
      * intros k Hk. apply Map_get_db_set_other. exact Hk.
      * intros _ now' localPlayer' Hnow'. apply Hlater; [reflexivity | exact Hnow'].
    + eexists. split; [reflexivity |]. cbn [manager database].
      split; [reflexivity |]. split; [reflexivity |].
      split; [reflexivity |]. split; [reflexivity |]. split.
      * intros k _. reflexivity.
      * intros _ now' localPlayer' Hnow'. apply Hlater; [reflexivity | exact Hnow'].
Qed.

(** ** The order of keys *)

Lemma Ascii_compare_refl (c : Ascii.ascii) : Ascii.compare c c = Eq.
Proof. unfold Ascii.compare. apply N.compare_refl. Qed.

Lemma String_compare_refl (s : string) : String.compare s s = Eq.
Proof.
  induction s as [| c s IH]; [reflexivity |].
  cbn [String.compare]. rewrite Ascii_compare_refl. exact IH.
Qed.

Lemma String_compare_lt_trans (s1 s2 s3 : string) :
  String.compare s1 s2 = Lt -> String.compare s2 s3 = Lt ->
  String.compare s1 s3 = Lt.
Proof.
  revert s2 s3. induction s1 as [| c1 s1 IH]; intros [| c2 s2] [| c3 s3];
    cbn [String.compare]; try discriminate; try reflexivity.
  destruct (Ascii.compare c1 c2) eqn:E12; try discriminate;
    destruct (Ascii.compare c2 c3) eqn:E23; try discriminate.
  - apply Ascii.compare_eq_iff in E12, E23. subst.
    rewrite Ascii_compare_refl. apply IH.
  - apply Ascii.compare_eq_iff in E12. subst. rewrite E23. reflexivity.
  - apply Ascii.compare_eq_iff in E23. subst. rewrite E12. reflexivity.
  - unfold Ascii.compare in *. rewrite N.compare_lt_iff in *.
    intros _ _.
    assert (H : (Ascii.N_of_ascii c1 < Ascii.N_of_ascii c3)%N)
      by (eapply N.lt_trans; eassumption).
    apply N.compare_lt_iff in H. rewrite H. reflexivity.
Qed.

Lemma String_ltb_trans (a b c : string) :
  String.ltb a b = true -> String.ltb b c = true -> String.ltb a c = true.
Proof.
  unfold String.ltb.
  destruct (String.compare a b) eqn:Eab; try discriminate.
  destruct (String.compare b c) eqn:Ebc; try discriminate.
  intros _ _. rewrite (String_compare_lt_trans a b c Eab Ebc). reflexivity.
Qed.

Lemma String_ltb_irrefl (a : string) : String.ltb a a = false.
Proof. unfold String.ltb. rewrite String_compare_refl. reflexivity. Qed.

(** Two keys that are neither equal nor in order are in the other order. *)
Lemma String_ltb_total (a b : string) :
  String.eqb a b = false -> String.ltb b a = false -> String.ltb a b = true.
Proof.
  unfold String.ltb. intros Hne Hlt.
  rewrite String.compare_antisym.
  destruct (String.compare b a) eqn:E; cbn [CompOpp].
  - apply String.compare_eq_iff in E. subst. rewrite String.eqb_refl in Hne.
    discriminate.
  - discriminate.
  - reflexivity.
Qed.

Lemma keyOrdered_NoDup {A : Type} (children : list (string * A)) :
  keyOrdered children -> NoDup (map fst children).
Proof.
  unfold keyOrdered. generalize (map fst children) as keys.
  intros keys H. induction H as [| k rest Hs IH Hall]; constructor.
  - intros Hin. rewrite Forall_forall in Hall. specialize (Hall k Hin).
    rewrite String_ltb_irrefl in Hall. discriminate.
  - exact IH.
Qed.

Lemma db_set_keys {A : Type} (key : string) (value : A)
      (children : list (string * A)) (k : string) :
  In k (map fst (db_set key value children)) ->
  k = key \/ In k (map fst children).
Proof.
  induction children as [| [k0 v0] rest IH]; cbn [db_set map fst In].
  - intros [E | []]. left. symmetry. exact E.
  - destruct (String.eqb k0 key) eqn:E; cbn [map fst In].
    + intros [H | H]; [left; symmetry; exact H | right; right; exact H].
    + destruct (String.ltb key k0); cbn [map fst In].
      * intros [H | [H | H]];
          [left; symmetry; exact H | right; left; exact H | right; right; exact H].
      * intros [H | H]; [right; left; exact H |].
        destruct (IH H) as [H' | H']; [left; exact H' | right; right; exact H'].
Qed.

(** [set] keeps the children of a node in key order. *)
Lemma db_set_keyOrdered {A : Type} (key : string) (value : A)
      (children : list (string * A)) :
  keyOrdered children -> keyOrdered (db_set key value children).
Proof.
  unfold keyOrdered.
  induction children as [| [k0 v0] rest IH]; cbn [db_set map fst]; intros H.
  - constructor; [constructor | constructor].
  - inversion H as [| ? ? Hrest Hall]; subst.
    destruct (String.eqb k0 key) eqn:E.
    + apply String.eqb_eq in E. subst k0. cbn [map fst]. exact H.
    + destruct (String.ltb key k0) eqn:L; cbn [map fst].
      * constructor; [exact H |].
        constructor; [exact L |].
        eapply Forall_impl; [| exact Hall].
        intros k Hk. cbv beta in *. eapply String_ltb_trans; eassumption.
      * constructor; [apply IH; exact Hrest |].
        apply Forall_forall. intros k Hin.
        destruct (db_set_keys key value rest k Hin) as [-> | Hin'].
        -- apply String_ltb_total; assumption.
        -- rewrite Forall_forall in Hall. apply Hall. exact Hin'.
Qed.

(** ** The players listener *)

Lemma onPlayerEntry_other (now : Z) (self : string) (fresh : string -> Player)
      (others : list (string * Player)) (entry : string * PlayerData) (k : string) :
  k <> fst entry ->
  Map_get k (onPlayerEntry now self fresh others entry) = Map_get k others.
Proof.
  intros Hk. unfold onPlayerEntry.
  destruct (String.eqb (fst entry) self); [reflexivity |].
  destruct (now - lastUpdate (snd entry) >? 10000)%Z; [reflexivity |].
  destruct (Map_has (fst entry) others).
  - destruct (Map_get (fst entry) others); [| reflexivity].
    apply Map_get_set_other. exact Hk.
  - rewrite Map_get_set_same, !Map_get_set_other by exact Hk. reflexivity.
Qed.

(** The mirror that a record finds or creates, and leaves updated. *)
Lemma onPlayerEntry_hit (now : Z) (self : string) (fresh : string -> Player)
      (others : list (string * Player)) (entry : string * PlayerData) :
  fst entry <> self ->
  (now - lastUpdate (snd entry) <= 10000)%Z ->
  Map_get (fst entry) (onPlayerEntry now self fresh others entry)
  = Some (updateRemotePlayer now
            (match Map_get (fst entry) others with
             | Some remotePlayer => remotePlayer
             | None => setAsRemotePlayer (fresh (fst entry))
             end)
            (snd entry)).
Proof.
  intros Hself Hfresh. unfold onPlayerEntry.
  apply String.eqb_neq in Hself. rewrite Hself.
  destruct (now - lastUpdate (snd entry) >? 10000)%Z eqn:E;
    [apply Z.gtb_gt in E; lia |].
  rewrite Map_has_get.
  destruct (Map_get (fst entry) others) as [r |] eqn:Hget.
  - rewrite Hget. apply Map_get_set_same.
  - rewrite Map_get_set_same. apply Map_get_set_same.
Qed.

Lemma onPlayerEntry_skip (now : Z) (self : string) (fresh : string -> Player)
      (others : list (string * Player)) (entry : string * PlayerData) :
  fst entry = self \/ (now - lastUpdate (snd entry) > 10000)%Z ->
  onPlayerEntry now self fresh others entry = others.
Proof.
  intros H. unfold onPlayerEntry.
  destruct (String.eqb (fst entry) self) eqn:E; [reflexivity |].
  destruct (now - lastUpdate (snd entry) >? 10000)%Z eqn:E'; [reflexivity |].
  destruct H as [H | H].
  - apply String.eqb_neq in E. contradiction.
  - destruct (Z.gtb_spec (now - lastUpdate (snd entry)) 10000); [discriminate | lia].
Qed.

Lemma fold_onPlayerEntry_other (now : Z) (self : string) (fresh : string -> Player)
      (players : list (string * PlayerData)) (others : list (string * Player))
      (k : string) :
  ~ In k (map fst players) ->
  Map_get k (fold_left (onPlayerEntry now self fresh) players others)
  = Map_get k others.
Proof.
  revert others. induction players as [| entry rest IH]; intros others Hk;
    [reflexivity |].
  cbn [fold_left]. rewrite IH.
  - apply onPlayerEntry_other. intros E. apply Hk. left. symmetry. exact E.
  - intros Hin. apply Hk. right. exact Hin.
Qed.

Lemma fold_onPlayerEntry_self (now : Z) (self : string) (fresh : string -> Player)
      (players : list (string * PlayerData)) (others : list (string * Player)) :
  Map_get self (fold_left (onPlayerEntry now self fresh) players others)
  = Map_get self others.
Proof.
  revert others. induction players as [| entry rest IH]; intros others;
    [reflexivity |].
  cbn [fold_left]. rewrite IH.
  destruct (String.eqb (fst entry) self) eqn:E.
  - apply String.eqb_eq in E. rewrite onPlayerEntry_skip by (left; exact E).
    reflexivity.
  - apply onPlayerEntry_other. apply String.eqb_neq in E.
    intros E'. apply E. symmetry. exact E'.
Qed.

Lemma fold_onPlayerEntry_hit (now : Z) (self : string) (fresh : string -> Player)
      (players : list (string * PlayerData)) (others : list (string * Player))
      (k : string) (playerData : PlayerData) :
  NoDup (map fst players) ->
  In (k, playerData) players ->
  k <> self ->
  (now - lastUpdate playerData <= 10000)%Z ->
  Map_get k (fold_left (onPlayerEntry now self fresh) players others)
  = Some (updateRemotePlayer now
            (match Map_get k others with
             | Some remotePlayer => remotePlayer
             | None => setAsRemotePlayer (fresh k)
             end)
            playerData).
Proof.
  revert others. induction players as [| entry rest IH]; intros others Hnd Hin Hk Hfresh;
    [contradiction |].
  cbn [map] in Hnd. inversion Hnd as [| ? ? Hnotin Hnd']; subst.
  cbn [fold_left]. destruct Hin as [E | Hin].
  - subst entry. rewrite fold_onPlayerEntry_other by exact Hnotin.
    apply (onPlayerEntry_hit now self fresh others (k, playerData)); assumption.
  - rewrite (IH _ Hnd' Hin Hk Hfresh).
    rewrite onPlayerEntry_other; [reflexivity |].
    intros E. apply Hnotin. rewrite <- E. apply (in_map fst) in Hin. exact Hin.
Qed.

Lemma onPlayersValue_hit (now : Z) (self : string) (fresh : string -> Player)
      (players : list (string * PlayerData)) (mirrored : list (string * Player))
      (k : string) (playerData : PlayerData) :
  NoDup (map fst players) ->
  In (k, playerData) players -> k <> self ->
  (now - lastUpdate playerData <= 10000)%Z ->
  Map_get k (onPlayersValue now self fresh players mirrored)
  = Some (updateRemotePlayer now
            (match Map_get k mirrored with
             | Some remotePlayer => remotePlayer
             | None => setAsRemotePlayer (fresh k)
             end)
            playerData).
Proof.
  intros Hnd Hin Hk Hfresh.
  destruct players as [| entry rest]; [contradiction |].
  unfold onPlayersValue. rewrite Map_get_filter_has.
  rewrite (In_Map_has k playerData _ Hin).
  apply fold_onPlayerEntry_hit; assumption.
Qed.

(** X13. The players listener on a snapshot of the store.  An empty
    snapshot leaves the mirrors as they are.  Otherwise every key mirrored
    afterwards is a key of the snapshot (the mirrors of players whose record
    is gone are dropped); the client's own record is never mirrored; and a
    record of another player that is no staler than 10 s leaves, under its
    key, the mirror it found or the one it created with [new Player] and
    [setAsRemotePlayer], after [updateRemotePlayer] with the record. *)
Theorem onPlayersValue_mirrors (now : Z) (self : string) (fresh : string -> Player)
        (players : list (string * PlayerData)) (mirrored : list (string * Player)) :
  onPlayersValue now self fresh [] mirrored = mirrored
  /\ (players <> [] ->
      forall k, Map_has k (onPlayersValue now self fresh players mirrored) = true ->
                In k (map fst players))
  /\ (Map_has self mirrored = false ->
      Map_has self (onPlayersValue now self fresh players mirrored) = false)
  /\ (NoDup (map fst players) ->
      forall k playerData,
        In (k, playerData) players -> k <> self ->
        (now - lastUpdate playerData <= 10000)%Z ->
        Map_get k (onPlayersValue now self fresh players mirrored)
        = Some (updateRemotePlayer now
                  (match Map_get k mirrored with
                   | Some remotePlayer => remotePlayer
                   | None => setAsRemotePlayer (fresh k)
                   end)
                  playerData)).
Proof.
  split; [reflexivity |].
  destruct players as [| entry rest].
  { split; [intros H; contradiction |].
    split; [intros H; exact H |]. intros _ k d []. }
  unfold onPlayersValue.
  set (players := entry :: rest).
  set (processed := fold_left (onPlayerEntry now self fresh) players mirrored).
  split; [| split].
  - intros _ k Hhas. rewrite Map_has_get, Map_get_filter_has in Hhas.
    destruct (Map_has k players) eqn:Hk; [| discriminate].
    apply Map_has_In. exact Hk.
  - intros Hself. rewrite Map_has_get, Map_get_filter_has.
    unfold processed. rewrite fold_onPlayerEntry_self.
    rewrite Map_has_get in Hself.
    destruct (Map_has self players); [exact Hself | reflexivity].
  - intros Hnd k d Hin Hk Hfresh.
    apply (onPlayersValue_hit now self fresh players); assumption.
Qed.

(** What a sample leaves of the published jetpack flag and orientation. *)
Lemma updateRemotePlayer_state (now : Z) (p : Player) (playerData : PlayerData) :
  isRemotePlayer p = true ->
  let p' := updateRemotePlayer now p playerData in
  jetpackActive p' = isJetpackActive playerData
  /\ targetRotation p' = Some (pd_rotation playerData).
Proof.
  intros Hremote. cbv zeta.
  destruct (setRemotePosition_body now (pd_position playerData) p Hremote)
    as (H1 & _).
  cbv zeta in H1. unfold updateRemotePlayer.
  set (p1 := setRemotePosition now (pd_position playerData) p) in *.
  unfold setRemoteRotation. rewrite H1. cbn [negb].
  destruct (pd_rotation playerData) as [x y z w]. cbn [qx qy qz qw].
  unfold activateJetpack, deactivateJetpack.
  destruct (isJetpackActive playerData); player_fields;
    destruct (currentInterpolatedRotation p1); player_fields;
    try destruct (hasFuel p1 && negb (particlesStarted p1))%bool;
    player_fields; split; reflexivity.
Qed.

Lemma allRemote_get (mirrored : list (string * Player)) (k : string) (r : Player) :
  allRemote mirrored -> Map_get k mirrored = Some r -> isRemotePlayer r = true.
Proof.
  intros Hall Hget. apply Map_get_In in Hget.
  unfold allRemote in Hall. rewrite Forall_forall in Hall.
  exact (Hall (k, r) Hget).
Qed.

(** X14. From one client's player to the other client's mirror: when a
    local player with an orientation is published by [updatePlayerData] (past
    the publish interval, into a store whose player records are in key
    order), the players listener of any other client, run within 10 s on the
    store as it then is, leaves under the publisher's key a remote player
    whose interpolation target is the publisher's position, whose target
    orientation is the publisher's orientation, whose jetpack flag is the
    publisher's and whose target height is the distance of that position
    from the centre less the planet's radius: for a publisher on the surface,
    the publisher's height. *)
Theorem publish_then_mirror (now now' : Z) (localPlayer : Player) (q : Quaternion)
        (m : MultiplayerManager) (db : Database)
        (other : string) (fresh : string -> Player)
        (mirrored : list (string * Player)) :
  rotationQuaternion localPlayer = Some q ->
  (lastUpdateTime m + updateInterval <= now)%Z ->
  keyOrdered (db_players db) ->
  mm_playerUUID m <> other ->
  (now' - now <= 10000)%Z ->
  allRemote mirrored ->
  exists o remotePlayer,
    updatePlayerData now localPlayer m db = Returns o
    /\ Map_get (mm_playerUUID m)
               (onPlayersValue now' other fresh (db_players (database o)) mirrored)
       = Some remotePlayer
    /\ isRemotePlayer remotePlayer = true
    /\ targetPosition remotePlayer = Some (mesh_position localPlayer)
    /\ targetRotation remotePlayer = Some q
    /\ jetpackActive remotePlayer = jetpackActive localPlayer
    /\ targetHeight remotePlayer = length (mesh_position localPlayer) - getBaseRadius
    /\ (onSurface localPlayer ->
        targetHeight remotePlayer = heightAboveSurface localPlayer).
Proof.
  intros Hq Hpast Hord Hother Hfresh Hall.
  unfold updatePlayerData.
  destruct (now - lastUpdateTime m <? updateInterval)%Z eqn:Hearly;
    [apply Z.ltb_lt in Hearly; lia |].
  rewrite Hq. cbn [quaternionField bind mm_playerUUID].
  set (playerData := mkPlayerData (mesh_position localPlayer)
                       (mkQuaternion (qx q) (qy q) (qz q) (qw q))
                       (jetpackActive localPlayer) now).
  set (players := db_set (mm_playerUUID m) playerData (db_players db)).
  set (found := match Map_get (mm_playerUUID m) mirrored with
                | Some remotePlayer => remotePlayer
                | None => setAsRemotePlayer (fresh (mm_playerUUID m))
                end).
  assert (Hremote : isRemotePlayer found = true).
  { unfold found. destruct (Map_get (mm_playerUUID m) mirrored) as [r |] eqn:Hget.
    - exact (allRemote_get mirrored _ r Hall Hget).
    - reflexivity. }
  eexists. exists (updateRemotePlayer now' found playerData).
  split; [reflexivity |]. cbn [database db_players].
  fold players.
  split.
  { apply onPlayersValue_hit.
    - apply keyOrdered_NoDup. apply db_set_keyOrdered. exact Hord.
    - apply Map_get_In. apply Map_get_db_set_same.
    - exact Hother.
    - cbn [lastUpdate playerData]. exact Hfresh. }
  destruct (updateRemotePlayer_body now' found playerData Hremote)
    as (B1 & _ & B3 & B4 & _).
  destruct (updateRemotePlayer_state now' found playerData Hremote) as (S1 & S2).
  cbv zeta in B1, B3, B4, S1, S2.
  split; [exact B1 |]. split; [exact B3 |].
  split; [rewrite S2; destruct q; reflexivity |].
  split; [exact S1 |]. split; [exact B4 |].
  intros Hon. rewrite B4. cbn [pd_position playerData].
  unfold onSurface in Hon. rewrite Hon. ring.
Qed.

(** ** The projectiles listener *)

Lemma onProjectileEntry_other (now : Z) (m : MultiplayerManager)
      (fresh : string -> nat) (others : list (string * Projectile))
      (entry : string * ProjectileData) (k : string) :
  k <> fst entry ->
  Map_get k (onProjectileEntry now m fresh others entry) = Map_get k others.
Proof.
  intros Hk. unfold onProjectileEntry.
  destruct (mirrorsProjectile now m (snd entry)); [| reflexivity].
  destruct (Map_has (fst entry) others); [reflexivity |].
  apply Map_get_set_other. exact Hk.
Qed.

(** A projectile that is mirrored is never made anew. *)
Lemma onProjectileEntry_kept (now : Z) (m : MultiplayerManager)
      (fresh : string -> nat) (others : list (string * Projectile))
      (entry : string * ProjectileData) (k : string) (q : Projectile) :
  Map_get k others = Some q ->
  Map_get k (onProjectileEntry now m fresh others entry) = Some q.
Proof.
  intros Hget. unfold onProjectileEntry.
  destruct (mirrorsProjectile now m (snd entry)); [| exact Hget].
  destruct (Map_has (fst entry) others) eqn:Hhas; [exact Hget |].
  rewrite Map_get_set_other; [exact Hget |].
  intros E. subst k. rewrite Map_has_get, Hget in Hhas. discriminate.
Qed.

Lemma onProjectileEntry_new (now : Z) (m : MultiplayerManager)
      (fresh : string -> nat) (others : list (string * Projectile))
      (entry : string * ProjectileData) :
  Map_get (fst entry) others = None ->
  Map_get (fst entry) (onProjectileEntry now m fresh others entry)
  = if mirrorsProjectile now m (snd entry)
    then Some (mirrorProjectile now (fresh (fst entry)) (snd entry))
    else None.
Proof.
  intros Hget. unfold onProjectileEntry.
  destruct (mirrorsProjectile now m (snd entry)); [| exact Hget].
  rewrite Map_has_get, Hget. apply Map_get_set_same.
Qed.

Lemma fold_onProjectileEntry_kept (now : Z) (m : MultiplayerManager)
      (fresh : string -> nat) (projectiles : list (string * ProjectileData))
      (others : list (string * Projectile)) (k : string) (q : Projectile) :
  Map_get k others = Some q ->
  Map_get k (fold_left (onProjectileEntry now m fresh) projectiles others) = Some q.
Proof.
  revert others. induction projectiles as [| entry rest IH]; intros others Hget;
    [exact Hget |].
  cbn [fold_left]. apply IH. apply onProjectileEntry_kept. exact Hget.
Qed.

(** Where a new mirror comes from. *)
Lemma fold_onProjectileEntry_origin (now : Z) (m : MultiplayerManager)
      (fresh : string -> nat) (projectiles : list (string * ProjectileData))
      (others : list (string * Projectile)) (k : string) (q : Projectile) :
  Map_get k others = None ->
  Map_get k (fold_left (onProjectileEntry now m fresh) projectiles others) = Some q ->
  exists projData,
    In (k, projData) projectiles
    /\ mirrorsProjectile now m projData = true
    /\ q = mirrorProjectile now (fresh k) projData.
Proof.
  revert others. induction projectiles as [| [id d] rest IH]; intros others Hnone Hget.
  - cbn [fold_left] in Hget. congruence.
  - cbn [fold_left] in Hget.
    destruct (Map_get k (onProjectileEntry now m fresh others (id, d))) as [q1 |] eqn:H1.
    + rewrite (fold_onProjectileEntry_kept now m fresh rest _ k q1 H1) in Hget.
      injection Hget as <-.
      destruct (String.eqb k id) eqn:E.
      * apply String.eqb_eq in E. subst id.
        pose proof (onProjectileEntry_new now m fresh others (k, d) Hnone) as Hnew.
        cbn [fst snd] in Hnew. rewrite Hnew in H1.
        destruct (mirrorsProjectile now m d) eqn:Hm; [| discriminate].
        injection H1 as <-. exists d.
        split; [left; reflexivity |]. split; [exact Hm | reflexivity].
      * apply String.eqb_neq in E.
        rewrite (onProjectileEntry_other now m fresh others (id, d) k E) in H1.
        congruence.
    + destruct (IH _ H1 Hget) as (d' & Hin & Hm & Hq).
      exists d'. split; [right; exact Hin |]. split; assumption.
Qed.

Lemma fold_onProjectileEntry_other (now : Z) (m : MultiplayerManager)
      (fresh : string -> nat) (projectiles : list (string * ProjectileData))
      (others : list (string * Projectile)) (k : string) :
  ~ In k (map fst projectiles) ->
  Map_get k (fold_left (onProjectileEntry now m fresh) projectiles others)
  = Map_get k others.
Proof.
  revert others. induction projectiles as [| entry rest IH]; intros others Hk;
    [reflexivity |].
  cbn [fold_left]. rewrite IH.
  - apply onProjectileEntry_other. intros E. apply Hk. left. symmetry. exact E.
  - intros Hin. apply Hk. right. exact Hin.
Qed.

Lemma fold_onProjectileEntry_new (now : Z) (m : MultiplayerManager)
      (fresh : string -> nat) (projectiles : list (string * ProjectileData))
      (others : list (string * Projectile)) (k : string) (projData : ProjectileData) :
  NoDup (map fst projectiles) ->
  In (k, projData) projectiles ->
  Map_get k others = None ->
  Map_get k (fold_left (onProjectileEntry now m fresh) projectiles others)
  = if mirrorsProjectile now m projData
    then Some (mirrorProjectile now (fresh k) projData)
    else None.
Proof.
  revert others. induction projectiles as [| entry rest IH]; intros others Hnd Hin Hnone;
    [contradiction |].
  cbn [map] in Hnd. inversion Hnd as [| ? ? Hnotin Hnd']; subst.
  cbn [fold_left]. destruct Hin as [E | Hin].
  - subst entry. rewrite fold_onProjectileEntry_other by exact Hnotin.
    exact (onProjectileEntry_new now m fresh others (k, projData) Hnone).
  - apply IH; try assumption.
    rewrite onProjectileEntry_other; [exact Hnone |].
    intros E. apply Hnotin. rewrite <- E. apply (in_map fst) in Hin. exact Hin.
Qed.

(** X15. The projectiles listener on a snapshot of the store.  An empty
    snapshot leaves the mirrored projectiles as they are.  Otherwise a
    mirrored projectile whose record is still there is kept as it is, retired
    or not, and never made anew; one whose record is gone is dropped; and a
    projectile mirrored by this pass comes from a record under its key that
    another client owns and that is no older than 2 s: it is active, has the
    record's position, direction and owner, and its lifespan runs from the
    listener's clock, not from the creation time of the record. *)
Theorem onProjectilesValue_mirrors (now : Z) (m : MultiplayerManager)
        (fresh : string -> nat) (projectiles : list (string * ProjectileData))
        (mirrored : list (string * Projectile)) :
  onProjectilesValue now m fresh [] mirrored = mirrored
  /\ (forall k q,
        Map_get k mirrored = Some q -> Map_has k projectiles = true ->
        Map_get k (onProjectilesValue now m fresh projectiles mirrored) = Some q)
  /\ (projectiles <> [] ->
      forall k, Map_has k projectiles = false ->
                Map_get k (onProjectilesValue now m fresh projectiles mirrored) = None)
  /\ (forall k q,
        Map_get k mirrored = None ->
        Map_get k (onProjectilesValue now m fresh projectiles mirrored) = Some q ->
        exists projData,
          In (k, projData) projectiles
          /\ pr_ownerUUID projData <> mm_playerUUID m
          /\ (now - pr_createdAt projData <= 2000)%Z
          /\ q = mirrorProjectile now (fresh k) projData
          /\ isActive q = true
          /\ spawnTime q = now).
Proof.
  split; [reflexivity |].
  destruct projectiles as [| entry rest].
  { split; [intros k q _ H; discriminate |].
    split; [intros H; contradiction |].
    intros k q Hnone Hget. cbn [onProjectilesValue] in Hget. congruence. }
  unfold onProjectilesValue.
  set (projectiles := entry :: rest).
  split; [| split].
  - intros k q Hget Hhas. rewrite Map_get_filter_has, Hhas.
    apply fold_onProjectileEntry_kept. exact Hget.
  - intros _ k Hhas. rewrite Map_get_filter_has, Hhas. reflexivity.
  - intros k q Hnone Hget. rewrite Map_get_filter_has in Hget.
    destruct (Map_has k projectiles); [| discriminate].
    destruct (fold_onProjectileEntry_origin now m fresh projectiles mirrored k q
                Hnone Hget) as (d & Hin & Hm & Hq).
    exists d. split; [exact Hin |].
    unfold mirrorsProjectile in Hm.
    destruct (String.eqb (pr_ownerUUID d) (mm_playerUUID m)) eqn:Eo; [discriminate |].
    destruct (now - pr_createdAt d >? 2000)%Z eqn:Ea; [discriminate |].
    split; [apply String.eqb_neq; exact Eo |].
    split; [destruct (Z.gtb_spec (now - pr_createdAt d) 2000); [discriminate | lia] |].
    split; [exact Hq |]. rewrite Hq. split; reflexivity.
Qed.

Lemma onProjectilesValue_new (now : Z) (m : MultiplayerManager)
      (fresh : string -> nat) (projectiles : list (string * ProjectileData))
      (mirrored : list (string * Projectile)) (k : string) (projData : ProjectileData) :
  NoDup (map fst projectiles) ->
  In (k, projData) projectiles ->
  Map_get k mirrored = None ->
  Map_get k (onProjectilesValue now m fresh projectiles mirrored)
  = if mirrorsProjectile now m projData
    then Some (mirrorProjectile now (fresh k) projData)
    else None.
Proof.
  intros Hnd Hin Hnone.
  destruct projectiles as [| entry rest]; [contradiction |].
  unfold onProjectilesValue. rewrite Map_get_filter_has.
  rewrite (In_Map_has k projData _ Hin).
  apply fold_onProjectileEntry_new; assumption.
Qed.

(** X16. From a shot to the other clients: when a local player with a
    multiplayer manager shoots, the projectile is registered with
    [addProjectile] at the spawn position half a unit ahead and with the
    forward direction; the shooter's own projectiles listener never mirrors
    the record back, and the listener of any other client, run within 2 s on
    a store whose projectile records are in key order, mirrors it as an
    active projectile with the position, direction and owner of the
    shooter's own, whose lifespan starts at the listener's clock. *)
Theorem shot_reaches_other_clients
        (now now' : Z) (meshId : nat) (projectileId : string) (p : Player)
        (m other : MultiplayerManager) (db : Database) (fresh : string -> nat)
        (mirrored mirrored' : list (string * Projectile)) :
  isRemotePlayer p = false ->
  multiplayerManager p = true ->
  mm_playerUUID m = uuid p ->
  mm_playerUUID other <> uuid p ->
  keyOrdered (db_projectiles db) ->
  (now' - now <= 2000)%Z ->
  Map_get projectileId mirrored = None ->
  Map_get projectileId mirrored' = None ->
  exists pos direction local q,
    shoot now meshId p
    = (set_projectiles (projectiles p ++ [local]) p, Some (pos, direction))
    /\ pos = add (mesh_position p) (scale (mesh_forward (rotationQuaternion p)) 0.5)
    /\ Map_get projectileId
         (onProjectilesValue now' m fresh
            (db_projectiles (fst (addProjectile now projectileId pos direction m db)))
            mirrored) = None
    /\ Map_get projectileId
         (onProjectilesValue now' other fresh
            (db_projectiles (fst (addProjectile now projectileId pos direction m db)))
            mirrored') = Some q
    /\ position (proj_mesh q) = position (proj_mesh local)
    /\ startDirection q = startDirection local
    /\ ownerUUID q = ownerUUID local
    /\ isActive q = true /\ isActive local = true
    /\ spawnTime q = now' /\ spawnTime local = now.
Proof.
  intros Hlocal Hmgr Hself Hother Hord Hfresh Hnone Hnone'.
  unfold shoot. rewrite Hlocal. player_fields. rewrite Hmgr.
  set (forward := mesh_forward (rotationQuaternion p)).
  set (pos := add (mesh_position p) (scale forward 0.5)).
  set (local := mkProjectile (mkMesh meshId "projectile" None pos)
                             true now forward (uuid p)).
  set (projData := mkProjectileData projectileId pos forward (mm_playerUUID m) now).
  exists pos, forward, local, (mirrorProjectile now' (fresh projectileId) projData).
  split; [reflexivity |]. split; [reflexivity |].
  unfold addProjectile. cbn [fst db_projectiles]. fold projData.
  assert (Hnd : NoDup (map fst (db_set projectileId projData (db_projectiles db))))
    by (apply keyOrdered_NoDup, db_set_keyOrdered; exact Hord).
  assert (Hin : In (projectileId, projData)
                   (db_set projectileId projData (db_projectiles db)))
    by (apply Map_get_In, Map_get_db_set_same).
  split.
  { rewrite (onProjectilesValue_new now' m fresh _ mirrored projectileId projData
               Hnd Hin Hnone).
    unfold mirrorsProjectile. cbn [pr_ownerUUID projData].
    rewrite String.eqb_refl. reflexivity. }
  split.
  { rewrite (onProjectilesValue_new now' other fresh _ mirrored' projectileId projData
               Hnd Hin Hnone').
    unfold mirrorsProjectile. cbn [pr_ownerUUID pr_createdAt projData].
    rewrite Hself.
    assert (Ho : String.eqb (uuid p) (mm_playerUUID other) = false)
      by (apply String.eqb_neq; intros E; apply Hother; symmetry; exact E).
    rewrite Ho.
    destruct (now' - now >? 2000)%Z eqn:Ea; [apply Z.gtb_gt in Ea; lia |].
    reflexivity. }
  cbn [mirrorProjectile proj_mesh position startDirection ownerUUID isActive
       spawnTime pr_position pr_direction pr_ownerUUID projData local].
  repeat split. exact Hself.
Qed.

(** ** The frame update of the mirrors *)


Lemma respawn_respawned (u v : R) (p : Player) :
  respawned (respawn u v p)
  /\ isRemotePlayer (respawn u v p) = isRemotePlayer p.
Proof.
  unfold respawned, respawn, deactivateJetpack, spawnRandomPosition.
  player_fields. repeat split.
Qed.

(** What the hit callback of a mirrored projectile does. *)
Lemma onMirroredHit_cases (now : Z) (localMesh : nat) (effectId : string)
      (u v : R) (id owner : string) (target : AbstractMesh) (a : Arena) :
  let a' := onMirroredHit now localMesh effectId u v id owner target a in
  ar_hits a' = ar_hits a ++ [(id, target)]
  /\ db_players (ar_database a') = db_players (ar_database a)
  /\ db_projectiles (ar_database a') = db_projectiles (ar_database a)
  /\ ((mesh_id target <> localMesh
       /\ ar_reported a' = ar_reported a
       /\ ar_localPlayer a' = ar_localPlayer a
       /\ ar_database a' = ar_database a
       /\ ar_scene a' = ar_scene a
       /\ ar_timers a' = ar_timers a)
      \/ (mesh_id target = localMesh
          /\ ar_reported a' = ar_reported a ++ [owner]
          /\ ar_localPlayer a' = respawn u v (ar_localPlayer a)
          /\ db_deathEffects (ar_database a')
             = db_set effectId
                      (mkDeathEffectData effectId
                                         (mesh_position (ar_localPlayer a)) now)
                      (db_deathEffects (ar_database a))
          /\ ar_scene a'
             = moveMesh localMesh (mesh_position (respawn u v (ar_localPlayer a)))
                        (ar_scene a)
          /\ ar_timers a' = ar_timers a ++ [(effectId, 3000%Z)])).
Proof.
  cbv zeta. unfold onMirroredHit, createDeathEffect.
  destruct (Nat.eqb (mesh_id target) localMesh) eqn:E;
    cbn [ar_hits ar_database ar_reported ar_localPlayer ar_scene ar_timers
         db_players db_projectiles db_deathEffects].
  - apply Nat.eqb_eq in E. repeat split. right. repeat split. exact E.
  - apply Nat.eqb_neq in E. repeat split. left. repeat split. exact E.
Qed.

(** What one turn of the loop over the mirrored projectiles does. *)
Lemma updateMirroredProjectile_step (now : Z) (localMesh : nat)
      (pushKey : nat -> string) (draws : nat -> R * R)
      (m : MultiplayerManager) (id : string) (q : Projectile) (a : Arena) :
  let r := updateMirroredProjectile now localMesh pushKey draws m id q a in
  let q' := fst r in
  let a' := snd r in
  let i := List.length (ar_reported a) in
  db_players (ar_database a') = db_players (ar_database a)
  /\ (db_projectiles (ar_database a') = db_projectiles (ar_database a)
      \/ (isHost m = true /\ isActive q' = false
          /\ db_projectiles (ar_database a')
             = filter (fun kv => negb (String.eqb (fst kv) id))
                      (db_projectiles (ar_database a))))
  /\ (isHost m = false ->
      db_projectiles (ar_database a') = db_projectiles (ar_database a))
  /\ ((ar_reported a' = ar_reported a
       /\ ar_localPlayer a' = ar_localPlayer a
       /\ db_deathEffects (ar_database a') = db_deathEffects (ar_database a)
       /\ ar_scene a' = ar_scene a
       /\ ar_timers a' = ar_timers a
       /\ (ar_hits a' = ar_hits a
           \/ exists target, mesh_id target <> localMesh
                             /\ ar_hits a' = ar_hits a ++ [(id, target)]))
      \/ (ar_reported a' = ar_reported a ++ [ownerUUID q]
          /\ ar_localPlayer a'
             = respawn (fst (draws i)) (snd (draws i)) (ar_localPlayer a)
          /\ db_deathEffects (ar_database a')
             = db_set (pushKey i)
                      (mkDeathEffectData (pushKey i)
                                         (mesh_position (ar_localPlayer a)) now)
                      (db_deathEffects (ar_database a))
          /\ ar_timers a' = ar_timers a ++ [(pushKey i, 3000%Z)]
          /\ (exists target, mesh_id target = localMesh
                             /\ In target (ar_scene a)
                             /\ ar_hits a' = ar_hits a ++ [(id, target)]))).
Proof.
  cbv zeta. unfold updateMirroredProjectile.
  set (i := List.length (ar_reported a)).
  assert (Hquiet :
            forall q2 : Projectile,
              isActive q2 = false ->
              let a' := if isHost m
                        then mkArena (ar_scene a) (ar_localPlayer a)
                                     (removeProjectile id (ar_database a))
                                     (ar_hits a) (ar_reported a) (ar_timers a)
                        else a in
              db_players (ar_database a') = db_players (ar_database a)
              /\ (db_projectiles (ar_database a') = db_projectiles (ar_database a)
                  \/ (isHost m = true /\ isActive q2 = false
                      /\ db_projectiles (ar_database a')
                         = filter (fun kv => negb (String.eqb (fst kv) id))
                                  (db_projectiles (ar_database a))))
              /\ (isHost m = false ->
                  db_projectiles (ar_database a') = db_projectiles (ar_database a))
              /\ ar_reported a' = ar_reported a
              /\ ar_localPlayer a' = ar_localPlayer a
              /\ db_deathEffects (ar_database a') = db_deathEffects (ar_database a)
              /\ ar_scene a' = ar_scene a
              /\ ar_timers a' = ar_timers a
              /\ ar_hits a' = ar_hits a).
  { intros q2 Hq2. cbv zeta. destruct (isHost m) eqn:Hhost;
      cbn [ar_database ar_reported ar_localPlayer ar_scene ar_timers ar_hits
           removeProjectile db_players db_projectiles db_deathEffects].
    - repeat split; try discriminate. right. repeat split. exact Hq2.
    - repeat split. left. reflexivity. }
  destruct (Projectile_update_cases now (ar_scene a) q)
    as [[Hact ->] | [(Hact & Hold & ->) | [(Hact & Hyoung & t & more & Hhit & ->)
                                          | (Hact & Hyoung & Hnone & ->)]]];
    cbn [fst snd].
  - destruct (Hquiet (Projectile_dispose q) eq_refl)
      as (H1 & H2 & H3 & H4 & H5 & H6 & H7 & H8 & H9).
    cbv zeta in *.
    split; [exact H1 |]. split; [exact H2 |]. split; [exact H3 |].
    left. repeat split; try assumption. left. exact H9.
  - destruct (Hquiet (Projectile_dispose (Projectile_dispose q)) eq_refl)
      as (H1 & H2 & H3 & H4 & H5 & H6 & H7 & H8 & H9).
    cbv zeta in *.
    split; [exact H1 |]. split; [exact H2 |]. split; [exact H3 |].
    left. repeat split; try assumption. left. exact H9.
  - destruct (onMirroredHit_cases now localMesh (pushKey i) (fst (draws i))
                (snd (draws i)) id (ownerUUID q) t a)
      as (Hh & Hp & Hpr & Hcase).
    cbv zeta in Hh, Hp, Hpr, Hcase.
    set (a1 := onMirroredHit now localMesh (pushKey i) (fst (draws i))
                 (snd (draws i)) id (ownerUUID q) t a) in *.
    assert (Hin : In t (ar_scene a)).
    { assert (Ht : In t (filter (collides (Projectile_move q)) (ar_scene a)))
        by (rewrite Hhit; left; reflexivity).
      apply filter_In in Ht. apply Ht. }
    assert (Hdb : db_players
                    (ar_database
                       (if isHost m
                        then mkArena (ar_scene a1) (ar_localPlayer a1)
                                     (removeProjectile id (ar_database a1))
                                     (ar_hits a1) (ar_reported a1) (ar_timers a1)
                        else a1))
                  = db_players (ar_database a)
                  /\ db_deathEffects
                       (ar_database
                          (if isHost m
                           then mkArena (ar_scene a1) (ar_localPlayer a1)
                                        (removeProjectile id (ar_database a1))
                                        (ar_hits a1) (ar_reported a1) (ar_timers a1)
                           else a1))
                     = db_deathEffects (ar_database a1)
                  /\ (db_projectiles
                        (ar_database
                           (if isHost m
                            then mkArena (ar_scene a1) (ar_localPlayer a1)
                                         (removeProjectile id (ar_database a1))
                                         (ar_hits a1) (ar_reported a1) (ar_timers a1)
                            else a1))
                      = (if isHost m
                         then filter (fun kv => negb (String.eqb (fst kv) id))
                                     (db_projectiles (ar_database a))
                         else db_projectiles (ar_database a)))).
    { destruct (isHost m);
        cbn [ar_database removeProjectile db_players db_projectiles db_deathEffects];
        rewrite ?Hp, ?Hpr; repeat split. }
    destruct Hdb as (Hdb1 & Hdb2 & Hdb3).
    split; [exact Hdb1 |].
    split.
    { rewrite Hdb3. destruct (isHost m); [right | left; reflexivity].
      repeat split. }
    split.
    { intros Hhost. rewrite Hdb3, Hhost. reflexivity. }
    rewrite Hdb2.
    destruct Hcase as [(Hmesh & Hr & Hl & Hd & Hs & Ht) | (Hmesh & Hr & Hl & Hd & Hs & Ht)].
    + left. destruct (isHost m);
        cbn [ar_reported ar_localPlayer ar_scene ar_timers ar_hits];
        rewrite ?Hd; repeat split; try assumption;
        right; exists t; split; assumption.
    + right. destruct (isHost m);
        cbn [ar_reported ar_localPlayer ar_scene ar_timers ar_hits];
        repeat split; try assumption;
        exists t; repeat split; assumption.
  - split; [reflexivity |]. split; [left; reflexivity |].
    split; [reflexivity |]. left. repeat split. left. reflexivity.
Qed.

(** The loop and the local player: the owners handed to [onOtherPlayerHit]
    only grow; without a new one the local player, the scene, the death
    effects and the timers are as before; with one the local player has
    been respawned. *)
Lemma updateMirroredProjectiles_local (now : Z) (localMesh : nat)
      (pushKey : nat -> string) (draws : nat -> R * R)
      (m : MultiplayerManager) (ps : list (string * Projectile)) (a : Arena) :
  let r := updateMirroredProjectiles now localMesh pushKey draws m ps a in
  let a' := snd r in
  map fst (fst r) = map fst ps
  /\ db_players (ar_database a') = db_players (ar_database a)
  /\ (exists more, ar_reported a' = ar_reported a ++ more)
  /\ isRemotePlayer (ar_localPlayer a') = isRemotePlayer (ar_localPlayer a)
  /\ (ar_reported a' = ar_reported a ->
      ar_localPlayer a' = ar_localPlayer a
      /\ db_deathEffects (ar_database a') = db_deathEffects (ar_database a)
      /\ ar_scene a' = ar_scene a
      /\ ar_timers a' = ar_timers a)
  /\ (ar_reported a' <> ar_reported a -> respawned (ar_localPlayer a')).
Proof.
  cbv zeta. revert a.
  induction ps as [| [id q] rest IH]; intros a.
  - cbn [updateMirroredProjectiles fst snd map].
    split; [reflexivity |]. split; [reflexivity |].
    split; [exists []; rewrite app_nil_r; reflexivity |].
    split; [reflexivity |].
    split; [intros _; repeat split | intros H; contradiction H; reflexivity].
  - cbn [updateMirroredProjectiles].
    pose proof (updateMirroredProjectile_step now localMesh pushKey draws m id q a)
      as Hstep.
    cbv zeta in Hstep.
    destruct (updateMirroredProjectile now localMesh pushKey draws m id q a)
      as [q2 a2].
    cbn [fst snd] in Hstep.
    specialize (IH a2).
    destruct (updateMirroredProjectiles now localMesh pushKey draws m rest a2)
      as [rest1 a3].
    cbn [fst snd] in IH |- *.
    destruct Hstep as (Hp & _ & _ & Hcase).
    destruct IH as (IHk & IHp & [more IHr] & IHrem & IHsame & IHnew).
    split; [cbn [map fst]; rewrite IHk; reflexivity |].
    split; [congruence |].
    destruct Hcase as [(Hr & Hl & Hd & Hs & Ht & _) | (Hr & Hl & Hd & Ht & _)].
    + split; [exists more; rewrite IHr, Hr; reflexivity |].
      split; [congruence |].
      split.
      * intros E. rewrite <- Hr in E.
        destruct (IHsame E) as (E1 & E2 & E3 & E4).
        repeat split; congruence.
      * intros E. apply IHnew. congruence.
    + split; [exists (ownerUUID q :: more); rewrite IHr, Hr, <- app_assoc; reflexivity |].
      split.
      { rewrite IHrem, Hl. apply respawn_respawned. }
      split.
      * intros E. exfalso. rewrite IHr, Hr, <- app_assoc in E.
        apply (f_equal (@List.length string)) in E.
        rewrite !length_app in E. cbn [List.length] in E. lia.
      * intros _. destruct more as [| o more'].
        -- rewrite app_nil_r in IHr. destruct (IHsame IHr) as (E1 & _).
           rewrite E1, Hl. apply respawn_respawned.
        -- apply IHnew. rewrite IHr. intros E.
           apply (f_equal (@List.length string)) in E.
           rewrite !length_app in E. cbn [List.length] in E. lia.
Qed.




(** ** The terrain of the planet *)

Lemma product3_bound (a b c : R) :
  -1 <= a <= 1 -> -1 <= b <= 1 -> -1 <= c <= 1 -> -1 <= a * b * c <= 1.
Proof.
  intros Ha Hb Hc.
  assert (Hab : -1 <= a * b <= 1) by nra.
  nra.
Qed.

Lemma octave_bound (a b c : R) : -1 <= sin a * cos b * sin c <= 1.
Proof. apply product3_bound; [apply SIN_bound | apply COS_bound | apply SIN_bound]. Qed.

Lemma simplexNoise_bound (noiseSeed x y z : R) :
  -0.875 <= simplexNoise noiseSeed x y z <= 0.875.
Proof.
  unfold simplexNoise. cbv zeta.
  match goal with
  | |- _ <= sin ?a1 * cos ?b1 * sin ?c1 * 0.5
            + sin ?a2 * cos ?b2 * sin ?c2 * 0.25
            + sin ?a3 * cos ?b3 * sin ?c3 * 0.125 <= _ =>
      pose proof (octave_bound a1 b1 c1);
      pose proof (octave_bound a2 b2 c2);
      pose proof (octave_bound a3 b3 c3)
  end.
  lra.
Qed.

Lemma Math_pow_unit (x y : R) : 0 <= x <= 1 -> 0 <= y -> 0 <= Math_pow x y <= 1.
Proof.
  intros Hx Hy. unfold Math_pow.
  destruct (Req_dec_T x 0) as [E | NE]; [lra |].
  split.
  - left. unfold Rpower. apply exp_pos.
  - assert (H1 : Rpower 1 y = 1)
      by (unfold Rpower; rewrite ln_1, Rmult_0_r; apply exp_0).
    apply Rle_trans with (Rpower 1 y); [| right; exact H1].
    apply Rle_Rpower_l; [exact Hy | lra].
Qed.

Lemma craterNoise_bound (noiseSeed x y z : R) :
  -1.5 <= craterNoise noiseSeed x y z <= 0.
Proof.
  unfold craterNoise. cbv zeta.
  match goal with
  | |- context [Rabs ?n] => set (noise := n)
  end.
  assert (Hn : -1 <= noise <= 1).
  { unfold noise.
    match goal with
    | |- _ <= sin ?a1 * cos ?b1 * sin ?c1 * 0.4
              + sin ?a2 * cos ?b2 * sin ?c2 * 0.4
              + sin ?a3 * cos ?b3 * sin ?c3 * 0.2 <= _ =>
        pose proof (octave_bound a1 b1 c1);
        pose proof (octave_bound a2 b2 c2);
        pose proof (octave_bound a3 b3 c3)
    end.
    lra. }
  assert (Habs : 0 <= Rabs noise <= 1).
  { split; [apply Rabs_pos |]. apply Rabs_le. exact Hn. }
  pose proof (Math_pow_unit (Rabs noise) 1.5 Habs) as Hpow.
  assert (Hpow' : 0 <= Math_pow (Rabs noise) 1.5 <= 1) by (apply Hpow; lra).
  clearbody noise. clear Hpow.
  set (pw := Math_pow (Rabs noise) 1.5) in *. clearbody pw.
  unfold Math_sign.
  destruct (Rlt_dec 0 noise); [| destruct (Rlt_dec noise 0)];
    match goal with
    | |- context [Rlt_dec ?a ?b] => destruct (Rlt_dec a b)
    end; lra.
Qed.

Lemma terrainPass_radial (noiseSeed : R) (v : Vector3) :
  exists k, 0.825 <= k <= 1.175 /\ terrainPass noiseSeed v = scale v k.
Proof.
  unfold terrainPass. cbv zeta.
  pose proof (simplexNoise_bound noiseSeed (vx v) (vy v) (vz v)) as Hn.
  exists (1 + simplexNoise noiseSeed (vx v) (vy v) (vz v) * 0.2).
  split; [lra | reflexivity].
Qed.

Lemma craterPass_radial (noiseSeed : R) (v : Vector3) :
  0 < length v ->
  exists e, -2.4 <= e <= 0 /\ craterPass noiseSeed v = scale v (1 + e / length v).
Proof.
  intros Hlen. unfold craterPass. cbv zeta.
  change (sqrt (vx v * vx v + vy v * vy v + vz v * vz v)) with (length v).
  match goal with
  | |- context [Rmin 0 ?n * craterDepth] => set (noise := n)
  end.
  pose proof (craterNoise_bound noiseSeed
                (vx v / length v * craterFrequency)
                (vy v / length v * craterFrequency)
                (vz v / length v * craterFrequency)) as Hn.
  fold noise in Hn. clearbody noise.
  exists (Rmin 0 noise * craterDepth). split.
  - unfold craterDepth, Rmin. destruct (Rle_dec 0 noise); lra.
  - unfold scale. f_equal; field; lra.
Qed.

(** X18. The terrain that [Planet.create] makes of the sphere: every vertex
    of the sphere of radius [baseRadius] is moved along its own radius, by a
    factor between 0.225 and 1.175, so the terrain never folds through the
    centre and every vertex of it lies between 0.9 and 4.7 from the centre,
    whatever the seed. *)
Theorem deformVertex_radial (noiseSeed : R) (v : Vector3) :
  length v = getBaseRadius ->
  exists k,
    deformVertex noiseSeed v = scale v k
    /\ 0.225 <= k <= 1.175
    /\ 0.9 <= length (deformVertex noiseSeed v) <= 4.7.
Proof.
  intros Hv. unfold deformVertex.
  destruct (terrainPass_radial noiseSeed v) as (k1 & Hk1 & ->).
  assert (Hlen1 : length (scale v k1) = getBaseRadius * k1).
  { rewrite length_scale, Hv, Rabs_pos_eq by lra. reflexivity. }
  assert (Hpos1 : 0 < length (scale v k1))
    by (rewrite Hlen1; unfold getBaseRadius; lra).
  destruct (craterPass_radial noiseSeed (scale v k1) Hpos1) as (e & He & ->).
  rewrite Hlen1, scale_scale.
  set (k := k1 * (1 + e / (getBaseRadius * k1))).
  assert (Hk : k = k1 + e / 4) by (unfold k, getBaseRadius; field; lra).
  exists k. split; [reflexivity |].
  split; [lra |].
  rewrite length_scale, Hv, Rabs_pos_eq by lra.
  unfold getBaseRadius. lra.
Qed.

(** ** Standing on the ground *)

Lemma reproject_onSurface (pos : Vector3) (r : R) :
  0 < r -> length pos = r -> scale (normalize pos) r = pos.
Proof.
  intros Hr Hlen.
  assert (Hpos : pos <> Zero).
  { intros E. apply length_zero_iff in E. lra. }
  rewrite normalize_eq by exact Hpos. rewrite Hlen, scale_scale.
  destruct pos as [x y z]. unfold scale. cbn [vx vy vz]. f_equal; field; lra.
Qed.

(** X19. A local player standing on the ground with the jetpack off stays
    exactly where it stands: a physics tick of positive time leaves its
    position unchanged, its height at 0.60 and its vertical velocity at
    zero, whatever velocity it came down with. *)
Theorem updatePhysics_rest (now : Z) (scene : list AbstractMesh)
        (dt : R) (p : Player) :
  isRemotePlayer p = false ->
  jetpackActive p = false ->
  onSurface p ->
  heightAboveSurface p = MIN_HEIGHT ->
  verticalVelocity p <= 0 ->
  0 < dt ->
  let p' := fst (updatePhysics now scene dt p) in
  mesh_position p' = mesh_position p
  /\ heightAboveSurface p' = MIN_HEIGHT
  /\ verticalVelocity p' = 0.
Proof.
  intros Hlocal Hoff Hon Hh Hv Hdt. cbv zeta.
  pose proof (updatePhysics_vertical now scene dt p Hlocal) as Hvert.
  pose proof (updatePhysics_position now scene dt p Hlocal) as Hpos.
  cbv zeta in Hvert, Hpos.
  destruct (updateFuel_others dt p) as (Hj & Hh1 & Hv1 & _).
  assert (Hclamp : clampHeight (integrateVertical dt (updateFuel dt p))
                   = (MIN_HEIGHT, 0)).
  { unfold integrateVertical. rewrite Hj, Hoff, Hh1, Hv1, Hh. cbn [andb].
    unfold clampHeight, MIN_HEIGHT, GRAVITY_FORCE.
    destruct (Rlt_dec _ _) as [Hlt | Hge]; [reflexivity |].
    exfalso. apply Hge. nra. }
  rewrite Hclamp in Hvert. injection Hvert as Hh' Hv'.
  split; [| split; assumption].
  rewrite Hpos, Hh'. apply reproject_onSurface.
  - unfold getBaseRadius, MIN_HEIGHT. lra.
  - unfold onSurface in Hon. rewrite Hon, Hh. reflexivity.
Qed.

(** ** The axes of an orientation *)

Lemma lengthSquared_unit (a : Vector3) : length a = 1 -> lengthSquared a = 1.
Proof. intros H. rewrite <- length_sqr, H. ring. Qed.

(** The outward radial at a position: what [localUp] is. *)
Lemma localUp_eq (pos : Vector3) :
  pos <> Zero ->
  scale (normalize (subtract Zero pos)) (-1) = normalize pos.
Proof.
  intros Hpos.
  assert (Hneg : subtract Zero pos <> Zero).
  { rewrite subtract_Zero_l. apply scale_neq_Zero; [exact Hpos | lra]. }
  rewrite (normalize_eq _ Hneg), (normalize_eq _ Hpos).
  assert (Hlen : length (subtract Zero pos) = length pos).
  { unfold length. f_equal. unfold lengthSquared, subtract, Zero.
    cbn [vx vy vz]. ring. }
  rewrite Hlen.
  pose proof (length_pos pos Hpos) as Hl.
  destruct pos as [x y z]. unfold scale, subtract, Zero. cbn [vx vy vz].
  f_equal; field; lra.
Qed.

(** The part of [w] across a unit vector [up], made a unit vector. *)
Lemma tangent_unit (up w : Vector3) :
  length up = 1 ->
  subtract w (scale up (Dot w up)) <> Zero ->
  length (normalize (subtract w (scale up (Dot w up)))) = 1
  /\ Dot up (normalize (subtract w (scale up (Dot w up)))) = 0.
Proof.
  intros Hup Ht. split; [apply length_normalize; exact Ht |].
  destruct (normalize_as_scale _ Ht) as (k & _ & ->).
  pose proof (lengthSquared_unit up Hup) as Hsq.
  unfold lengthSquared in Hsq.
  destruct up as [a b c], w as [x y z].
  unfold Dot, scale, subtract in *. cbn [vx vy vz] in *.
  replace (a * ((x - a * (x * a + y * b + z * c)) * k)
           + b * ((y - b * (x * a + y * b + z * c)) * k)
           + c * ((z - c * (x * a + y * b + z * c)) * k))
    with (k * (x * a + y * b + z * c) * (1 - (a * a + b * b + c * c))) by ring.
  rewrite Hsq. ring.
Qed.

(** A unit up axis and a unit forward axis across it, with the right axis
    that [Vector3.Cross(localUp, localForward).normalize()] gives. *)
Lemma frame_of_up_forward (up forward : Vector3) :
  length up = 1 -> length forward = 1 -> Dot up forward = 0 ->
  orthonormal (normalize (Cross up forward)) up forward.
Proof.
  intros Hu Hf Huf.
  pose proof (lengthSquared_unit up Hu) as Hu2.
  pose proof (lengthSquared_unit forward Hf) as Hf2.
  assert (Hc : length (Cross up forward) = 1).
  { apply length_eq; [lra |].
    replace (lengthSquared (Cross up forward))
      with (lengthSquared up * lengthSquared forward
            - Dot up forward * Dot up forward)
      by (unfold lengthSquared, Cross, Dot; cbn [vx vy vz]; ring).
    rewrite Hu2, Hf2, Huf. ring. }
  rewrite (normalize_unit _ Hc).
  unfold orthonormal. repeat split; try assumption.
  - unfold Dot, Cross. cbn [vx vy vz]. ring.
  - unfold Dot, Cross. cbn [vx vy vz]. ring.
Qed.

(** X20. [spawnRandomPosition] stands the player upright: for any two
    draws, at a positive distance [planetRadius + heightAboveSurface], the
    orientation is built from three axes that are unit vectors, each
    perpendicular to the others, the right axis the cross product of the up
    and the forward axis, and the up axis is the outward radial at the spawn
    position; this holds also at the two poles of the z axis, where the
    world forward axis has no part across the radial and the world right
    axis takes its place. *)
Theorem spawnRandomPosition_upright (u v : R) (p : Player) :
  0 < getBaseRadius + heightAboveSurface p ->
  exists right up forward,
    rotationQuaternion (spawnRandomPosition u v p)
    = Some (FromXYZAxes right up forward)
    /\ orthonormal right up forward
    /\ mesh_position (spawnRandomPosition u v p)
       = scale up (getBaseRadius + heightAboveSurface p).
Proof.
  intros Hrad. unfold spawnRandomPosition. cbv zeta. player_fields.
  set (pos := spawnPoint u v (heightAboveSurface p)).
  assert (Hlen : length pos = getBaseRadius + heightAboveSurface p).
  { apply length_eq; [lra | apply spawnPoint_lengthSquared]. }
  assert (Hpos : pos <> Zero).
  { intros E. apply length_zero_iff in E. lra. }
  rewrite (localUp_eq pos Hpos).
  set (up := normalize pos).
  assert (Hup : length up = 1) by (apply length_normalize; exact Hpos).
  assert (Hradial : pos = scale up (getBaseRadius + heightAboveSurface p)).
  { unfold up. symmetry. apply reproject_onSurface; assumption. }
  pose proof (lengthSquared_unit up Hup) as Hup2.
  set (t := subtract Forward (scale up (Dot Forward up))).
  destruct (Req_dec_T (length t) 0) as [Et | NEt].
  - (* at a pole of the z axis *)
    apply length_zero_iff in Et. rewrite Et, normalize_Zero.
    assert (Hz : length Zero = 0) by (apply length_zero_iff; reflexivity).
    rewrite Hz. destruct (Rlt_dec 0 0.1) as [_ | Hn]; [| lra].
    set (t' := subtract Right (scale up (Dot Right up))).
    assert (Ht' : t' <> Zero).
    { unfold t, t', Forward, Right, subtract, scale, Dot, Zero, lengthSquared in *.
      destruct up as [a b c]. cbn [vx vy vz] in *.
      injection Et as E1 E2 E3. intros E. injection E as E4 E5 E6. nra. }
    destruct (tangent_unit up Right Hup Ht') as [Hf Hperp].
    fold t' in Hf, Hperp.
    exists (normalize (Cross up (normalize t'))), up, (normalize t').
    split; [reflexivity |].
    split; [apply frame_of_up_forward; assumption | exact Hradial].
  - assert (Ht : t <> Zero).
    { intros E. apply NEt. apply length_zero_iff. exact E. }
    destruct (tangent_unit up Forward Hup Ht) as [Hf Hperp].
    fold t in Hf, Hperp. rewrite Hf.
    destruct (Rlt_dec 1 0.1) as [Hn | _]; [lra |].
    exists (normalize (Cross up (normalize t))), up, (normalize t).
    split; [reflexivity |].
    split; [apply frame_of_up_forward; assumption | exact Hradial].
Qed.

Lemma frame_of_right_up (right up : Vector3) :
  length right = 1 -> length up = 1 -> Dot right up = 0 ->
  orthonormal right up (normalize (Cross right up)).
Proof.
  intros Hr Hu Hru.
  pose proof (lengthSquared_unit right Hr) as Hr2.
  pose proof (lengthSquared_unit up Hu) as Hu2.
  assert (Hc : length (Cross right up) = 1).
  { apply length_eq; [lra |].
    replace (lengthSquared (Cross right up))
      with (lengthSquared right * lengthSquared up - Dot right up * Dot right up)
      by (unfold lengthSquared, Cross, Dot; cbn [vx vy vz]; ring).
    rewrite Hr2, Hu2, Hru. ring. }
  rewrite (normalize_unit _ Hc).
  unfold orthonormal. repeat split; try assumption.
  - unfold Dot, Cross. cbn [vx vy vz]. ring.
  - unfold Dot, Cross. cbn [vx vy vz]. ring.
  - unfold lengthSquared, Dot in *.
    destruct right as [a b c], up as [x y z]. unfold Cross. cbn [vx vy vz] in *.
    f_equal; nsatz.
Qed.

(** X21. A lateral step keeps the player upright about the radial it
    started from: when the player's forward axis is not radial, the
    orientation after [moveAlongOrbit] is built from three axes that are
    unit vectors, each perpendicular to the others, the right axis the cross
    product of the up and the forward axis; the up axis is the outward
    radial at the position before the step, not at the position the step
    has reached. *)
Theorem moveAlongOrbit_upright (crossAxis : Vector3) (dt : R) (p : Player) :
  Cross (mesh_position p) (mesh_forward (rotationQuaternion p)) <> Zero ->
  exists right forward,
    rotationQuaternion (moveAlongOrbit crossAxis dt p)
    = Some (FromXYZAxes right (normalize (mesh_position p)) forward)
    /\ orthonormal right (normalize (mesh_position p)) forward.
Proof.
  intros Hc. unfold moveAlongOrbit. cbv zeta. player_fields.
  assert (Hpos : mesh_position p <> Zero).
  { intros E. apply Hc. rewrite E. unfold Cross, Zero. cbn [vx vy vz].
    f_equal; ring. }
  rewrite (localUp_eq _ Hpos).
  set (up := normalize (mesh_position p)).
  set (fwd := mesh_forward (rotationQuaternion p)) in *.
  assert (Hup : length up = 1) by (apply length_normalize; exact Hpos).
  assert (Hn : Cross up fwd <> Zero).
  { unfold up. destruct (normalize_as_scale _ Hpos) as (k & Hk & ->).
    rewrite Cross_scale_l. apply scale_neq_Zero; assumption. }
  set (right := normalize (Cross up fwd)).
  assert (Hr : length right = 1) by (apply length_normalize; exact Hn).
  assert (Hru : Dot right up = 0).
  { unfold right. destruct (normalize_as_scale _ Hn) as (k & _ & ->).
    rewrite Dot_scale_l. unfold Dot, Cross. cbn [vx vy vz]. ring. }
  exists right, (normalize (Cross right up)).
  split; [reflexivity |].
  apply frame_of_right_up; assumption.
Qed.

(** ** Hits and frags *)

(** X22. Every mesh that [Projectile.update] hands to [onHit] is a player
    mesh other than the projectile's own that touches the projectile where
    its step has taken it; and the test [metadata.playerUUID !== this.uuid]
    of the shooter's hit callback never fails on it, the collision filter
    having passed over the shooter's own mesh: the hit counts as a frag
    exactly when the mesh has metadata. *)
Theorem hit_counts_as_frag (now : Z) (scene : list AbstractMesh)
        (q : Projectile) (target : AbstractMesh) :
  snd (fst (Projectile_update now scene q)) = Some target ->
  In target scene
  /\ name target = "player"%string
  /\ mesh_id target <> mesh_id (proj_mesh q)
  /\ intersectsMesh target (proj_mesh (Projectile_move q)) = true
  /\ countsAsFrag (ownerUUID q) target
     = match metadata target with Some _ => true | None => false end.
Proof.
  intros Hhit.
  destruct (Projectile_update_hit now scene q target Hhit) as (_ & _ & rest & Hf).
  assert (Hin : In target (filter (collides (Projectile_move q)) scene))
    by (rewrite Hf; left; reflexivity).
  apply filter_In in Hin. destruct Hin as [Hin Hcol].
  split; [exact Hin |].
  unfold collides in Hcol.
  destruct (String.eqb (name target) "player") eqn:Ename; cbn [negb orb] in Hcol;
    [| discriminate].
  destruct (Nat.eqb (mesh_id target) (mesh_id (proj_mesh (Projectile_move q))))
    eqn:Eid; [discriminate |].
  destruct (ownedBy (ownerUUID (Projectile_move q)) target) eqn:Eown;
    [discriminate |].
  split; [apply String.eqb_eq; exact Ename |].
  split; [apply Nat.eqb_neq in Eid; exact Eid |].
  split; [exact Hcol |].
  unfold countsAsFrag. rewrite Ename.
  unfold ownedBy in Eown. cbn [Projectile_move ownerUUID] in Eown.
  destruct (metadata target) as [md |]; [| reflexivity].
  destruct (playerUUID md) as [owner |]; [| reflexivity].
  rewrite Eown. reflexivity.
Qed.

Lemma setRemotePosition_uuid (now : Z) (pos : Vector3) (p : Player) :
  uuid (setRemotePosition now pos p) = uuid p.
Proof.
  unfold setRemotePosition.
  destruct (isRemotePlayer p); cbn [negb]; [| reflexivity].
  destruct p. player_fields.
  destruct (Req_dec_T _ _); player_fields;
    destruct targetPosition0 as [tp |]; player_fields;
    try (destruct previousTargetPosition0 as [ptp |]; player_fields);
    try (destruct (Rgt_dec _ _); player_fields);
    try (destruct estimatedVelocity0 as [ev |]; player_fields);
    destruct currentInterpolatedPosition0 as [c |]; player_fields;
    reflexivity.
Qed.

Lemma setRemoteRotation_uuid (rotation : Quaternion) (p : Player) :
  uuid (setRemoteRotation rotation p) = uuid p.
Proof.
  unfold setRemoteRotation.
  destruct (negb (isRemotePlayer p)); [reflexivity |].
  player_fields. destruct (currentInterpolatedRotation p); reflexivity.
Qed.

Lemma jetpack_uuid (on : bool) (p : Player) :
  uuid (if on then activateJetpack p else deactivateJetpack p) = uuid p.
Proof.
  unfold activateJetpack, deactivateJetpack.
  destruct on; player_fields;
    try destruct (hasFuel p && negb (particlesStarted p))%bool; reflexivity.
Qed.

Lemma updateRemotePlayer_uuid (now : Z) (p : Player) (playerData : PlayerData) :
  uuid (updateRemotePlayer now p playerData) = uuid p.
Proof.
  unfold updateRemotePlayer.
  rewrite jetpack_uuid, setRemoteRotation_uuid, setRemotePosition_uuid.
  reflexivity.
Qed.

(** X23. The mirror of another player keeps the identity that its own
    constructor drew: no sample changes the [uuid] of a mirror, so its mesh
    does not carry the uuid of the player it mirrors.  Unless the two
    coincide, the owner test of [Projectile.update] does not pass over the
    mirror of a projectile's owner: a projectile of that player collides
    with the mirror's mesh whenever it touches it. *)
Theorem mirror_keeps_own_uuid (now : Z) (remotePlayer : Player)
        (playerData : PlayerData) (meshId : nat) (q : Projectile) :
  uuid remotePlayer <> ownerUUID q ->
  meshId <> mesh_id (proj_mesh q) ->
  let mirror := updateRemotePlayer now remotePlayer playerData in
  uuid mirror = uuid remotePlayer
  /\ collides q (playerMesh meshId mirror)
     = intersectsMesh (playerMesh meshId mirror) (proj_mesh q).
Proof.
  intros Hid Hmesh. cbv zeta.
  pose proof (updateRemotePlayer_uuid now remotePlayer playerData) as Hu.
  split; [exact Hu |].
  unfold collides, ownedBy, playerMesh at 1 2 3.
  cbn [name mesh_id metadata playerUUID negb orb String.eqb].
  rewrite Hu.
  apply Nat.eqb_neq in Hmesh. rewrite Hmesh.
  apply String.eqb_neq in Hid. rewrite Hid.
  reflexivity.
Qed.

(** ** Holding the jetpack key *)

Lemma renderFrame_held (now : Z) (scene : list AbstractMesh)
      (dt : R) (input : Input) (p : Player) :
  isRemotePlayer p = false -> 0 <= dt -> key_space input = true ->
  0 <= fuel p ->
  let p' := fst (renderFrame now scene dt input p) in
  isRemotePlayer p' = false
  /\ 0 <= fuel p' <= fuel p
  /\ (hasFuel p = false -> hasFuel p' = false).
Proof.
  intros Hlocal Hdt Hkey Hfuel. cbv zeta.
  destruct (renderFrame_gauge now scene dt input p Hlocal) as (Hf & Hh & Hr).
  cbv zeta in Hf, Hh, Hr.
  destruct (processJetpack_fields input p) as (Hj0 & Hf0 & Hh0 & _).
  cbv zeta in Hj0, Hf0, Hh0.
  rewrite Hkey in Hj0.
  destruct (updateFuel_burning_twice dt _ Hj0) as (_ & Hle & Hkeep).
  cbv zeta in Hle, Hkeep.
  split; [exact Hr |]. rewrite Hf, Hh, <- Hf0, <- Hh0.
  split; [apply Hle; [exact Hdt | rewrite Hf0; exact Hfuel] | exact Hkeep].
Qed.

(** ** The velocity estimate of a mirror *)

(** What a sample does to the targets and the velocity estimate. *)
Lemma setRemotePosition_estimate (now : Z) (pos : Vector3) (p : Player) :
  isRemotePlayer p = true ->
  let p' := setRemotePosition now pos p in
  isRemotePlayer p' = true
  /\ targetPosition p' = Some pos
  /\ previousTargetPosition p' = targetPosition p
  /\ estimatedVelocity p'
     = match targetPosition p, previousTargetPosition p with
       | Some tp, Some ptp =>
           if Rgt_dec (length (subtract tp ptp)) 0.001 then
             match estimatedVelocity p with
             | None => Some (subtract tp ptp)
             | Some ev => Some (add (scale ev 0.7) (scale (subtract tp ptp) 0.3))
             end
           else estimatedVelocity p
       | _, _ => estimatedVelocity p
       end.
Proof.
  intros Hremote. cbv zeta. unfold setRemotePosition. rewrite Hremote.
  cbn [negb]. destruct p. player_fields. subst.
  destruct (Req_dec_T _ _); player_fields;
    destruct targetPosition0 as [tp |]; player_fields;
    try (destruct previousTargetPosition0 as [ptp |]; player_fields);
    try (destruct (Rgt_dec _ _); player_fields);
    try (destruct estimatedVelocity0 as [ev |]; player_fields);
    destruct currentInterpolatedPosition0 as [c |]; player_fields;
    repeat split; reflexivity.
Qed.

(** X25. The velocity estimate of a mirror lags one sample and is a
    displacement per sample, not per second: for a new mirror, the first two
    samples leave no estimate, and after the third sample the estimate is
    the second position less the first (when they are more than 0.001
    apart; none otherwise), whatever the third position is and whenever the
    samples came. *)
Theorem velocity_estimate_lags (t1 t2 t3 : Z) (a b c : Vector3) (p : Player) :
  isRemotePlayer p = true ->
  targetPosition p = None ->
  previousTargetPosition p = None ->
  estimatedVelocity p = None ->
  let p1 := setRemotePosition t1 a p in
  let p2 := setRemotePosition t2 b p1 in
  let p3 := setRemotePosition t3 c p2 in
  estimatedVelocity p1 = None
  /\ estimatedVelocity p2 = None
  /\ estimatedVelocity p3
     = (if Rgt_dec (length (subtract b a)) 0.001
        then Some (subtract b a) else None)
  /\ targetPosition p3 = Some c.
Proof.
  intros Hremote Ht Hpt Hev. cbv zeta.
  destruct (setRemotePosition_estimate t1 a p Hremote) as (R1 & T1 & P1 & E1).
  cbv zeta in R1, T1, P1, E1. rewrite Ht, Hev in E1. rewrite Ht in P1.
  set (p1 := setRemotePosition t1 a p) in *.
  destruct (setRemotePosition_estimate t2 b p1 R1) as (R2 & T2 & P2 & E2).
  cbv zeta in R2, T2, P2, E2. rewrite T1, P1, E1 in E2. rewrite T1 in P2.
  set (p2 := setRemotePosition t2 b p1) in *.
  destruct (setRemotePosition_estimate t3 c p2 R2) as (_ & T3 & _ & E3).
  cbv zeta in T3, E3. rewrite T2, P2, E2 in E3.
  split; [exact E1 |]. split; [exact E2 |]. split; [exact E3 | exact T3].
Qed.

(** ** A player who left *)

Lemma filter_drops_key {V : Type} (f : string * V -> bool)
      (m : list (string * V)) (k : string) (v : V) :
  NoDup (map fst m) -> In (k, v) m -> f (k, v) = false ->
  Map_has k (filter f m) = false.
Proof.
  intros Hnd Hin Hf.
  destruct (Map_has k (filter f m)) eqn:Hhas; [| reflexivity].
  exfalso. unfold Map_has in Hhas. apply existsb_exists in Hhas.
  destruct Hhas as ([k' v'] & Hin' & E). cbn [fst] in E.
  apply String.eqb_eq in E. subst k'.
  apply filter_In in Hin'. destruct Hin' as [Hin' Hf'].
  pose proof (In_Map_get k v m Hnd Hin) as G1.
  pose proof (In_Map_get k v' m Hnd Hin') as G2.
  rewrite G1 in G2. injection G2 as <-. congruence.
Qed.

(** X26. A player who stopped publishing leaves the other clients: when the
    host's [cleanupStaleData] sweeps a store whose player records are in key
    order, a record staler than 10 s is removed; and the players listener of
    any client, run on what is left (if any record is left), drops the
    mirror kept under that key. *)
Theorem stale_player_leaves (now now' : Z) (m : MultiplayerManager) (db : Database)
        (self : string) (fresh : string -> Player)
        (mirrored : list (string * Player)) (k : string) (playerData : PlayerData) :
  isHost m = true ->
  keyOrdered (db_players db) ->
  In (k, playerData) (db_players db) ->
  (now - lastUpdate playerData > 10000)%Z ->
  let db' := snd (cleanupStaleData now m db) in
  ~ In k (map fst (db_players db'))
  /\ (db_players db' <> [] ->
      Map_get k (onPlayersValue now' self fresh (db_players db') mirrored) = None).
Proof.
  intros Hhost Hord Hin Hstale. cbv zeta.
  rewrite cleanupStaleData_database, cleanupStaleData_isHost, Hhost.
  cbn [orb]. unfold sweep. cbn [db_players].
  set (f := fun kv : string * PlayerData =>
              negb (now - lastUpdate (snd kv) >? 10000)%Z).
  assert (Hf : f (k, playerData) = false).
  { unfold f. cbn [snd]. apply Z.gtb_gt in Hstale. rewrite Hstale. reflexivity. }
  pose proof (filter_drops_key f (db_players db) k playerData
                (keyOrdered_NoDup _ Hord) Hin Hf) as Hgone.
  split.
  - intros Hk. apply in_map_iff in Hk. destruct Hk as ([k' d'] & E & Hin').
    cbn [fst] in E. subst k'.
    rewrite (In_Map_has k d' _ Hin') in Hgone. discriminate.
  - intros Hleft. destruct (filter f (db_players db)) as [| entry rest] eqn:Hfl;
      [contradiction |].
    unfold onPlayersValue. rewrite Map_get_filter_has, Hgone. reflexivity.
Qed.

(** ** Mirrored projectiles in flight *)

Lemma Projectile_update_free (now : Z) (scene : list AbstractMesh) (q : Projectile) :
  (forall m a, In m scene -> intersectsMesh m a = false) ->
  isActive q = true -> (now - spawnTime q <= lifespan)%Z ->
  Projectile_update now scene q = (Projectile_move q, None, true).
Proof.
  intros Hfree Hact Hyoung.
  assert (Hnone : filter (collides (Projectile_move q)) scene = []).
  { clear -Hfree. induction scene as [| m more IHs]; [reflexivity |].
    cbn [filter]. unfold collides at 1.
    rewrite (Hfree m (proj_mesh (Projectile_move q))) by (left; reflexivity).
    destruct (negb (name m =? "player")%string
              || Nat.eqb (mesh_id m) (mesh_id (proj_mesh (Projectile_move q))))%bool;
      [| destruct (ownedBy (ownerUUID (Projectile_move q)) m)];
      apply IHs; intros m' a Hin; apply Hfree; right; exact Hin. }
  destruct (Projectile_update_cases now scene q)
    as [[Hact' _] | [(_ & Hold & _) | [(_ & _ & t & more & Hhit & _)
                                      | (_ & _ & _ & ->)]]].
  - congruence.
  - lia.
  - congruence.
  - reflexivity.
Qed.

(** X27. One pass of [updateRemotePlayers] gives every mirrored projectile
    one update: mirrored projectiles that are active, within their lifespan
    and touch nothing in the scene take one orbital step each, no record is
    removed and no hit is reported; the local player and the scene are left
    as they are. *)
Theorem updateRemotePlayers_projectiles
        (now : Z) (localMesh : nat) (pushKey : nat -> string)
        (draws : nat -> R * R) (scene : list AbstractMesh) (deltaTime : R)
        (m : MultiplayerManager) (mir : Mirrors) (localPlayer : Player)
        (db : Database) :
  (forall mesh a, In mesh scene -> intersectsMesh mesh a = false) ->
  Forall (fun kv => isActive (snd kv) = true
                    /\ (now - spawnTime (snd kv) <= lifespan)%Z)
         (otherProjectiles mir) ->
  let r := updateRemotePlayers now localMesh pushKey draws scene deltaTime
                               m mir localPlayer db in
  otherProjectiles (fst r)
  = map (fun kv => (fst kv, Projectile_move (snd kv))) (otherProjectiles mir)
  /\ ar_database (snd r) = db
  /\ ar_hits (snd r) = []
  /\ ar_reported (snd r) = []
  /\ ar_timers (snd r) = []
  /\ ar_localPlayer (snd r) = localPlayer
  /\ ar_scene (snd r) = scene.
Proof.
  intros Hfree Hall. cbv zeta. unfold updateRemotePlayers.
  set (a0 := mkArena scene localPlayer db [] [] []).
  assert (Hloop : updateMirroredProjectiles now localMesh pushKey draws m
                    (otherProjectiles mir) a0
                  = (map (fun kv => (fst kv, Projectile_move (snd kv)))
                         (otherProjectiles mir), a0)).
  { induction Hall as [| [id q] rest [Hact Hyoung] _ IH]; [reflexivity |].
    cbn [updateMirroredProjectiles map fst snd] in *.
    unfold updateMirroredProjectile.
    change (ar_scene a0) with scene.
    rewrite (Projectile_update_free now scene q Hfree Hact Hyoung).
    rewrite IH. reflexivity. }
  rewrite Hloop. cbn [fst snd otherProjectiles].
  repeat split.
Qed.

(** ** The whole pass of the render loop *)

Lemma updatePlayerData_returns (now : Z) (localPlayer : Player)
      (m : MultiplayerManager) (db : Database) :
  exists o, updatePlayerData now localPlayer m db = Returns o.
Proof.
  unfold updatePlayerData.
  destruct (now - lastUpdateTime m <? updateInterval)%Z; [eexists; reflexivity |].
  destruct (rotationQuaternion localPlayer) as [q |]; cbn [quaternionField bind];
    eexists; reflexivity.
Qed.

(** A pass returns; the local player it leaves is the one the local leg
    leaves unless a mirrored projectile has hit it, and then it has been
    respawned; every such hit counts as a frag. *)
Lemma renderPass_outcome (t : Turn) (p : Player) :
  let local := renderFrame (t_now t) (t_scene t) (t_deltaTime t) (t_input t) p in
  exists o,
    renderPass t p = Returns o
    /\ applyPass p t = po_player o
    /\ isRemotePlayer (po_player o) = isRemotePlayer (fst local)
    /\ (po_reported o = [] -> po_player o = fst local)
    /\ (po_reported o <> [] -> respawned (po_player o))
    /\ (t_session t = None -> po_reported o = [])
    /\ po_frags o = (snd local + List.length (po_reported o))%nat.
Proof.
  cbv zeta. unfold applyPass, renderPass.
  destruct (renderFrame (t_now t) (t_scene t) (t_deltaTime t) (t_input t) p)
    as [p2 n].
  cbn [fst snd].
  destruct (t_session t) as [se |].
  - destruct (updatePlayerData_returns (t_now t) p2 (se_manager se)
                (se_database se)) as [out Hout].
    rewrite Hout. cbn [bind]. unfold updateRemotePlayers.
    pose proof (updateMirroredProjectiles_local (t_now t) (t_localMesh t)
                  (t_pushKey t) (t_draws t) (manager out)
                  (otherProjectiles (se_mirrors se))
                  (mkArena (moveMesh (t_localMesh t) (mesh_position p2) (t_scene t))
                           p2 (database out) [] [] [])) as Hlocal.
    cbv zeta in Hlocal.
    destruct (updateMirroredProjectiles (t_now t) (t_localMesh t) (t_pushKey t)
                (t_draws t) (manager out) (otherProjectiles (se_mirrors se))
                (mkArena (moveMesh (t_localMesh t) (mesh_position p2) (t_scene t))
                         p2 (database out) [] [] [])) as [ps' a].
    cbn [fst snd ar_reported ar_localPlayer] in Hlocal.
    destruct Hlocal as (_ & _ & _ & Hrem & Hsame & Hnew).
    eexists. split; [reflexivity |].
    cbn [po_player po_reported po_frags].
    split; [reflexivity |]. split; [exact Hrem |].
    split; [intros H; apply (Hsame H) |].
    split; [exact Hnew |].
    split; [discriminate | reflexivity].
  - eexists. split; [reflexivity |].
    cbn [po_player po_reported po_frags List.length].
    split; [reflexivity |]. split; [reflexivity |].
    split; [reflexivity |].
    split; [intros Hne; contradiction Hne; reflexivity |].
    split; [reflexivity | lia].
Qed.

(** The loop over the mirrored projectiles keeps a local player in play:
    the respawn that a hit brings puts the player on the ground at a new
    place. *)
Lemma updateMirroredProjectiles_inPlay (now : Z) (localMesh : nat)
      (pushKey : nat -> string) (draws : nat -> R * R)
      (m : MultiplayerManager) (ps : list (string * Projectile)) (a : Arena) :
  inPlay (ar_localPlayer a) ->
  inPlay (ar_localPlayer
            (snd (updateMirroredProjectiles now localMesh pushKey draws m ps a))).
Proof.
  revert a.
  induction ps as [| [id q] rest IH]; intros a Hp; [exact Hp |].
  cbn [updateMirroredProjectiles].
  pose proof (updateMirroredProjectile_step now localMesh pushKey draws m id q a)
    as Hstep.
  cbv zeta in Hstep.
  destruct (updateMirroredProjectile now localMesh pushKey draws m id q a)
    as [q2 a2].
  cbn [fst snd] in Hstep.
  specialize (IH a2).
  destruct (updateMirroredProjectiles now localMesh pushKey draws m rest a2)
    as [rest1 a3].
  cbn [fst snd] in IH |- *.
  apply IH.
  destruct Hstep as (_ & _ & _ & [(_ & Hl & _) | (_ & Hl & _)]); rewrite Hl.
  - exact Hp.
  - apply respawn_inPlay. apply Hp.
Qed.

Lemma applyPass_inPlay (t : Turn) (p : Player) :
  0 <= t_deltaTime t -> cos (movementSpeed * t_deltaTime t) <> 0 ->
  inPlay p -> inPlay (applyPass p t).
Proof.
  intros Hdt Hcos Hp.
  pose proof (renderFrame_inPlay (t_now t) (t_scene t) (t_deltaTime t)
                (t_input t) p Hdt Hcos Hp) as Hlocal.
  unfold applyPass, renderPass.
  destruct (renderFrame (t_now t) (t_scene t) (t_deltaTime t) (t_input t) p)
    as [p2 n].
  cbn [fst] in Hlocal |- *.
  destruct (t_session t) as [se |]; [| exact Hlocal].
  destruct (updatePlayerData_returns (t_now t) p2 (se_manager se)
              (se_database se)) as [out Hout].
  rewrite Hout. cbn [bind]. unfold updateRemotePlayers.
  pose proof (updateMirroredProjectiles_inPlay (t_now t) (t_localMesh t)
                (t_pushKey t) (t_draws t) (manager out)
                (otherProjectiles (se_mirrors se))
                (mkArena (moveMesh (t_localMesh t) (mesh_position p2) (t_scene t))
                         p2 (database out) [] [] []) Hlocal) as Hloop.
  destruct (updateMirroredProjectiles (t_now t) (t_localMesh t) (t_pushKey t)
              (t_draws t) (manager out) (otherProjectiles (se_mirrors se))
              (mkArena (moveMesh (t_localMesh t) (mesh_position p2) (t_scene t))
                       p2 (database out) [] [] [])) as [ps' a].
  exact Hloop.
Qed.

(** X28. From its construction on, through any run of whole passes of the
    render loop (whose time steps are not negative and turn no step by a
    right angle), whatever the mirrored projectiles hit and however often
    they respawn the player, the local player is never at the planet's
    centre, stands at distance [planetRadius + heightAboveSurface] from it,
    has its height within [0.60, 3] and its fuel within [0, MAX_FUEL]; the
    percentage shown by the fuel bar is within [0, 100]. *)
Theorem runPasses_inPlay (id : string) (u v : R) (turns : list Turn) :
  Forall (fun t => 0 <= t_deltaTime t /\ cos (movementSpeed * t_deltaTime t) <> 0)
         turns ->
  let p := runPasses turns (Player_constructor id u v) in
  inPlay p /\ 0 <= getFuelPercentage p <= 100.
Proof.
  intros Hturns. cbv zeta.
  assert (Hp : inPlay (runPasses turns (Player_constructor id u v))).
  { unfold runPasses.
    generalize (Player_constructor_inPlay id u v).
    generalize (Player_constructor id u v).
    induction Hturns as [| t rest [Hdt Hcos] _ IH]; intros p Hp; [exact Hp |].
    cbn [fold_left]. apply IH. apply applyPass_inPlay; assumption. }
  split; [exact Hp |].
  destruct Hp as (_ & _ & _ & _ & Hf).
  unfold getFuelPercentage, MAX_FUEL in *. lra.
Qed.

(** With no mirrored projectile about, no hit is reported. *)
Lemma renderPass_without_projectiles (t : Turn) (p : Player) :
  (forall se, t_session t = Some se -> otherProjectiles (se_mirrors se) = []) ->
  exists o, renderPass t p = Returns o /\ po_reported o = [].
Proof.
  intros Hnone. unfold renderPass.
  destruct (renderFrame (t_now t) (t_scene t) (t_deltaTime t) (t_input t) p)
    as [p2 n].
  destruct (t_session t) as [se |]; [| eexists; split; reflexivity].
  destruct (updatePlayerData_returns (t_now t) p2 (se_manager se)
              (se_database se)) as [out Hout].
  rewrite Hout. cbn [bind]. unfold updateRemotePlayers.
  rewrite (Hnone se eq_refl). cbn [updateMirroredProjectiles].
  eexists. split; reflexivity.
Qed.

(** X7. One pass of the render loop runs the fuel gauge of the local player
    twice ([handlePlayerMovement] calls [updatePhysics], then
    [player.update] calls it again): unless a mirrored projectile hits the
    player in the pass, the gauge is left as two ticks of [updateFuel] of
    [dt] seconds each leave it, and with the jetpack key held the fuel is
    lowered by [FUEL_BURN_RATE * dt] twice, stopping at 0 each time.  A hit
    in the pass leaves the tank half full with thrust available instead.
    Without a manager no hit is reported. *)
Theorem renderPass_fuel (t : Turn) (p : Player) :
  isRemotePlayer p = false ->
  exists o,
    renderPass t p = Returns o
    /\ let dt := t_deltaTime t in
       let q := updateFuel dt (updateFuel dt (processJetpack (t_input t) p)) in
       (po_reported o = [] ->
        fuel (po_player o) = fuel q
        /\ hasFuel (po_player o) = hasFuel q
        /\ (key_space (t_input t) = true ->
            fuel (po_player o)
            = Rmax 0 (Rmax 0 (fuel p - FUEL_BURN_RATE * dt) - FUEL_BURN_RATE * dt)))
       /\ (po_reported o <> [] ->
           fuel (po_player o) = MAX_FUEL * 0.5 /\ hasFuel (po_player o) = true)
       /\ (t_session t = None -> po_reported o = []).
Proof.
  intros Hlocal.
  destruct (renderPass_outcome t p)
    as (o & Hret & _ & _ & Hquiet & Hstruck & Hnone & _).
  cbv zeta in Hquiet.
  exists o. split; [exact Hret |]. cbv zeta.
  split; [| split; [| exact Hnone]].
  - intros Hq. rewrite (Hquiet Hq).
    destruct (renderFrame_gauge (t_now t) (t_scene t) (t_deltaTime t)
                (t_input t) p Hlocal) as (Hf & Hh & _).
    cbv zeta in Hf, Hh.
    split; [exact Hf |]. split; [exact Hh |].
    intros Hkey. rewrite Hf.
    destruct (processJetpack_fields (t_input t) p) as (Hj0 & Hf0 & _).
    cbv zeta in Hj0, Hf0. rewrite Hkey in Hj0.
    destruct (updateFuel_burning_twice (t_deltaTime t) _ Hj0) as (Hburn & _).
    cbv zeta in Hburn. rewrite Hburn, Hf0. reflexivity.
  - intros Hs. destruct (Hstruck Hs) as (_ & _ & Hf & Hh & _).
    split; assumption.
Qed.

(** X24. While the jetpack key is held the tank never refills: through any
    run of passes of the render loop with the key held, in none of which a
    mirrored projectile hits the local player, the fuel of the local player
    never rises, and a player who has lost thrust ([hasFuel] false) does not
    get it back, however long the passes last. *)
Theorem jetpack_held_never_refills (turns : list Turn) (p : Player) :
  heldPasses turns p ->
  isRemotePlayer p = false ->
  0 <= fuel p ->
  let p' := runPasses turns p in
  0 <= fuel p' <= fuel p
  /\ (hasFuel p = false -> hasFuel p' = false).
Proof.
  unfold runPasses. revert p.
  induction turns as [| t rest IH]; intros p Hheld Hlocal Hfuel; cbv zeta.
  - cbn [fold_left]. split; [lra | intros H; exact H].
  - cbn [fold_left]. cbn [heldPasses] in Hheld.
    destruct Hheld as (Hdt & Hkey & Hsafe & Hrest).
    destruct (renderPass_outcome t p) as (o & Hret & Happly & _ & Hquiet & _).
    cbv zeta in Hquiet.
    unfold unscathed in Hsafe. rewrite Hret in Hsafe.
    rewrite Happly, (Hquiet Hsafe) in *.
    destruct (renderFrame_held (t_now t) (t_scene t) (t_deltaTime t) (t_input t)
                p Hlocal Hdt Hkey Hfuel) as (Hr1 & Hf1 & Hh1).
    cbv zeta in Hr1, Hf1, Hh1.
    destruct (IH _ Hrest Hr1 (proj1 Hf1)) as [Hf2 Hh2].
    cbv zeta in Hf2, Hh2.
    split; [lra |]. intros H. apply Hh2. apply Hh1. exact H.
Qed.

End Simulation.

(** ** Closed examples *)

(** A local player on the ground: forward and physics steps keep it on the
    surface. *)
Lemma surface_lock_witness :
  onSurface (moveForward frameForward frameAxes 0.016 grounded)
  /\ onSurface (fst (updatePhysics alwaysIntersects snapSlerp 0%Z [] 0.016 grounded)).
Proof.
  assert (Hlocal : isRemotePlayer grounded = false) by reflexivity.
  assert (Hpos : mesh_position grounded <> Zero).
  { unfold grounded, Player_new, Zero. cbn [mesh_position].
    intros E. injection E as E. lra. }
  assert (Hr : 0 <= getBaseRadius + heightAboveSurface grounded).
  { unfold grounded, Player_new, getBaseRadius. cbn [heightAboveSurface]. lra. }
  destruct (surface_lock alwaysIntersects frameForward frameRight frameAxes
              snapSlerp 0%Z [] 0.016 grounded Hlocal Hpos Hr)
    as (_ & Hforward & _ & Hphysics).
  split; [| exact Hphysics].
  apply Hforward. left.
  unfold grounded, Player_new, frameForward, Cross, Zero.
  cbn [mesh_position rotationQuaternion vx vy vz].
  intros E. injection E as E _ _. lra.
Defined.

(** Hysteresis at the threshold: a player out of fuel with 9 units regains
    thrust in a tick of 0.1 s, which takes the fuel to 10.267. *)
Lemma updateFuel_invariant_witness :
  0 <= fuel (updateFuel 0.1 (set_hasFuel false (set_fuel 9 grounded))) <= MAX_FUEL
  /\ (hasFuel (set_hasFuel false (set_fuel 9 grounded)) = false ->
      hasFuel (updateFuel 0.1 (set_hasFuel false (set_fuel 9 grounded))) = true ->
      MAX_FUEL * 0.1
      <= fuel (updateFuel 0.1 (set_hasFuel false (set_fuel 9 grounded)))).
Proof.
  apply (updateFuel_invariant 0.1 (set_hasFuel false (set_fuel 9 grounded))).
  - lra.
  - unfold grounded, Player_new, MAX_FUEL. cbn [fuel set_hasFuel set_fuel]. lra.
Defined.

Lemma updatePhysics_height_clamped_witness :
  MIN_HEIGHT
  <= heightAboveSurface
       (fst (updatePhysics alwaysIntersects snapSlerp 0%Z [] 0.016 grounded))
  <= MAX_HEIGHT.
Proof.
  exact (proj1 (updatePhysics_height_clamped alwaysIntersects snapSlerp
                  0%Z [] 0.016 grounded eq_refl)).
Defined.

(** A shot by alice among alice's and bob's meshes, both touching it: the
    mesh handed to [onHit] is bob's. *)
Lemma projectile_never_hits_owner_witness :
  snd (fst (Projectile_update alwaysIntersects 16%Z
              [mkMesh 1 "player" (Some (mkMetadata (Some "alice"%string))) (mkVector3 0 4.6 0);
               mkMesh 2 "player" (Some (mkMetadata (Some "bob"%string))) (mkVector3 0 4.6 0)]
              (mkProjectile (mkMesh 3 "projectile" None (mkVector3 0 4.6 0.5))
                            true 0%Z (mkVector3 0 0 1) "alice")))
  = Some (mkMesh 2 "player" (Some (mkMetadata (Some "bob"%string))) (mkVector3 0 4.6 0))
  /\ "bob"%string <> "alice"%string.
Proof.
  assert (Hhit :
    snd (fst (Projectile_update alwaysIntersects 16%Z
                [mkMesh 1 "player" (Some (mkMetadata (Some "alice"%string))) (mkVector3 0 4.6 0);
                 mkMesh 2 "player" (Some (mkMetadata (Some "bob"%string))) (mkVector3 0 4.6 0)]
                (mkProjectile (mkMesh 3 "projectile" None (mkVector3 0 4.6 0.5))
                              true 0%Z (mkVector3 0 0 1) "alice")))
    = Some (mkMesh 2 "player" (Some (mkMetadata (Some "bob"%string))) (mkVector3 0 4.6 0)))
    by reflexivity.
  split; [exact Hhit |].
  exact (projectile_never_hits_owner alwaysIntersects _ _ _ _ Hhit
           (mkMetadata (Some "bob"%string)) "bob"%string eq_refl eq_refl).
Defined.

(** A local player whose mesh lost its quaternion, publishing at clock 100
    after a last publish at 0 into an empty store. *)
Lemma updatePlayerData_missing_orientation_witness :
  exists out,
    updatePlayerData 100 (set_rotationQuaternion None grounded)
                     (mkMultiplayerManager "alice" false 0) (mkDatabase [] [] [])
    = Returns out
    /\ database out = mkDatabase [] [] []
    /\ ((100 - lastUpdateTime (mkMultiplayerManager "alice" false 0) >= updateInterval)%Z ->
        errors out = ["Player mesh missing rotation quaternion!"%string])
    /\ ((100 - lastUpdateTime (mkMultiplayerManager "alice" false 0) < updateInterval)%Z ->
        out = mkOutcome (mkMultiplayerManager "alice" false 0) (mkDatabase [] [] []) []).
Proof.
  exact (updatePlayerData_missing_orientation 100
           (set_rotationQuaternion None grounded)
           (mkMultiplayerManager "alice" false 0) (mkDatabase [] [] []) eq_refl).
Defined.

(** C7 as stated fails: bob takes the host role while alone; at the next
    sweep alice has joined and sorts first, so bob is neither the sole
    participant nor first, and a fresh check would refuse him the role, yet
    he still counts as host and his sweep removes the stale shot record. *)
Lemma cleanup_leadership_counterexample :
  isHost (fst (cleanupStaleData 10000 bobManager bobAlone)) = true
  /\ isHost (fst (cleanupStaleData 20000
                    (fst (cleanupStaleData 10000 bobManager bobAlone))
                    aliceJoined)) = true
  /\ db_projectiles (snd (cleanupStaleData 20000
                            (fst (cleanupStaleData 10000 bobManager bobAlone))
                            aliceJoined)) = []
  /\ List.length (db_players aliceJoined) = 2%nat
  /\ map fst (db_players aliceJoined) = ["alice"%string; "bob"%string]
  /\ becomesHost "bob" (db_players aliceJoined) = false.
Proof. repeat split. Qed.

(** C8 as stated fails: one second after it was fired, alice's shot has
    expired in simulation, while its record is neither passed over by bob's
    listener nor removed by a sweep. *)
Lemma projectile_ttl_counterexample :
  Projectile_update neverIntersects 1000%Z [] aliceShot
  = (Projectile_dispose aliceShot, None, false)
  /\ mirrorsProjectile 1000%Z bobManager aliceShotRecord = true
  /\ db_projectiles (sweep 1000%Z aliceJoined) = db_projectiles aliceJoined
  /\ lifespan <> 2000%Z.
Proof.
  repeat split. unfold lifespan. discriminate.
Qed.


(** C5 as stated fails.  With the velocity estimate held, one tick of
    0.05 s carries [drifting] from 0.21 short of its target to 0.26 beyond
    it.  With the vertical velocity estimate held, one tick of 0.016 s
    lowers [sinking] from 0.002 below its target to 0.0096 below.
    [idling], 0.00005 from its target, is left where it is by every tick.
    [opposed], a diameter away from its target, stays a diameter away after
    any number of ticks.  And ticks of no time leave [starved] a quarter
    turn from its target. *)
Lemma interpolation_starved_counterexample :
  (distanceToTarget driftTarget (updateRemoteInterpolation snapSlerp 0.05 drifting)
   > distanceToTarget driftTarget drifting
   /\ Dot (subtract driftTarget
                    (interpolatedFrom (updateRemoteInterpolation snapSlerp 0.05 drifting)))
          (subtract driftTarget (interpolatedFrom drifting)) < 0)
  /\ distanceToTarget (mkVector3 0 0 5.002)
                      (updateRemoteInterpolation snapSlerp 0.016 sinking)
     > distanceToTarget (mkVector3 0 0 5.002) sinking
  /\ (distanceToTarget (mkVector3 0 0 5.00005) idling > 0
      /\ forall n, Nat.iter n (updateRemoteInterpolation snapSlerp 0.016) idling
                   = idling)
  /\ (forall n,
        distanceToTarget (mkVector3 0 0 (-5))
          (Nat.iter n (updateRemoteInterpolation snapSlerp 0.016) opposed)
        = 10)
  /\ (distanceToTarget (mkVector3 0 4.6 0) starved > 6
      /\ forall n,
           interpolatedFrom (Nat.iter n (updateRemoteInterpolation snapSlerp 0) starved)
           = interpolatedFrom starved).
Proof.
  split; [| split; [| split; [| split]]].
  - destruct (updateRemoteInterpolation_position snapSlerp 0.05 drifting
                driftTarget eq_refl) as (_ & _ & _ & Hfar & _).
    change (interpolatedFrom drifting) with (mkVector3 0 0 5) in *.
    assert (Hto : subtract driftTarget (mkVector3 0 0 5)
                  = mkVector3 (47 / 221) 0 (- 1 / 221))
      by (unfold subtract, driftTarget; simpl; f_equal; lra).
    rewrite Hto in Hfar.
    destruct Hfar as [Hc _].
    { apply length_gt; [lra |]. unfold lengthSquared. simpl. lra. }
    assert (Hnew : interpolatedTo 0.05 driftTarget drifting
                   = mkVector3 (105 / 221) 0 (1100 / 221)).
    { unfold interpolatedTo.
      change (interpolatedFrom drifting) with (mkVector3 0 0 5).
      change (estimatedVelocity drifting)
        with (Some (mkVector3 (466.25 / 221) 0 (- 23.75 / 221))).
      rewrite Hto, interpolateHeight_settled by reflexivity.
      change (remoteHeightAboveSurface drifting) with 1.
      assert (Hmv : add (scale (mkVector3 (47 / 221) 0 (- 1 / 221)) (1 / 4))
                        (scale (mkVector3 (466.25 / 221) 0 (- 23.75 / 221)) 0.2)
                    = mkVector3 (105 / 221) 0 (- 5 / 221))
        by (unfold add, scale; simpl; f_equal; lra).
      rewrite moveVector_predicted; rewrite ?Hmv.
      - replace (add (mkVector3 0 0 5) (mkVector3 (105 / 221) 0 (- 5 / 221)))
          with (mkVector3 (105 / 221) 0 (1100 / 221))
          by (unfold add; simpl; f_equal; lra).
        rewrite (normalize_of_length _ 5) by (unfold lengthSquared; simpl; lra).
        unfold scale, getBaseRadius. simpl. f_equal; lra.
      - apply length_gt; [lra |]. unfold lengthSquared. simpl. lra.
      - apply length_le; unfold POSITION_INTERPOLATION_SPEED; [lra |].
        unfold lengthSquared. simpl. lra. }
    assert (Hfrom : interpolatedFrom (updateRemoteInterpolation snapSlerp 0.05 drifting)
                    = mkVector3 (105 / 221) 0 (1100 / 221))
      by (unfold interpolatedFrom; rewrite Hc, Hnew; reflexivity).
    unfold distanceToTarget. rewrite Hfrom.
    change (interpolatedFrom drifting) with (mkVector3 0 0 5).
    split.
    + apply Rlt_gt, length_lt_length.
      unfold lengthSquared, subtract, driftTarget. simpl. lra.
    + unfold Dot, subtract, driftTarget. simpl. lra.
  - destruct (updateRemoteInterpolation_position snapSlerp 0.016 sinking
                (mkVector3 0 0 5.002) eq_refl) as (_ & _ & _ & Hfar & _).
    change (interpolatedFrom sinking) with (mkVector3 0 0 5) in *.
    assert (Hto : subtract (mkVector3 0 0 5.002) (mkVector3 0 0 5)
                  = mkVector3 0 0 0.002)
      by (unfold subtract; simpl; f_equal; lra).
    rewrite Hto, (length_z_axis 0.002) in Hfar by lra.
    destruct Hfar as [Hc _]; [lra |].
    assert (Hheight : interpolateHeight 0.016 sinking = 0.9924).
    { unfold interpolateHeight.
      change (targetHeight sinking) with 1.002.
      change (remoteHeightAboveSurface sinking) with 1.
      change (estimatedVerticalVelocity sinking) with (-1).
      unfold HEIGHT_SMOOTHING_FACTOR.
      replace (1.002 - 1) with 0.002 by lra.
      rewrite Rabs_pos_eq by lra.
      destruct (Rgt_dec 0.002 0.001); [| lra].
      rewrite Rmin_left by lra. rewrite Rmax_right by lra. lra. }
    assert (Hnew : interpolatedTo 0.016 (mkVector3 0 0 5.002) sinking
                   = mkVector3 0 0 4.9924).
    { unfold interpolatedTo. rewrite Hheight.
      change (interpolatedFrom sinking) with (mkVector3 0 0 5).
      change (estimatedVelocity sinking) with (@None Vector3).
      rewrite Hto.
      assert (Hq : scale (mkVector3 0 0 0.002) (1 / 4) = mkVector3 0 0 0.0005)
        by (unfold scale; simpl; f_equal; lra).
      rewrite moveVector_plain; rewrite Hq;
        [| rewrite length_z_axis by lra;
           unfold POSITION_INTERPOLATION_SPEED; lra].
      replace (add (mkVector3 0 0 5) (mkVector3 0 0 0.0005))
        with (mkVector3 0 0 5.0005) by (unfold add; simpl; f_equal; lra).
      rewrite reproject_z_axis by lra.
      unfold getBaseRadius. f_equal. lra. }
    assert (Hfrom : interpolatedFrom (updateRemoteInterpolation snapSlerp 0.016 sinking)
                    = mkVector3 0 0 4.9924)
      by (unfold interpolatedFrom; rewrite Hc, Hnew; reflexivity).
    unfold distanceToTarget. rewrite Hfrom.
    change (interpolatedFrom sinking) with (mkVector3 0 0 5).
    rewrite Hto.
    replace (subtract (mkVector3 0 0 5.002) (mkVector3 0 0 4.9924))
      with (mkVector3 0 0 0.0096) by (unfold subtract; simpl; f_equal; lra).
    rewrite !length_z_axis by lra. lra.
  - assert (Hto : subtract (mkVector3 0 0 5.00005) (mkVector3 0 0 5)
                  = mkVector3 0 0 0.00005)
      by (unfold subtract; simpl; f_equal; lra).
    split.
    + unfold distanceToTarget.
      change (interpolatedFrom idling) with (mkVector3 0 0 5).
      rewrite Hto, length_z_axis by lra. lra.
    + assert (Hstay : updateRemoteInterpolation snapSlerp 0.016 idling = idling).
      { unfold updateRemoteInterpolation, idling, remoteBody, interpolateHeight.
        player_fields.
        replace (1.00005 - 1) with 0.00005 by lra.
        rewrite Rabs_pos_eq by lra.
        destruct (Rgt_dec 0.00005 0.001); [lra |].
        player_fields. rewrite Hto, length_z_axis by lra.
        destruct (Rgt_dec 0.00005 0.0001); [lra | reflexivity]. }
      induction n as [| k IH]; [reflexivity |].
      simpl. rewrite IH. exact Hstay.
  - intros n.
    assert (Hflip : scale (interpolatedFrom opposed) (-1) = mkVector3 0 0 (-5))
      by (unfold scale; simpl; f_equal; lra).
    assert (Hsettled : settledOn (scale (interpolatedFrom opposed) (-1)) opposed).
    { rewrite Hflip.
      unfold settledOn, noVelocityEstimate, opposed, remoteBody, interpolatedFrom,
        getBaseRadius.
      player_fields.
      repeat split; try reflexivity; try lra;
        (apply length_eq; [lra | unfold lengthSquared; simpl; lra]). }
    unfold distanceToTarget.
    rewrite (iterated_opposite snapSlerp 0.016 opposed n) by (lra || exact Hsettled).
    apply length_eq; [lra |].
    unfold lengthSquared, subtract. simpl. lra.
  - split.
    + unfold distanceToTarget.
      change (interpolatedFrom starved) with (mkVector3 4.6 0 0).
      apply length_gt; [lra |].
      unfold lengthSquared, subtract. simpl. lra.
    + intros n. apply (iterated_still snapSlerp (mkVector3 0 4.6 0)).
      unfold settledOn, noVelocityEstimate, starved, remoteBody, interpolatedFrom,
        getBaseRadius.
      player_fields.
      repeat split; try reflexivity; try lra;
        (apply length_eq; [lra | unfold lengthSquared; simpl; lra]).
Qed.

Lemma starved_settled : settledOn (mkVector3 0 4.6 0) starved.
Proof.
  unfold settledOn, noVelocityEstimate, starved, remoteBody, interpolatedFrom,
    getBaseRadius.
  player_fields.
  repeat split; try reflexivity; try lra;
    (apply length_eq; [lra | unfold lengthSquared; simpl; lra]).
Defined.

(** Four ticks of 0.016 s on [starved]: the fourth does not take the body
    away from its target; and from some tick on the body is within 0.0001
    of its target. *)
Lemma interpolation_starved_monotone_witness :
  distanceToTarget (mkVector3 0 4.6 0)
    (updateRemoteInterpolation snapSlerp 0.016
       (Nat.iter 3 (updateRemoteInterpolation snapSlerp 0.016) starved))
  <= distanceToTarget (mkVector3 0 4.6 0)
       (Nat.iter 3 (updateRemoteInterpolation snapSlerp 0.016) starved)
  /\ exists N, forall m, (N <= m)%nat ->
       distanceToTarget (mkVector3 0 4.6 0)
         (Nat.iter m (updateRemoteInterpolation snapSlerp 0.016) starved)
       <= 0.0001.
Proof.
  assert (Hdt : 0 <= 0.016) by lra.
  assert (Hpos : 0 < 0.016) by lra.
  assert (Hopp : distanceToTarget (mkVector3 0 4.6 0) starved
                 < 2 * (getBaseRadius + targetHeight starved)).
  { unfold distanceToTarget.
    change (interpolatedFrom starved) with (mkVector3 4.6 0 0).
    change (targetHeight starved) with 0.6.
    unfold getBaseRadius.
    apply Rle_lt_trans with 7; [| lra].
    apply length_le; [lra |].
    unfold lengthSquared, subtract. simpl. lra. }
  destruct (interpolation_starved_monotone snapSlerp 0.016
              (mkVector3 0 4.6 0) starved 3 Hdt starved_settled)
    as (Hcloser & _ & _ & _ & Harrive).
  split; [exact Hcloser |].
  destruct (Harrive Hpos Hopp) as [N HN].
  exists N. intros m Hm. exact (proj1 (HN m Hm)).
Defined.


(** From the top of the planet, a second of travel about the axis z turns
    the player by one radian toward z. *)
Lemma moveAlongOrbit_arc_witness :
  Dot (mesh_position grounded)
      (mesh_position
         (moveAlongOrbit frameForward frameAxes (mkVector3 0 0 1) 1 grounded))
  = (getBaseRadius + heightAboveSurface grounded)
    * (getBaseRadius + heightAboveSurface grounded) * cos (movementSpeed * 1)
  /\ Dot (mesh_position
            (moveAlongOrbit frameForward frameAxes (mkVector3 0 0 1) 1 grounded))
         (mkVector3 0 0 1)
     = Dot (mesh_position grounded) (mkVector3 0 0 1) * cos (movementSpeed * 1)
       + length (Cross (mkVector3 0 0 1) (mesh_position grounded))
         * sin (movementSpeed * 1).
Proof.
  apply (moveAlongOrbit_arc frameForward frameAxes (mkVector3 0 0 1) 1 grounded).
  - apply Player_new_onSurface. apply length_eq.
    + unfold getBaseRadius. lra.
    + unfold lengthSquared, getBaseRadius. cbn [vx vy vz]. lra.
  - unfold grounded, Player_new, getBaseRadius. cbn [heightAboveSurface]. lra.
  - unfold grounded, Player_new, Cross, Zero. cbn [mesh_position vx vy vz].
    intros E. injection E as E _ _. lra.
Defined.

(** Alice's shot, one update after it was fired: it is as far from the
    centre as before, 0.016 rad along its orbit. *)
Lemma Projectile_update_orbit_witness :
  length (position (proj_mesh
            (fst (fst (Projectile_update neverIntersects 16%Z [] aliceShot)))))
  = length (position (proj_mesh aliceShot))
  /\ Dot (position (proj_mesh aliceShot))
         (position (proj_mesh
            (fst (fst (Projectile_update neverIntersects 16%Z [] aliceShot)))))
     = lengthSquared (position (proj_mesh aliceShot)) * cos (speed * 0.016).
Proof.
  assert (Hc : Cross (startDirection aliceShot) (position (proj_mesh aliceShot))
               <> Zero).
  { unfold aliceShot, Cross, Zero. cbn [startDirection proj_mesh position vx vy vz].
    intros E. injection E as E _ _. lra. }
  destruct (Projectile_update_orbit neverIntersects 16%Z [] aliceShot Hc)
    as [Hlen Hdot].
  split; [exact Hlen |].
  apply Hdot; [reflexivity |].
  unfold aliceShot, lifespan. cbn [spawnTime]. lia.
Defined.

(** In a pass with alice's shot about, where every mesh touches every other,
    bob is hit once, by alice. *)
Lemma shotTurn_reported (now : Z) (p : Player) (o : PassOutcome) :
  (now <= 800)%Z ->
  renderPass alwaysIntersects frameForward frameRight frameAxes snapSlerp
             (shotTurn now) p = Returns o ->
  po_reported o = ["alice"%string].
Proof.
  intros Hyoung. unfold renderPass.
  destruct (renderFrame alwaysIntersects frameForward frameRight frameAxes
              snapSlerp (t_now (shotTurn now)) (t_scene (shotTurn now))
              (t_deltaTime (shotTurn now)) (t_input (shotTurn now)) p)
    as [p2 n].
  cbn [t_session shotTurn se_manager se_database se_mirrors t_now t_localMesh
       t_pushKey t_draws t_scene t_deltaTime].
  destruct (updatePlayerData_returns now p2 bobManager aliceJoined) as [out Hout].
  rewrite Hout. cbn [bind].
  unfold updateRemotePlayers, updateMirroredProjectiles, updateMirroredProjectile,
    Projectile_update.
  cbn [otherProjectiles isActive aliceShot negb spawnTime].
  assert (Hage : (now - 0 >? lifespan)%Z = false).
  { unfold lifespan. rewrite Z.gtb_ltb. apply Z.ltb_ge. lia. }
  rewrite Hage.
  cbn. destruct (isHost (manager out)); intros E; injection E as <-; reflexivity.
Qed.

(** Two passes of bob's render loop.  With the jetpack key held and no mirror
    about, the pass returns and the tank has been charged for the time step
    twice.  With alice's shot hitting bob, the pass returns with alice
    reported and the tank half full. *)
Lemma renderPass_fuel_witness :
  (exists o,
      renderPass alwaysIntersects frameForward frameRight frameAxes snapSlerp
                 (heldTurn 16%Z) bob = Returns o
      /\ fuel (po_player o)
         = Rmax 0 (Rmax 0 (fuel bob - FUEL_BURN_RATE * 0.016)
                   - FUEL_BURN_RATE * 0.016))
  /\ (exists o,
        renderPass alwaysIntersects frameForward frameRight frameAxes snapSlerp
                   (shotTurn 32%Z) bob = Returns o
        /\ po_reported o = ["alice"%string]
        /\ fuel (po_player o) = MAX_FUEL * 0.5
        /\ hasFuel (po_player o) = true).
Proof.
  split.
  - destruct (renderPass_fuel alwaysIntersects frameForward frameRight frameAxes
                snapSlerp (heldTurn 16%Z) bob eq_refl)
      as (o & Hret & Hquiet & _).
    exists o. split; [exact Hret |].
    destruct (renderPass_without_projectiles alwaysIntersects frameForward
                frameRight frameAxes snapSlerp (heldTurn 16%Z) bob)
      as (o' & Hret' & Hnone).
    { intros se Hse. injection Hse as <-. reflexivity. }
    rewrite Hret in Hret'. injection Hret' as <-.
    exact (proj2 (proj2 (Hquiet Hnone)) eq_refl).
  - destruct (renderPass_fuel alwaysIntersects frameForward frameRight frameAxes
                snapSlerp (shotTurn 32%Z) bob eq_refl)
      as (o & Hret & _ & Hstruck & _).
    exists o. split; [exact Hret |].
    assert (Hrep : po_reported o = ["alice"%string])
      by (apply (shotTurn_reported 32%Z bob o); [lia | exact Hret]).
    split; [exact Hrep |].
    apply Hstruck. rewrite Hrep. discriminate.
Defined.

(** The shot a grounded player has just fired takes three steps in the
    frame that follows, with nothing in the scene but the player's own mesh. *)
Lemma renderFrame_projectiles_witness :
  projectiles
    (fst (renderFrame neverIntersects frameForward frameRight frameAxes
            snapSlerp 16%Z [playerMesh 1 grounded] 0.016
            (mkInput false false false true false 0)
            (fst (shoot frameForward 0%Z 7 grounded))))
  = map (fun q => Projectile_move (Projectile_move (Projectile_move q)))
        (projectiles (fst (shoot frameForward 0%Z 7 grounded))).
Proof.
  apply (renderFrame_projectiles neverIntersects frameForward frameRight
           frameAxes snapSlerp 16%Z [playerMesh 1 grounded] 0.016
           (mkInput false false false true false 0)
           (fst (shoot frameForward 0%Z 7 grounded))).
  - reflexivity.
  - intros m a _. reflexivity.
  - constructor; [| constructor].
    split; [reflexivity |]. unfold lifespan. cbn [spawnTime]. lia.
Defined.

Lemma cos_frame_neq_0 : cos (movementSpeed * 0.016) <> 0.
Proof.
  pose proof PI2_1 as Hpi.
  assert (H : 0 < cos (movementSpeed * 0.016)).
  { apply cos_gt_0; unfold movementSpeed; lra. }
  lra.
Qed.

(** A short game: a frame with the jetpack and the forward key held, a shot,
    a respawn, and a frame with the mouse moved. *)
Lemma play_inPlay_witness :
  inPlay
    (play alwaysIntersects frameForward frameRight frameAxes snapSlerp
       [Frame 16%Z [] 0.016 (mkInput true false false true false 0);
        Shot 20%Z 7;
        Respawn 0.25 0.5;
        Frame 32%Z [] 0.016 (mkInput false true false false false 12)]
       (Player_constructor frameAxes "alice" 0.3 0.7))
  /\ 0 <= getFuelPercentage
            (play alwaysIntersects frameForward frameRight frameAxes snapSlerp
               [Frame 16%Z [] 0.016 (mkInput true false false true false 0);
                Shot 20%Z 7;
                Respawn 0.25 0.5;
                Frame 32%Z [] 0.016 (mkInput false true false false false 12)]
               (Player_constructor frameAxes "alice" 0.3 0.7))
     <= 100.
Proof.
  apply (play_inPlay alwaysIntersects frameForward frameRight frameAxes snapSlerp
           "alice" 0.3 0.7).
  repeat constructor; try lra; apply cos_frame_neq_0.
Defined.

(** The starved remote player, a quarter turn from its target: a tick of
    16 ms leaves it on the sphere of its interpolated height. *)
Lemma remote_body_locked_witness :
  MIN_HEIGHT <= remoteHeightAboveSurface
                  (updateRemoteInterpolation snapSlerp 0.016 starved)
             <= MAX_HEIGHT
  /\ length (mesh_position (updateRemoteInterpolation snapSlerp 0.016 starved))
     = getBaseRadius
       + remoteHeightAboveSurface (updateRemoteInterpolation snapSlerp 0.016 starved).
Proof.
  assert (Hh : MIN_HEIGHT <= remoteHeightAboveSurface starved <= MAX_HEIGHT).
  { unfold starved, remoteBody, MIN_HEIGHT, MAX_HEIGHT.
    cbn [remoteHeightAboveSurface]. lra. }
  assert (Hdt : 0 <= 0.016) by lra.
  assert (Hclear : POSITION_INTERPOLATION_SPEED * 0.016
                   < length (interpolatedFrom starved)).
  { apply Rgt_lt. apply length_gt.
    - unfold POSITION_INTERPOLATION_SPEED. lra.
    - unfold starved, remoteBody, interpolatedFrom, lengthSquared,
        POSITION_INTERPOLATION_SPEED.
      cbn [currentInterpolatedPosition vx vy vz]. lra. }
  destruct (remote_body_locked snapSlerp 0.016 starved (mkVector3 0 4.6 0)
              eq_refl Hh Hdt Hclear) as (Hrange & Hfar & _).
  split; [exact Hrange |].
  apply Hfar. unfold distanceToTarget. apply length_gt; [lra |].
  unfold starved, remoteBody, interpolatedFrom, lengthSquared, subtract.
  cbn [currentInterpolatedPosition vx vy vz]. lra.
Defined.

(** A mirror that receives a sample from height 1 on the z axis and then
    ticks twice. *)
Lemma mirror_in_shell_witness :
  mirrored
    (mirror alwaysIntersects snapSlerp
       [Sample 1000%Z (mkPlayerData (mkVector3 0 0 5) Quaternion_Identity false 990%Z);
        Tick 1016%Z [] 0.016;
        Tick 1032%Z [] 0.016]
       (setAsRemotePlayer (Player_constructor frameAxes "bob" 0.3 0.7))).
Proof.
  apply (mirror_in_shell alwaysIntersects frameAxes snapSlerp "bob" 0.3 0.7).
  repeat constructor; cbn [plausible pd_position];
    try rewrite (length_z_axis 5) by lra;
    unfold getBaseRadius, MIN_HEIGHT, MAX_HEIGHT, POSITION_INTERPOLATION_SPEED;
    lra.
Defined.

(** Alice, on the ground, publishes into the store that holds bob alone;
    bob's listener runs a second later. *)
Lemma publish_then_mirror_witness :
  exists o remotePlayer,
    updatePlayerData 10033%Z grounded (mkMultiplayerManager "alice" false 10000%Z)
                     bobAlone = Returns o
    /\ Map_get "alice"
         (onPlayersValue 11033%Z "bob"
            (fun id => Player_constructor frameAxes id 0.3 0.7)
            (db_players (database o)) [])
       = Some remotePlayer
    /\ isRemotePlayer remotePlayer = true
    /\ targetPosition remotePlayer = Some (mesh_position grounded)
    /\ targetRotation remotePlayer = Some Quaternion_Identity
    /\ jetpackActive remotePlayer = jetpackActive grounded
    /\ targetHeight remotePlayer = length (mesh_position grounded) - getBaseRadius
    /\ (onSurface grounded ->
        targetHeight remotePlayer = heightAboveSurface grounded).
Proof.
  apply (publish_then_mirror 10033%Z 11033%Z grounded Quaternion_Identity
           (mkMultiplayerManager "alice" false 10000%Z) bobAlone "bob"
           (fun id => Player_constructor frameAxes id 0.3 0.7) []).
  - reflexivity.
  - cbn [lastUpdateTime]. unfold updateInterval. lia.
  - unfold keyOrdered, bobAlone. cbn [db_players map fst].
    constructor; constructor.
  - cbn [mm_playerUUID]. intros E. discriminate E.
  - lia.
  - constructor.
Defined.

(** Alice shoots from the ground; her own listener passes over the record,
    bob's mirrors it half a second later. *)
Lemma shot_reaches_other_clients_witness :
  exists pos direction local q,
    shoot frameForward 100%Z 7 (setMultiplayerManager grounded)
    = (set_projectiles (projectiles (setMultiplayerManager grounded) ++ [local])
                       (setMultiplayerManager grounded),
       Some (pos, direction))
    /\ pos = add (mesh_position (setMultiplayerManager grounded))
                 (scale (frameForward (rotationQuaternion (setMultiplayerManager grounded)))
                        0.5)
    /\ Map_get "-shot2"
         (onProjectilesValue 600%Z (mkMultiplayerManager "alice" false 0%Z)
            (fun _ => 9%nat)
            (db_projectiles
               (fst (addProjectile 100%Z "-shot2" pos direction
                       (mkMultiplayerManager "alice" false 0%Z) bobAlone)))
            []) = None
    /\ Map_get "-shot2"
         (onProjectilesValue 600%Z bobManager (fun _ => 9%nat)
            (db_projectiles
               (fst (addProjectile 100%Z "-shot2" pos direction
                       (mkMultiplayerManager "alice" false 0%Z) bobAlone)))
            []) = Some q
    /\ position (proj_mesh q) = position (proj_mesh local)
    /\ startDirection q = startDirection local
    /\ ownerUUID q = ownerUUID local
    /\ isActive q = true /\ isActive local = true
    /\ spawnTime q = 600%Z /\ spawnTime local = 100%Z.
Proof.
  apply (shot_reaches_other_clients frameForward 100%Z 600%Z 7 "-shot2"
           (setMultiplayerManager grounded)
           (mkMultiplayerManager "alice" false 0%Z) bobManager bobAlone
           (fun _ => 9%nat) [] []).
  - reflexivity.
  - reflexivity.
  - reflexivity.
  - cbn [mm_playerUUID bobManager]. intros E. discriminate E.
  - unfold keyOrdered, bobAlone. cbn [db_projectiles map]. constructor.
  - lia.
  - reflexivity.
  - reflexivity.
Defined.

(** The vertex at the top of the z axis, with the seed 0. *)
Lemma deformVertex_radial_witness :
  exists k,
    deformVertex 0 (mkVector3 0 0 4) = scale (mkVector3 0 0 4) k
    /\ 0.225 <= k <= 1.175
    /\ 0.9 <= length (deformVertex 0 (mkVector3 0 0 4)) <= 4.7.
Proof.
  apply (deformVertex_radial 0 (mkVector3 0 0 4)).
  unfold getBaseRadius. apply length_z_axis. lra.
Defined.

(** The grounded player through a tick of 16 ms. *)
Lemma updatePhysics_rest_witness :
  mesh_position (fst (updatePhysics alwaysIntersects snapSlerp 16%Z [] 0.016 grounded))
  = mesh_position grounded
  /\ heightAboveSurface
       (fst (updatePhysics alwaysIntersects snapSlerp 16%Z [] 0.016 grounded))
     = MIN_HEIGHT
  /\ verticalVelocity
       (fst (updatePhysics alwaysIntersects snapSlerp 16%Z [] 0.016 grounded))
     = 0.
Proof.
  apply (updatePhysics_rest alwaysIntersects snapSlerp 16%Z [] 0.016 grounded).
  - reflexivity.
  - reflexivity.
  - apply Player_new_onSurface. apply length_eq.
    + unfold getBaseRadius. lra.
    + unfold lengthSquared, getBaseRadius. cbn [vx vy vz]. lra.
  - reflexivity.
  - unfold grounded, Player_new. cbn [verticalVelocity]. lra.
  - lra.
Defined.

Lemma spawnRandomPosition_upright_witness :
  exists right up forward,
    rotationQuaternion (spawnRandomPosition frameAxes 0.3 0.7 grounded)
    = Some (frameAxes right up forward)
    /\ orthonormal right up forward
    /\ mesh_position (spawnRandomPosition frameAxes 0.3 0.7 grounded)
       = scale up (getBaseRadius + heightAboveSurface grounded).
Proof.
  apply (spawnRandomPosition_upright frameAxes 0.3 0.7 grounded).
  unfold grounded, Player_new, getBaseRadius. cbn [heightAboveSurface]. lra.
Defined.

Lemma moveAlongOrbit_upright_witness :
  exists right forward,
    rotationQuaternion
      (moveAlongOrbit frameForward frameAxes (mkVector3 0 0 1) 0.016 grounded)
    = Some (frameAxes right (normalize (mesh_position grounded)) forward)
    /\ orthonormal right (normalize (mesh_position grounded)) forward.
Proof.
  apply (moveAlongOrbit_upright frameForward frameAxes (mkVector3 0 0 1) 0.016
           grounded).
  unfold grounded, Player_new, frameForward, Cross, Zero.
  cbn [mesh_position rotationQuaternion vx vy vz].
  intros E. injection E as E _ _. lra.
Defined.

(** Alice's shot among alice's and bob's meshes, both touching it: the hit
    is on bob's mesh and counts as a frag. *)
Lemma hit_counts_as_frag_witness :
  In (mkMesh 2 "player" (Some (mkMetadata (Some "bob"%string))) (mkVector3 0 4.6 0))
     [mkMesh 1 "player" (Some (mkMetadata (Some "alice"%string))) (mkVector3 0 4.6 0);
      mkMesh 2 "player" (Some (mkMetadata (Some "bob"%string))) (mkVector3 0 4.6 0)]
  /\ countsAsFrag (ownerUUID aliceShot)
       (mkMesh 2 "player" (Some (mkMetadata (Some "bob"%string))) (mkVector3 0 4.6 0))
     = true.
Proof.
  destruct (hit_counts_as_frag alwaysIntersects 16%Z
              [mkMesh 1 "player" (Some (mkMetadata (Some "alice"%string))) (mkVector3 0 4.6 0);
               mkMesh 2 "player" (Some (mkMetadata (Some "bob"%string))) (mkVector3 0 4.6 0)]
              aliceShot
              (mkMesh 2 "player" (Some (mkMetadata (Some "bob"%string))) (mkVector3 0 4.6 0))
              eq_refl)
    as (Hin & _ & _ & _ & Hfrag).
  split; [exact Hin | exact Hfrag].
Defined.

(** Bob's client mirrors alice with a player whose constructor drew the
    uuid "m-1": alice's shot collides with that mirror's mesh. *)
Lemma mirror_keeps_own_uuid_witness :
  uuid (updateRemotePlayer 1000%Z
          (setAsRemotePlayer (Player_constructor frameAxes "m-1" 0.3 0.7))
          (mkPlayerData (mkVector3 0 4.6 0) Quaternion_Identity false 990%Z))
  = "m-1"%string
  /\ collides alwaysIntersects aliceShot
       (playerMesh 2
          (updateRemotePlayer 1000%Z
             (setAsRemotePlayer (Player_constructor frameAxes "m-1" 0.3 0.7))
             (mkPlayerData (mkVector3 0 4.6 0) Quaternion_Identity false 990%Z)))
     = true.
Proof.
  apply (mirror_keeps_own_uuid alwaysIntersects 1000%Z
           (setAsRemotePlayer (Player_constructor frameAxes "m-1" 0.3 0.7))
           (mkPlayerData (mkVector3 0 4.6 0) Quaternion_Identity false 990%Z)
           2 aliceShot).
  - cbn. intros E. discriminate E.
  - cbn. intros E. discriminate E.
Defined.

(** Bob's game from its construction: a pass with the jetpack key held, and
    a pass with alice's shot about, where every mesh touches every other. *)
Lemma runPasses_inPlay_witness :
  inPlay
    (runPasses alwaysIntersects frameForward frameRight frameAxes snapSlerp
       [heldTurn 16%Z; shotTurn 32%Z]
       (Player_constructor frameAxes "bob" 0.3 0.7))
  /\ 0 <= getFuelPercentage
            (runPasses alwaysIntersects frameForward frameRight frameAxes snapSlerp
               [heldTurn 16%Z; shotTurn 32%Z]
               (Player_constructor frameAxes "bob" 0.3 0.7))
     <= 100.
Proof.
  apply (runPasses_inPlay alwaysIntersects frameForward frameRight frameAxes
           snapSlerp "bob" 0.3 0.7).
  repeat constructor; try (cbn [t_deltaTime heldTurn shotTurn]; lra);
    apply cos_frame_neq_0.
Defined.

(** Two passes of bob's render loop with the key held, the tank empty and
    thrust lost: the tank stays empty and thrust stays lost. *)
Lemma jetpack_held_never_refills_witness :
  0 <= fuel (runPasses alwaysIntersects frameForward frameRight frameAxes snapSlerp
               [heldTurn 16%Z; heldTurn 32%Z]
               (set_hasFuel false (set_fuel 0 bob)))
    <= fuel (set_hasFuel false (set_fuel 0 bob))
  /\ hasFuel (runPasses alwaysIntersects frameForward frameRight frameAxes snapSlerp
                [heldTurn 16%Z; heldTurn 32%Z]
                (set_hasFuel false (set_fuel 0 bob)))
     = false.
Proof.
  assert (Hquiet : forall now p,
            unscathed alwaysIntersects frameForward frameRight frameAxes snapSlerp
                      (heldTurn now) p).
  { intros now p. unfold unscathed.
    destruct (renderPass_without_projectiles alwaysIntersects frameForward
                frameRight frameAxes snapSlerp (heldTurn now) p)
      as (o & Hret & Hnone).
    - intros se Hse. injection Hse as <-. reflexivity.
    - rewrite Hret. exact Hnone. }
  assert (Hdt : 0 <= 0.016) by lra.
  assert (Hheld : heldPasses alwaysIntersects frameForward frameRight frameAxes
                    snapSlerp [heldTurn 16%Z; heldTurn 32%Z]
                    (set_hasFuel false (set_fuel 0 bob))).
  { cbn [heldPasses].
    split; [exact Hdt |]. split; [reflexivity |]. split; [apply Hquiet |].
    split; [exact Hdt |]. split; [reflexivity |]. split; [apply Hquiet | exact I]. }
  assert (Hfuel : 0 <= fuel (set_hasFuel false (set_fuel 0 bob)))
    by (cbn [fuel set_hasFuel set_fuel]; lra).
  destruct (jetpack_held_never_refills alwaysIntersects frameForward frameRight
              frameAxes snapSlerp _ (set_hasFuel false (set_fuel 0 bob))
              Hheld eq_refl Hfuel) as [Hf Hh].
  split; [exact Hf | exact (Hh eq_refl)].
Defined.

(** Three samples of a peer walking along the z axis. *)
Lemma velocity_estimate_lags_witness :
  estimatedVelocity (setRemotePosition 1000%Z (mkVector3 0 0 4.6) freshRemote) = None
  /\ estimatedVelocity
       (setRemotePosition 1033%Z (mkVector3 0 0.1 4.6)
          (setRemotePosition 1000%Z (mkVector3 0 0 4.6) freshRemote)) = None
  /\ estimatedVelocity
       (setRemotePosition 1066%Z (mkVector3 0 0.3 4.6)
          (setRemotePosition 1033%Z (mkVector3 0 0.1 4.6)
             (setRemotePosition 1000%Z (mkVector3 0 0 4.6) freshRemote)))
     = (if Rgt_dec (length (subtract (mkVector3 0 0.1 4.6) (mkVector3 0 0 4.6))) 0.001
        then Some (subtract (mkVector3 0 0.1 4.6) (mkVector3 0 0 4.6)) else None)
  /\ targetPosition
       (setRemotePosition 1066%Z (mkVector3 0 0.3 4.6)
          (setRemotePosition 1033%Z (mkVector3 0 0.1 4.6)
             (setRemotePosition 1000%Z (mkVector3 0 0 4.6) freshRemote)))
     = Some (mkVector3 0 0.3 4.6).
Proof.
  exact (velocity_estimate_lags 1000%Z 1033%Z 1066%Z
           (mkVector3 0 0 4.6) (mkVector3 0 0.1 4.6) (mkVector3 0 0.3 4.6)
           freshRemote eq_refl eq_refl eq_refl eq_refl).
Defined.

(** Bob, host, sweeps at clock 20,000 a store in which alice last published
    at 5,000; carol's listener then drops her mirror of alice. *)
Lemma stale_player_leaves_witness :
  ~ In "alice"%string
       (map fst
          (db_players
             (snd (cleanupStaleData 20000%Z (mkMultiplayerManager "bob" true 0%Z)
                     (mkDatabase
                        [("alice"%string,
                          mkPlayerData (mkVector3 4.6 0 0) Quaternion_Identity false 5000%Z);
                         ("bob"%string,
                          mkPlayerData (mkVector3 0 4.6 0) Quaternion_Identity false 19990%Z)]
                        [] [])))))
  /\ Map_get "alice"
       (onPlayersValue 20010%Z "carol"
          (fun id => Player_constructor frameAxes id 0.3 0.7)
          (db_players
             (snd (cleanupStaleData 20000%Z (mkMultiplayerManager "bob" true 0%Z)
                     (mkDatabase
                        [("alice"%string,
                          mkPlayerData (mkVector3 4.6 0 0) Quaternion_Identity false 5000%Z);
                         ("bob"%string,
                          mkPlayerData (mkVector3 0 4.6 0) Quaternion_Identity false 19990%Z)]
                        [] []))))
          [("alice"%string, freshRemote)])
     = None.
Proof.
  assert (Hord : keyOrdered
                   [("alice"%string,
                     mkPlayerData (mkVector3 4.6 0 0) Quaternion_Identity false 5000%Z);
                    ("bob"%string,
                     mkPlayerData (mkVector3 0 4.6 0) Quaternion_Identity false 19990%Z)]).
  { unfold keyOrdered. cbn [map fst].
    repeat constructor. }
  destruct (stale_player_leaves 20000%Z 20010%Z (mkMultiplayerManager "bob" true 0%Z)
              (mkDatabase
                 [("alice"%string,
                   mkPlayerData (mkVector3 4.6 0 0) Quaternion_Identity false 5000%Z);
                  ("bob"%string,
                   mkPlayerData (mkVector3 0 4.6 0) Quaternion_Identity false 19990%Z)]
                 [] [])
              "carol" (fun id => Player_constructor frameAxes id 0.3 0.7)
              [("alice"%string, freshRemote)] "alice"
              (mkPlayerData (mkVector3 4.6 0 0) Quaternion_Identity false 5000%Z)
              eq_refl Hord (or_introl eq_refl)) as [Hgone Hdrop].
  - cbn [lastUpdate]. lia.
  - split; [exact Hgone |]. apply Hdrop.
    cbn. intros E. discriminate E.
Defined.

(** A pass of [updateRemotePlayers] on bob's client, the mirror of alice's
    shot in flight and touching nothing: the mirror takes one step, the
    store is as before and no hit is reported. *)
Lemma updateRemotePlayers_projectiles_witness :
  otherProjectiles
    (fst (updateRemotePlayers neverIntersects frameAxes snapSlerp 16%Z 1
            (fun _ => "-effect1"%string) (fun _ => (0, 1 / 2))
            [playerMesh 1 bob] 0.016 bobManager
            (mkMirrors [] [("-shot1"%string, aliceShot)]) bob aliceJoined))
  = [("-shot1"%string, Projectile_move aliceShot)]
  /\ ar_database
       (snd (updateRemotePlayers neverIntersects frameAxes snapSlerp 16%Z 1
               (fun _ => "-effect1"%string) (fun _ => (0, 1 / 2))
               [playerMesh 1 bob] 0.016 bobManager
               (mkMirrors [] [("-shot1"%string, aliceShot)]) bob aliceJoined))
     = aliceJoined
  /\ ar_hits
       (snd (updateRemotePlayers neverIntersects frameAxes snapSlerp 16%Z 1
               (fun _ => "-effect1"%string) (fun _ => (0, 1 / 2))
               [playerMesh 1 bob] 0.016 bobManager
               (mkMirrors [] [("-shot1"%string, aliceShot)]) bob aliceJoined))
     = [].
Proof.
  destruct (updateRemotePlayers_projectiles neverIntersects frameAxes snapSlerp
              16%Z 1 (fun _ => "-effect1"%string) (fun _ => (0, 1 / 2))
              [playerMesh 1 bob] 0.016 bobManager
              (mkMirrors [] [("-shot1"%string, aliceShot)]) bob aliceJoined)
    as (Hp & Hd & Hh & _).
  - intros mesh a _. reflexivity.
  - constructor; [| constructor].
    split; [reflexivity |]. unfold lifespan. cbn [snd aliceShot spawnTime]. lia.
  - split; [exact Hp |]. split; [exact Hd | exact Hh].
Defined.

